(** * haksnbot-tools: session manager, message classifier, protected actions

    A shallow embedding of the connection tools (tools/connection.js), the
    claim lookup (utils/claims.js), the building and sign tools
    (tools/building.js, tools/signs.js) and the server constructor
    (index.js), with the properties of the session and action-outcome
    subsystem stated over it; and of the chat history
    (tools/communication.js), the entity matching (utils/helpers.js), the
    crafting count (tools/crafting.js) and the item names of the economy
    tools, with further properties of all of these.

    Conventions of the embedding.
    - A JavaScript string is the list of its UTF-16 code units ([jsstring]).
    - A JavaScript number that the code only uses as an integer (timestamps,
      delays, counters, block coordinates) is a [Z].
    - [this] of the MinecraftMCP object is a record passed explicitly; timers,
      live bots and settled promises are kept in an explicit [World].
    - [console.error] and the append to the bot message log file
      ([logBotMessage]) write outside the modelled state and are left out. *)

From Stdlib Require Import List ZArith NArith Bool Lia String Ascii.
From Stdlib Require Import DecimalString.
Import ListNotations.
Local Open Scope Z_scope.
Set Warnings "-register-all".

(* ===================================================================== *)
(** ** JavaScript strings and the regular expressions the code uses *)
(* ===================================================================== *)

Module Js.

Definition jsstring := list N.

(** An ASCII literal as a JavaScript string. *)
Definition js (s : string) : jsstring :=
  List.map N_of_ascii (list_ascii_of_string s).

Fixpoint eqb (a b : jsstring) : bool :=
  match a, b with
  | [], [] => true
  | x :: a', y :: b' => N.eqb x y && eqb a' b'
  | _, _ => false
  end.

Definition len (s : jsstring) : Z := Z.of_nat (List.length s).

Fixpoint startsWith (p s : jsstring) : bool :=
  match p, s with
  | [], _ => true
  | x :: p', y :: s' => N.eqb x y && startsWith p' s'
  | _ :: _, [] => false
  end.

(** [String.prototype.includes]. *)
Fixpoint includes (needle s : jsstring) : bool :=
  startsWith needle s ||
  match s with
  | [] => false
  | _ :: s' => includes needle s'
  end.

(** LineTerminator code units: LF, CR, LS, PS. *)
Definition isLineTerminator (c : N) : bool :=
  (N.eqb c 10 || N.eqb c 13 || N.eqb c 8232 || N.eqb c 8233)%N.

(** [\s] and the characters [trim] strips: WhiteSpace and LineTerminator. *)
Definition isSpace (c : N) : bool :=
  ((N.leb 9 c && N.leb c 13) || N.eqb c 32 || N.eqb c 160 || N.eqb c 5760
   || (N.leb 8192 c && N.leb c 8202) || N.eqb c 8232 || N.eqb c 8233
   || N.eqb c 8239 || N.eqb c 8287 || N.eqb c 12288 || N.eqb c 65279)%N.

Definition isUpperAZ (c : N) : bool := (N.leb 65 c && N.leb c 90)%N.
Definition isLowerAZ (c : N) : bool := (N.leb 97 c && N.leb c 122)%N.
Definition isDigit (c : N) : bool := (N.leb 48 c && N.leb c 57)%N.

(** [\w] and the class [[A-Za-z0-9_]]. *)
Definition isWord (c : N) : bool :=
  isUpperAZ c || isLowerAZ c || isDigit c || N.eqb c 95.

(** [toLowerCase] on one code unit.  Exact below 256 (A-Z and the Latin-1
    capitals); code units from 256 on are left as they are.  The code only
    searches lowered text for ASCII needles in which no [i] is last and no
    [k] occurs, so the two non-ASCII letters whose lowering produces ASCII
    (U+0130, U+212A) cannot change a search result. *)
Definition lowerUnit (c : N) : N :=
  (if isUpperAZ c then c + 32
   else if (N.leb 192 c && N.leb c 222 && negb (N.eqb c 215)) then c + 32
   else c)%N.

Definition toLowerCase (s : jsstring) : jsstring := List.map lowerUnit s.

Fixpoint trimStart (s : jsstring) : jsstring :=
  match s with
  | c :: s' => if isSpace c then trimStart s' else s
  | [] => []
  end.

Definition trim (s : jsstring) : jsstring :=
  List.rev (trimStart (List.rev (trimStart s))).

(** [s.split(',')]: always at least one piece. *)
Fixpoint split_comma_aux (cur : jsstring) (s : jsstring) : list jsstring :=
  match s with
  | [] => [List.rev cur]
  | c :: s' =>
      if N.eqb c 44 then List.rev cur :: split_comma_aux [] s'
      else split_comma_aux (c :: cur) s'
  end.

Definition split_comma (s : jsstring) : list jsstring := split_comma_aux [] s.

Definition nonEmpty (s : jsstring) : bool :=
  match s with [] => false | _ => true end.

(** Decimal rendering of an integer, as a template literal prints it.
    Exact for the integers of magnitude below 10^21 (from there on the
    engine prints an exponent); a number with a fraction, which the tools'
    schemas allow for coordinates, is outside the embedding. *)
Definition showZ (z : Z) : jsstring :=
  js (NilZero.string_of_int (Z.to_int z)).

(** *** Backtracking matchers

    A pattern is matched the way a backtracking engine does it: every
    construct takes the continuation for the rest of the pattern, tries its
    alternatives in the engine's priority order (greedy first) and returns
    the first success. *)

Section Matchers.
Context {A : Type}.

Definition orElse (x y : option A) : option A :=
  match x with Some _ => x | None => y end.

(** A literal. *)
Definition lit (p : jsstring) (k : jsstring -> option A) (s : jsstring)
  : option A :=
  if startsWith p s then k (List.skipn (List.length p) s) else None.

(** One code unit of a class. *)
Definition one (cls : N -> bool) (k : jsstring -> option A) (s : jsstring)
  : option A :=
  match s with
  | c :: s' => if cls c then k s' else None
  | [] => None
  end.

(** The class starred, greedy. *)
Fixpoint star (cls : N -> bool) (k : jsstring -> option A) (s : jsstring)
  : option A :=
  match s with
  | c :: s' => if cls c then orElse (star cls k s') (k s) else k s
  | [] => k s
  end.

(** The class starred inside a group, greedy; [acc] is the capture so far,
    reversed. *)
Fixpoint starCap (cls : N -> bool) (acc : jsstring)
    (k : jsstring -> jsstring -> option A) (s : jsstring) : option A :=
  match s with
  | c :: s' =>
      if cls c then orElse (starCap cls (c :: acc) k s') (k (List.rev acc) s)
      else k (List.rev acc) s
  | [] => k (List.rev acc) s
  end.

(** The class repeated at most [n] times inside a group, greedy. *)
Fixpoint uptoCap (cls : N -> bool) (n : nat) (acc : jsstring)
    (k : jsstring -> jsstring -> option A) (s : jsstring) : option A :=
  match n with
  | O => k (List.rev acc) s
  | S n' =>
      match s with
      | c :: s' =>
          if cls c
          then orElse (uptoCap cls n' (c :: acc) k s') (k (List.rev acc) s)
          else k (List.rev acc) s
      | [] => k (List.rev acc) s
      end
  end.

(** An unanchored pattern: the first start position, from the left, at
    which [m] succeeds. *)
Fixpoint search (m : jsstring -> option A) (s : jsstring) : option A :=
  orElse (m s) match s with [] => None | _ :: s' => search m s' end.

(** The same, [m] being told the code unit before the start position
    (for [\b]). *)
Fixpoint searchPrev (m : option N -> jsstring -> option A)
    (prev : option N) (s : jsstring) : option A :=
  orElse (m prev s)
    match s with [] => None | c :: s' => searchPrev m (Some c) s' end.
End Matchers.

Definition atEnd {A} (x : A) (s : jsstring) : option A :=
  match s with [] => Some x | _ => None end.

Definition succeed {A} (x : A) (_ : jsstring) : option A := Some x.

Definition notLT (c : N) : bool := negb (isLineTerminator c).
Definition notSpace (c : N) : bool := negb (isSpace c).

Definition isSome {A} (o : option A) : bool :=
  match o with Some _ => true | None => false end.

Definition upperUnitAscii (c : N) : N := (if isLowerAZ c then c - 32 else c)%N.

(** A literal under the [i] flag.  The literals used are ASCII; no code unit
    outside ASCII canonicalizes to an ASCII letter, so comparing the ASCII
    upper-casings is the engine's comparison. *)
Fixpoint litCI (p : jsstring) {A} (k : jsstring -> option A) (s : jsstring)
  : option A :=
  match p, s with
  | [], _ => k s
  | x :: p', y :: s' =>
      if N.eqb (upperUnitAscii x) (upperUnitAscii y) then litCI p' k s' else None
  | _ :: _, [] => None
  end.

End Js.

Import Js.

(* ===================================================================== *)
(** ** utils/helpers.js: tool results *)
(* ===================================================================== *)

Module Helpers.

(** The objects handed to [json]; their text is [JSON.stringify(obj, null, 2)]
    and is kept as the object itself. *)
Inductive Json :=
| JNull
| JBool (b : bool)
| JNum (z : Z)
| JStr (s : jsstring)
| JArr (items : list Json)
| JObj (fields : list (string * Json)).

Inductive Payload :=
| PText (s : jsstring)
| PJson (o : Json).

(** [{ content: [{ type: 'text', text }], isError }]. *)
Record ToolResult := mkResult { content : Payload; isError : bool }.

Definition text (msg : jsstring) : ToolResult :=
  {| content := PText msg; isError := false |}.

Definition json (obj : Json) : ToolResult :=
  {| content := PJson obj; isError := false |}.

Definition error (msg : jsstring) : ToolResult :=
  {| content := PText (js "Error: " ++ msg); isError := true |}.

End Helpers.

Import Helpers.

(* ===================================================================== *)
(** ** tools/connection.js: the chat and message listeners *)
(* ===================================================================== *)

Module Classifier.

(** The [position] argument of mineflayer's [message] event. *)
Inductive Position := pos_chat | pos_system | pos_game_info.

Definition Position_eqb (a b : Position) : bool :=
  match a, b with
  | pos_chat, pos_chat | pos_system, pos_system
  | pos_game_info, pos_game_info => true
  | _, _ => false
  end.

(** An element of [this.chatLog]: [{type:'chat', user, message, timestamp}]
    or [{type:'system', message, position, timestamp}]. *)
Inductive LogEntry :=
| LogChat (user message : jsstring) (timestamp : Z)
| LogSystem (message : jsstring) (position : Position) (timestamp : Z).

(** [this.chatLog.push(e); if (this.chatLog.length > 100) this.chatLog.shift()] *)
Definition push_log (chatLog : list LogEntry) (e : LogEntry) : list LogEntry :=
  let l := chatLog ++ [e] in
  if 100 <? Z.of_nat (List.length l) then List.tl l else l.

(** [\b] between the code unit before the position and the rest. *)
Definition wordBoundary (prev : option N) (s : jsstring) : bool :=
  xorb (match prev with Some c => isWord c | None => false end)
       (match s with c :: _ => isWord c | [] => false end).

Definition optLit {A} (p : jsstring) (k : jsstring -> option A) (s : jsstring)
  : option A :=
  orElse (lit p k s) (k s).

Definition optLitCI {A} (p : jsstring) (k : jsstring -> option A)
    (s : jsstring) : option A :=
  orElse (litCI p k s) (k s).

(** [/\bplaced? a sign @/.test(msgText)] *)
Definition re_sign_placement (msgText : jsstring) : bool :=
  isSome (searchPrev
            (fun prev s =>
               if wordBoundary prev s
               then lit (js "place") (optLit (js "d")
                      (lit (js " a sign @") (succeed tt))) s
               else None)
            None msgText).

(** [/^\s{2,}/.test(msgText)] *)
Definition re_sign_content (msgText : jsstring) : bool :=
  isSome (one isSpace (one isSpace (star isSpace (succeed tt))) msgText).

(** [/\s*->\s*/.test(msgText)] *)
Definition re_arrow (msgText : jsstring) : bool :=
  isSome (search (star isSpace (lit (js "->") (star isSpace (succeed tt))))
            msgText).

(** [/whispers? to/i.test(msgText)] *)
Definition re_whisper (msgText : jsstring) : bool :=
  isSome (search (litCI (js "whisper") (optLitCI (js "s")
                    (litCI (js " to") (succeed tt)))) msgText).

(** U+2192, the rightwards arrow. *)
Definition rightArrow : jsstring := [8594%N].

(** [/\[.*\s*\u2192\s*.*\]/.test(msgText)], the arrow being U+2192 *)
Definition re_bracket_arrow (msgText : jsstring) : bool :=
  isSome (search
            (lit (js "[") (star notLT (star isSpace (lit rightArrow
               (star isSpace (star notLT (lit (js "]") (succeed tt))))))))
            msgText).

(** [msgText.match(/^([A-Za-z0-9_]{3,16}): (.+)$/)], as the two groups. *)
Definition match_chat (msgText : jsstring) : option (jsstring * jsstring) :=
  uptoCap isWord 16 []
    (fun user rest =>
       if (3 <=? List.length user)%nat
       then lit (js ": ")
              (starCap notLT []
                 (fun message rest' =>
                    if nonEmpty message then atEnd (user, message) rest'
                    else None))
              rest
       else None)
    msgText.

(** The [chat] listener. *)
Definition on_chat (now : Z) (user message : jsstring)
    (chatLog : list LogEntry) : list LogEntry :=
  push_log chatLog (LogChat user message now).

(** [this.chatLog.some(m => m.type === 'chat' && m.user === user &&
     m.message === message && Date.now() - m.timestamp < 1000)] *)
Definition isDuplicate (now : Z) (user message : jsstring)
    (chatLog : list LogEntry) : bool :=
  List.existsb
    (fun m =>
       match m with
       | LogChat u msg ts => Js.eqb u user && Js.eqb msg message
                             && (now - ts <? 1000)
       | LogSystem _ _ _ => false
       end)
    chatLog.

(** The [message] listener.  It reads and writes [this.chatLog] and the
    [signPlacementTime] variable of the enclosing [connect] call. *)
Definition on_message (now : Z) (msgText : jsstring) (position : Position)
    (chatLog : list LogEntry) (signPlacementTime : Z)
  : list LogEntry * Z :=
  match position with
  | pos_system | pos_game_info =>
      if negb (nonEmpty (trim msgText)) then (chatLog, signPlacementTime)
      else if re_sign_placement msgText then (chatLog, now)
      else if (now - signPlacementTime <? 500) && re_sign_content msgText
              && (len msgText <? 50)
      then (chatLog, signPlacementTime)
      else if re_arrow msgText || re_whisper msgText
              || re_bracket_arrow msgText
      then (chatLog, signPlacementTime)
      else
        let system_entry :=
          (push_log chatLog (LogSystem msgText position now),
           signPlacementTime) in
        match match_chat msgText with
        | Some (user, message) =>
            if Position_eqb position pos_system then
              if negb (isDuplicate now user message chatLog)
              then (push_log chatLog (LogChat user message now),
                    signPlacementTime)
              else system_entry
            else system_entry
        | None => system_entry
        end
  | pos_chat => (chatLog, signPlacementTime)
  end.

End Classifier.

Import Classifier.

(* ===================================================================== *)
(** ** index.js: the MinecraftMCP object *)
(* ===================================================================== *)

Module Session.

Inductive ConnState := disconnected | connecting | connected | reconnecting.

Definition ConnState_eqb (a b : ConnState) : bool :=
  match a, b with
  | disconnected, disconnected | connecting, connecting
  | connected, connected | reconnecting, reconnecting => true
  | _, _ => false
  end.

(** The string a template literal prints for [this.connectionState]. *)
Definition stateName (st : ConnState) : jsstring :=
  match st with
  | disconnected => js "disconnected"
  | connecting => js "connecting"
  | connected => js "connected"
  | reconnecting => js "reconnecting"
  end.

(** The argument object of [connect]; a missing property is [None]. *)
Record ConnectArgs := mkArgs {
  host : option jsstring;
  port : option Z;
  username : jsstring;
  version : option jsstring;
  auth : option jsstring
}.

Definition BotId := nat.

(** The fields of [this] that the session and the tools read or write. *)
Record Session := mkSession {
  bot : option BotId;
  mcData : option jsstring;
  chatLog : list LogEntry;
  connectionState : ConnState;
  connectArgs : option ConnectArgs;
  lastDisconnectReason : option jsstring;
  reconnectAttempt : Z;
  maxReconnectAttempts : Z;
  baseReconnectDelay : Z
}.

(** [constructor()] *)
Definition constructor : Session :=
  {| bot := None;
     mcData := None;
     chatLog := [];
     connectionState := disconnected;
     connectArgs := None;
     lastDisconnectReason := None;
     reconnectAttempt := 0;
     maxReconnectAttempts := 10;
     baseReconnectDelay := 2000 |}.

Definition set_bot (b : option BotId) (s : Session) : Session :=
  mkSession b (mcData s) (chatLog s) (connectionState s) (connectArgs s)
    (lastDisconnectReason s) (reconnectAttempt s) (maxReconnectAttempts s)
    (baseReconnectDelay s).

Definition set_mcData (d : option jsstring) (s : Session) : Session :=
  mkSession (bot s) d (chatLog s) (connectionState s) (connectArgs s)
    (lastDisconnectReason s) (reconnectAttempt s) (maxReconnectAttempts s)
    (baseReconnectDelay s).

Definition set_chatLog (l : list LogEntry) (s : Session) : Session :=
  mkSession (bot s) (mcData s) l (connectionState s) (connectArgs s)
    (lastDisconnectReason s) (reconnectAttempt s) (maxReconnectAttempts s)
    (baseReconnectDelay s).

Definition set_connectionState (st : ConnState) (s : Session) : Session :=
  mkSession (bot s) (mcData s) (chatLog s) st (connectArgs s)
    (lastDisconnectReason s) (reconnectAttempt s) (maxReconnectAttempts s)
    (baseReconnectDelay s).

Definition set_connectArgs (a : option ConnectArgs) (s : Session) : Session :=
  mkSession (bot s) (mcData s) (chatLog s) (connectionState s) a
    (lastDisconnectReason s) (reconnectAttempt s) (maxReconnectAttempts s)
    (baseReconnectDelay s).

Definition set_lastDisconnectReason (r : option jsstring) (s : Session)
  : Session :=
  mkSession (bot s) (mcData s) (chatLog s) (connectionState s) (connectArgs s)
    r (reconnectAttempt s) (maxReconnectAttempts s) (baseReconnectDelay s).

Definition set_reconnectAttempt (n : Z) (s : Session) : Session :=
  mkSession (bot s) (mcData s) (chatLog s) (connectionState s) (connectArgs s)
    (lastDisconnectReason s) n (maxReconnectAttempts s) (baseReconnectDelay s).

(** [requireBot()]: [Some msg] when it throws [new Error(msg)]. *)
Definition requireBot (s : Session) : option jsstring :=
  match bot s with
  | Some _ => None
  | None =>
      match connectionState s with
      | reconnecting =>
          Some (js "Reconnecting (attempt " ++ showZ (reconnectAttempt s)
                ++ js "/" ++ showZ (maxReconnectAttempts s)
                ++ js "). Please wait and try again.")
      | connecting =>
          Some (js "Connection in progress. Please wait and try again.")
      | _ =>
          Some ((match lastDisconnectReason s with
                 | Some r => if nonEmpty r then r else js "Not connected"
                 | None => js "Not connected"
                 end)
                ++ js ". Auto-reconnect will retry if credentials are stored.")
      end
  end.

End Session.

Import Session.

(* ===================================================================== *)
(** ** utils/claims.js: the claim lookup *)
(* ===================================================================== *)

Module Claims.

Record ClaimInfo := mkClaimInfo {
  claimed : bool;
  owner : option jsstring;
  builders : list jsstring;
  containers : list jsstring;
  accessors : list jsstring;
  managers : list jsstring;
  raw_messages : list jsstring;
  command_error : bool   (* the property is absent until it is set to true *)
}.

Definition emptyClaimInfo : ClaimInfo :=
  {| claimed := false; owner := None; builders := []; containers := [];
     accessors := []; managers := []; raw_messages := [];
     command_error := false |}.

Definition isOo (c : N) : bool := (N.eqb c 79 || N.eqb c 111)%N.

Definition capNonEmpty (g : jsstring) (_ : jsstring) : option jsstring :=
  if nonEmpty g then Some g else None.

(** [text.match(/[Oo]wner:\s*(\S+)/)], as its group. *)
Definition match_owner (text : jsstring) : option jsstring :=
  search (one isOo (lit (js "wner:") (star isSpace
            (starCap notSpace [] capNonEmpty)))) text.

(** [text.match(/Key:\s*(.+)/)], as its group, for the literal [key]
    (the key with its colon). *)
Definition match_list (key : jsstring) (text : jsstring) : option jsstring :=
  search (lit key (star isSpace (starCap notLT [] capNonEmpty))) text.

(** [match[1].split(',').map(s => s.trim()).filter(s => s)] *)
Definition names (group : jsstring) : list jsstring :=
  List.filter nonEmpty (List.map trim (split_comma group)).

(** The listener [onMessage] of [checkClaimStatus], on the text of one
    message. *)
Definition onMessage (c : ClaimInfo) (text : jsstring) : ClaimInfo :=
  let raw := raw_messages c ++ [text] in
  if includes (js "No claim exists") text || includes (js "Wilderness") text
  then mkClaimInfo false (owner c) (builders c) (containers c) (accessors c)
         (managers c) raw (command_error c)
  else if includes (js "owner:") text || includes (js "Owner:") text
  then mkClaimInfo true
         (match match_owner text with Some o => Some o | None => owner c end)
         (builders c) (containers c) (accessors c) (managers c) raw
         (command_error c)
  else if includes (js "Managers:") text
  then mkClaimInfo true (owner c) (builders c) (containers c) (accessors c)
         (match match_list (js "Managers:") text with
          | Some g => names g | None => managers c end)
         raw (command_error c)
  else if includes (js "Builders:") text
  then mkClaimInfo true (owner c)
         (match match_list (js "Builders:") text with
          | Some g => names g | None => builders c end)
         (containers c) (accessors c) (managers c) raw (command_error c)
  else if includes (js "Containers:") text
  then mkClaimInfo true (owner c) (builders c)
         (match match_list (js "Containers:") text with
          | Some g => names g | None => containers c end)
         (accessors c) (managers c) raw (command_error c)
  else if includes (js "Accessors:") text
  then mkClaimInfo true (owner c) (builders c) (containers c)
         (match match_list (js "Accessors:") text with
          | Some g => names g | None => accessors c end)
         (managers c) raw (command_error c)
  else if includes (js "That command is not recognized") text
  then mkClaimInfo (claimed c) (owner c) (builders c) (containers c)
         (accessors c) (managers c) raw true
  else mkClaimInfo (claimed c) (owner c) (builders c) (containers c)
         (accessors c) (managers c) raw (command_error c).

(** The command [checkClaimStatus] sends with [bot.chat]. *)
Definition trustlist : jsstring := js "/trustlist".

(** [checkClaimStatus(bot)]: the listener is attached, [/trustlist] is sent,
    and after 1500 ms the listener is removed and the promise resolves.
    [window] is the texts of the [message] events the bot emits in between,
    in order; the result is what the promise resolves to. *)
Definition checkClaimStatus (window : list jsstring) : ClaimInfo :=
  List.fold_left onMessage window emptyClaimInfo.

End Claims.

(* ===================================================================== *)
(** ** tools/building.js and tools/signs.js: protected actions *)
(* ===================================================================== *)

Module Actions.

Import Claims.

Record Vec3 := mkVec3 { vx : Z; vy : Z; vz : Z }.

Definition plus (a b : Vec3) : Vec3 :=
  mkVec3 (vx a + vx b) (vy a + vy b) (vz a + vz b).

(** The front and back lines [parseSignText] returns. *)
Record SignText := mkSignText { front : list jsstring; back : list jsstring }.

(** What the tools read of a block; [signText] is [parseSignText] of its
    block entity, [None] when it has none. *)
Record Block := mkBlock {
  name : jsstring;
  boundingBox : jsstring;
  position : Vec3;
  signText : option SignText
}.

Record Item := mkItem { itemName : jsstring; itemCount : Z; itemSlot : Z }.

(** What a tool does to the bot, in order. *)
Inductive Effect :=
| EEquip (item : jsstring) (destination : jsstring)
| EPlaceBlock (reference : Vec3) (faceVector : Vec3)
| EDig (target : Vec3)
| EUpdateSign (location : Vec3) (isFrontText : bool) (lines : list jsstring)
| EChat (message : jsstring).

(** The test of the [onMessage] listeners of [placeBlock] and [breakBlock]. *)
Definition isDenial (raw : jsstring) : bool :=
  let msgText := toLowerCase raw in
  (includes (js "don't have") msgText && includes (js "permission") msgText)
  || includes (js "belongs to") msgText
  || includes (js "claimed by") msgText
  || (includes (js "claim") msgText
      && (includes (js "can't") msgText || includes (js "cannot") msgText))
  || includes (js "not allowed") msgText
  || includes (js "that belongs to") msgText.

(** [onMessage(jsonMsg)]: [denialMessages.push(jsonMsg.toString())] when the
    test holds. *)
Definition onMessage (denialMessages : list jsstring) (raw : jsstring)
  : list jsstring :=
  if isDenial raw then denialMessages ++ [raw] else denialMessages.

(** The messages a listener collects while it is attached. *)
Definition capture (window : list jsstring) : list jsstring :=
  List.fold_left onMessage window [].

Definition coords (p : Vec3) : jsstring :=
  showZ (vx p) ++ js ", " ++ showZ (vy p) ++ js ", " ++ showZ (vz p).

Definition posJson (p : Vec3) : Json :=
  JObj [("x"%string, JNum (vx p)); ("y"%string, JNum (vy p));
        ("z"%string, JNum (vz p))].

(** Truthiness of [claimInfo.owner]: neither [null] nor the empty string. *)
Definition ownerTruthy (c : ClaimInfo) : bool :=
  match owner c with Some o => nonEmpty o | None => false end.

(** [claimInfo.owner ? ` (owned by ${claimInfo.owner})` : ''] *)
Definition ownerInfo (c : ClaimInfo) : jsstring :=
  if ownerTruthy c
  then js " (owned by " ++ match owner c with Some o => o | None => [] end
       ++ js ")"
  else [].

(** [faceMap[face]]: offset of the reference block and face vector.  Exact
    for every [face] that is not the name of a property objects inherit
    ([constructor], [toString], ...): for those the lookup is truthy and
    the call ends in the TypeError of reading [offset] instead of the
    "Invalid face" error, in both cases before [bot.placeBlock]. *)
Definition faceMap (face : jsstring) : option (Vec3 * Vec3) :=
  if Js.eqb face (js "top") then Some (mkVec3 0 (-1) 0, mkVec3 0 1 0)
  else if Js.eqb face (js "bottom") then Some (mkVec3 0 1 0, mkVec3 0 (-1) 0)
  else if Js.eqb face (js "north") then Some (mkVec3 0 0 1, mkVec3 0 0 (-1))
  else if Js.eqb face (js "south") then Some (mkVec3 0 0 (-1), mkVec3 0 0 1)
  else if Js.eqb face (js "east") then Some (mkVec3 (-1) 0 0, mkVec3 1 0 0)
  else if Js.eqb face (js "west") then Some (mkVec3 1 0 0, mkVec3 (-1) 0 0)
  else None.

Definition directions : list jsstring :=
  [js "top"; js "bottom"; js "north"; js "south"; js "east"; js "west"].

Definition isSolid (b : option Block) : bool :=
  match b with
  | Some blk => Js.eqb (boundingBox blk) (js "block")
  | None => false
  end.

(** The loop of [placeBlock] over [directions]. *)
Fixpoint findReference (blockAt : Vec3 -> option Block) (targetPos : Vec3)
    (dirs : list jsstring) : option (Block * Vec3) :=
  match dirs with
  | [] => None
  | dir :: rest =>
      match faceMap dir with
      | Some (offset, faceVec) =>
          match blockAt (plus targetPos offset) with
          | Some blk =>
              if Js.eqb (boundingBox blk) (js "block")
              then Some (blk, faceVec)
              else findReference blockAt targetPos rest
          | None => findReference blockAt targetPos rest
          end
      | None => findReference blockAt targetPos rest
      end
  end.

(** The choice of the reference block and face vector of [placeBlock]:
    the block and vector, or the message of the error returned. *)
Definition referenceOf (blockAt : Vec3 -> option Block) (targetPos : Vec3)
    (face : jsstring) : (Block * Vec3) + jsstring :=
  if Js.eqb face (js "auto")
  then match findReference blockAt targetPos directions with
       | Some r => inl r
       | None => inr (js "No adjacent solid block found to place against at "
                      ++ coords targetPos)
       end
  else match faceMap face with
       | None => inr (js "Invalid face: " ++ face
                      ++ js ". Use: top, bottom, north, south, east, west, or auto")
       | Some (offset, faceVec) =>
           match blockAt (plus targetPos offset) with
           | Some blk =>
               if Js.eqb (boundingBox blk) (js "block")
               then inl (blk, faceVec)
               else inr (js "No solid block found at " ++ face
                         ++ js " direction to place against")
           | None => inr (js "No solid block found at " ++ face
                          ++ js " direction to place against")
           end
       end.

(** [!placedBlock || placedBlock.name === 'air'] *)
Definition placeUnchanged (placedBlock : option Block) : bool :=
  match placedBlock with
  | None => true
  | Some b => Js.eqb (name b) (js "air")
  end.

(** What the bot and the server answer during one [placeBlock] call. *)
Record PlaceEnv := mkPlaceEnv {
  pe_items : list Item;                 (* bot.inventory.items() *)
  pe_equip : option jsstring;           (* bot.equip throws err.message *)
  pe_blockAt : Vec3 -> option Block;    (* bot.blockAt before the action *)
  pe_place : option jsstring;           (* bot.placeBlock throws err.message *)
  pe_window : list jsstring;            (* messages while onMessage is attached *)
  pe_after : option Block;              (* bot.blockAt(targetPos) afterwards *)
  pe_lookup : list jsstring             (* messages during the claim lookup *)
}.

(** [placeBlock({ block_name, x, y, z, face = 'auto' })], with the catch of
    [callTool] around [requireBot]. *)
Definition placeBlock (s : Session) (env : PlaceEnv) (block_name : jsstring)
    (targetPos : Vec3) (face : jsstring) : ToolResult * list Effect :=
  match requireBot s with
  | Some msg => (error msg, [])
  | None =>
  match List.find (fun i => Js.eqb (itemName i) block_name) (pe_items env) with
  | None =>
      (error (js "Block " ++ [34%N] ++ block_name ++ [34%N]
              ++ js " not found in inventory"), [])
  | Some blockItem =>
  let e1 := [EEquip (itemName blockItem) (js "hand")] in
  match pe_equip env with
  | Some err =>
      (error (js "Failed to equip " ++ block_name ++ js ": " ++ err), e1)
  | None =>
  if isSolid (pe_blockAt env targetPos) then
    (error (js "Cannot place block at " ++ coords targetPos
            ++ js " - position is occupied by "
            ++ match pe_blockAt env targetPos with
               | Some b => name b | None => [] end), e1)
  else
  let reference := referenceOf (pe_blockAt env) targetPos face in
  match reference with
  | inr msg => (error msg, e1)
  | inl (referenceBlock, faceVector) =>
  let e2 := e1 ++ [EPlaceBlock (position referenceBlock) faceVector] in
  match pe_place env with
  | Some err => (error (js "Failed to place block: " ++ err), e2)
  | None =>
  let denialMessages := capture (pe_window env) in
  if placeUnchanged (pe_after env) then
    match denialMessages with
    | first :: _ =>
        let claimInfo := checkClaimStatus (pe_lookup env) in
        (error (js "Cannot place " ++ block_name ++ js " at "
                ++ coords targetPos ++ js " - protected by claim"
                ++ ownerInfo claimInfo ++ js ". Message: " ++ first),
         e2 ++ [EChat trustlist])
    | [] =>
        (error (js "Block placement failed - target position is empty"), e2)
    end
  else
    (json (JObj [("success"%string, JBool true);
                 ("block_placed"%string,
                  JStr match pe_after env with
                       | Some b => name b | None => [] end);
                 ("position"%string, posJson targetPos);
                 ("placed_against"%string,
                  JObj [("block"%string, JStr (name referenceBlock));
                        ("position"%string,
                         posJson (position referenceBlock))])]),
     e2)
  end end end end end.

(** *** break_block *)

Definition toolTypes : list (jsstring * list jsstring) :=
  [(js "pickaxe",
    List.map js ["stone"; "cobblestone"; "ore"; "iron_block"; "gold_block";
      "diamond_block"; "netherite_block"; "obsidian"; "brick"; "concrete";
      "terracotta"; "prismarine"; "purpur"; "quartz"; "sandstone";
      "end_stone"; "basalt"; "blackstone"; "deepslate"; "copper"; "amethyst";
      "calcite"; "dripstone"; "pointed_dripstone"; "ice"; "packed_ice";
      "blue_ice"; "lantern"; "chain"; "iron_bars"; "iron_door";
      "iron_trapdoor"; "anvil"; "enchanting_table"; "ender_chest"; "furnace";
      "blast_furnace"; "smoker"; "stonecutter"; "grindstone"; "lodestone";
      "hopper"; "cauldron"; "brewing_stand"; "bell"; "conduit"; "spawner";
      "nether_brick"; "rail"; "powered_rail"; "detector_rail";
      "activator_rail"]%string);
   (js "axe",
    List.map js ["wood"; "log"; "planks"; "fence"; "door"; "sign"; "chest";
      "barrel"; "crafting_table"; "bookshelf"; "lectern"; "composter";
      "ladder"; "scaffolding"; "campfire"; "beehive"; "bee_nest"; "bamboo";
      "pumpkin"; "melon"; "jack_o_lantern"; "mushroom_block"; "cocoa";
      "jukebox"; "note_block"; "banner"; "loom"; "cartography_table";
      "fletching_table"; "smithing_table"; "bed"]%string);
   (js "shovel",
    List.map js ["dirt"; "grass"; "sand"; "gravel"; "clay"; "soul_sand";
      "soul_soil"; "mycelium"; "podzol"; "farmland"; "coarse_dirt";
      "rooted_dirt"; "mud"; "snow"; "snow_block"; "powder_snow";
      "concrete_powder"]%string);
   (js "hoe",
    List.map js ["hay_block"; "target"; "dried_kelp_block"; "sponge";
      "wet_sponge"; "leaves"; "sculk"; "sculk_catalyst"; "sculk_sensor";
      "sculk_shrieker"; "sculk_vein"; "moss_block"; "moss_carpet";
      "nether_wart_block"; "warped_wart_block"; "shroomlight"]%string);
   (js "shears",
    List.map js ["wool"; "cobweb"; "leaves"; "vine"; "glow_lichen"]%string)].

Definition materialRank : list jsstring :=
  List.map js ["netherite"; "diamond"; "iron"; "golden"; "stone";
               "wooden"]%string.

(** [i < bestRank], [bestRank] starting at [Infinity] ([None]). *)
Definition belowRank (i : nat) (bestRank : option nat) : bool :=
  match bestRank with None => true | Some r => (i <? r)%nat end.

(** The inner loop over [materialRank], from index [i]. *)
Fixpoint rankOf (ranks : list jsstring) (i : nat) (bestRank : option nat)
    (itemName : jsstring) : option nat :=
  match ranks with
  | [] => None
  | r :: rest =>
      if includes r itemName && belowRank i bestRank then Some i
      else rankOf rest (S i) bestRank itemName
  end.

(** [findBestTool(block)] *)
Definition findBestTool (items : list Item) (block : Block) : option Item :=
  match items with
  | [] => None
  | _ =>
      match List.find
              (fun tt => List.existsb (fun pattern => includes pattern (name block))
                           (snd tt))
              toolTypes with
      | None => None
      | Some (bestToolType, _) =>
          fst (List.fold_left
                 (fun (acc : option Item * option nat) item =>
                    if negb (includes bestToolType (itemName item)) then acc
                    else match rankOf materialRank 0 (snd acc) (itemName item) with
                         | Some i => (Some item, Some i)
                         | None => acc
                         end)
                 items (None, None))
      end
  end.

Record BreakEnv := mkBreakEnv {
  be_block : option Block;          (* bot.blockAt(targetPos) before *)
  be_canDig : bool;                 (* bot.canDigBlock(block) *)
  be_items : list Item;             (* bot.inventory.items() *)
  be_equip : option jsstring;       (* bot.equip throws *)
  be_digTime : Z;                   (* bot.digTime(block) *)
  be_dig : option jsstring;         (* bot.dig throws err.message *)
  be_window : list jsstring;        (* messages while onMessage is attached *)
  be_after : option Block;          (* bot.blockAt(targetPos) afterwards *)
  be_lookup : list jsstring         (* messages during the claim lookup *)
}.

Definition isAirName (n : jsstring) : bool :=
  Js.eqb n (js "air") || Js.eqb n (js "cave_air") || Js.eqb n (js "void_air").

(** [!afterBlock || afterBlock.name === 'air' || afterBlock.name !== block.name] *)
Definition breakSuccess (block : Block) (afterBlock : option Block) : bool :=
  match afterBlock with
  | None => true
  | Some a => Js.eqb (name a) (js "air") || negb (Js.eqb (name a) (name block))
  end.

(** [breakBlock({ x, y, z, equip_best_tool = true })] *)
Definition breakBlock (s : Session) (env : BreakEnv) (targetPos : Vec3)
    (equip_best_tool : bool) : ToolResult * list Effect :=
  match requireBot s with
  | Some msg => (error msg, [])
  | None =>
  match be_block env with
  | None => (error (js "No block found at " ++ coords targetPos), [])
  | Some block =>
  if isAirName (name block) then
    (error (js "No block to break at " ++ coords targetPos ++ js " (found: "
            ++ name block ++ js ")"), [])
  else if negb (be_canDig env) then
    (error (js "Cannot break " ++ name block ++ js " at " ++ coords targetPos
            ++ js " - block is unbreakable or out of reach"), [])
  else
  let bestTool :=
    if equip_best_tool then findBestTool (be_items env) block else None in
  let e1 :=
    match bestTool with
    | Some t => [EEquip (itemName t) (js "hand")]
    | None => []
    end in
  let toolUsed :=
    match bestTool, be_equip env with
    | Some t, None => Some (itemName t)
    | _, _ => None
    end in
  let e2 := e1 ++ [EDig targetPos] in
  match be_dig env with
  | Some err =>
      (error (js "Failed to break " ++ name block ++ js ": " ++ err), e2)
  | None =>
  let denialMessages := capture (be_window env) in
  if negb (breakSuccess block (be_after env)) then
    match denialMessages with
    | first :: _ =>
        let claimInfo := checkClaimStatus (be_lookup env) in
        (error (js "Cannot break " ++ name block ++ js " at "
                ++ coords targetPos ++ js " - protected by claim"
                ++ ownerInfo claimInfo ++ js ". Message: " ++ first),
         e2 ++ [EChat trustlist])
    | [] =>
        (error (js "Failed to break " ++ name block ++ js " at "
                ++ coords targetPos
                ++ js " - block was not removed (unknown reason)"), e2)
    end
  else
    (json (JObj [("success"%string, JBool true);
                 ("block_broken"%string, JStr (name block));
                 ("position"%string, posJson targetPos);
                 ("tool_used"%string,
                  match toolUsed with Some t => JStr t | None => JNull end);
                 ("dig_time_ms"%string, JNum (be_digTime env))]),
     e2)
  end end end.

(** *** edit_sign *)

(** [[...lines]], padded with [''] and cut to four entries. *)
Definition pad4 (lines : list jsstring) : list jsstring :=
  List.firstn 4 (lines ++ [[]; []; []; []]).

Fixpoint lines_eqb (a b : list jsstring) : bool :=
  match a, b with
  | [], [] => true
  | x :: a', y :: b' => Js.eqb x y && lines_eqb a' b'
  | _, _ => false
  end.

(** [JSON.stringify(originalText) === JSON.stringify(verifiedText)]: both
    are objects with the keys [front] and [back], in that order, holding
    arrays of strings. *)
Definition signText_eqb (a b : SignText) : bool :=
  lines_eqb (front a) (front b) && lines_eqb (back a) (back b).

Record EditEnv := mkEditEnv {
  ee_block : option Block;        (* bot.blockAt before *)
  ee_write : option jsstring;     (* the first _client.write throws *)
  ee_window : list jsstring;      (* messages while onMessage is attached *)
  ee_after : option Block;        (* bot.blockAt afterwards *)
  ee_lookup : list jsstring       (* messages during the claim lookup *)
}.

Definition linesJson (l : list jsstring) : Json :=
  JArr (List.map JStr (List.filter nonEmpty l)).

(** [editSign({ x, y, z, lines = [], back_lines = [], side = 'front' })] *)
Definition editSign (s : Session) (env : EditEnv) (pos : Vec3)
    (lines back_lines : list jsstring) (side : jsstring)
  : ToolResult * list Effect :=
  match requireBot s with
  | Some msg => (error msg, [])
  | None =>
  match ee_block env with
  | None => (error (js "No block found at " ++ coords pos), [])
  | Some block =>
  if negb (includes (js "sign") (name block)) then
    (error (js "Block at " ++ coords pos ++ js " is not a sign (found: "
            ++ name block ++ js ")"), [])
  else
  let originalText := signText block in
  let frontLines := pad4 lines in
  let backLines := pad4 back_lines in
  let doFront := Js.eqb side (js "front") || Js.eqb side (js "both") in
  let doBack := Js.eqb side (js "back") || Js.eqb side (js "both") in
  match ee_write env with
  | Some err => (error (js "Failed to update sign text: " ++ err), [])
  | None =>
  let e1 := (if doFront then [EUpdateSign pos true frontLines] else [])
            ++ (if doBack then [EUpdateSign pos false backLines] else []) in
  let denialMessages := capture (ee_window env) in
  let verifiedText :=
    match ee_after env with
    | Some verifyBlock => signText verifyBlock
    | None => None
    end in
  let textUnchanged :=
    match originalText, verifiedText with
    | Some o, Some v => signText_eqb o v
    | _, _ => false
    end in
  let success :=
    json (JObj ([("success"%string, JBool true);
                 ("position"%string, posJson pos);
                 ("side_edited"%string, JStr side);
                 ("text_sent"%string,
                  JObj ((if doFront
                         then [("front"%string, linesJson frontLines)]
                         else [])
                        ++ (if doBack
                            then [("back"%string, linesJson backLines)]
                            else [])));
                 ("text_verified"%string,
                  match verifiedText with
                  | Some v => JObj [("front"%string,
                                     JArr (List.map JStr (front v)));
                                    ("back"%string,
                                     JArr (List.map JStr (back v)))]
                  | None => JNull
                  end)])) in
  if textUnchanged && negb (Nat.eqb (List.length lines) 0) then
    let claimInfo := checkClaimStatus (ee_lookup env) in
    match denialMessages with
    | first :: _ =>
        (error (js "Cannot edit sign at " ++ coords pos
                ++ js " - protected by claim" ++ ownerInfo claimInfo
                ++ js ". Message: " ++ first),
         e1 ++ [EChat trustlist])
    | [] =>
        (* Check claim status anyway since server may not send denial
           message for sign edits *)
        if claimed claimInfo && ownerTruthy claimInfo then
          (error (js "Cannot edit sign at " ++ coords pos
                  ++ js " - sign is in a claim owned by "
                  ++ match owner claimInfo with Some o => o | None => [] end
                  ++ js " and you don't have permission"),
           e1 ++ [EChat trustlist])
        else (success, e1 ++ [EChat trustlist])
    end
  else (success, e1)
  end end end.

End Actions.

Import Actions.

(* ===================================================================== *)
(** ** tools/connection.js: connect, scheduleReconnect, disconnect *)
(* ===================================================================== *)

Module Connection.

(** One call of [connect] that reached its [new Promise]: the variables of
    that closure and the life of the bot it created.  The bot created by
    attempt number [a] is bot number [a]. *)
Record Attempt := mkAttempt {
  a_args : ConnectArgs;          (* host, port, username, version, auth *)
  a_resolved : bool;             (* [resolved] *)
  a_created : bool;              (* createBot returned, listeners attached *)
  a_spawned : bool;              (* the [once('spawn')] listener has run *)
  a_ended : bool;                (* the bot has emitted [end] *)
  a_msaCode : bool;              (* [msaCodeInfo] has been set *)
  a_signPlacementTime : Z        (* [signPlacementTime] *)
}.

(** What a pending [setTimeout] callback will run. *)
Inductive TimerKind :=
| TCleanup (args : ConnectArgs) (isReconnect : bool)
    (* the 500 ms wait of [connect] after quitting the old bot; on expiry
       the call goes on to its [new Promise] *)
| TTimeout (a : nat)             (* the 30 s timeout of attempt [a] *)
| TReconnect.                    (* the callback of [scheduleReconnect] *)

Record Timer := mkTimer { t_id : nat; t_due : Z; t_kind : TimerKind }.

(** The object [opts] handed to [mineflayer.createBot]; a property that is
    not set is [None], and [o_onMsaCode] says whether the callback
    [onMsaCode] is set. *)
Record BotOptions := mkOptions {
  o_host : jsstring;
  o_port : Z;
  o_username : jsstring;
  o_version : option jsstring;
  o_auth : option jsstring;
  o_authFlow : option jsstring;
  o_onMsaCode : bool
}.

(** What becomes visible outside the session object. *)
Inductive Output :=
| OReturn (r : ToolResult)                 (* a call returned [r] *)
| OResolve (a : nat) (r : ToolResult)      (* [resolve(r)] of attempt [a] *)
| OReject (a : nat) (message : jsstring)   (* [reject(new Error(message))] *)
| OQuit (b : BotId)                        (* [bot.quit()] *)
| OCreateBot (b : BotId) (opts : BotOptions).
    (* [mineflayer.createBot(opts)] returned bot [b] *)

Record World := mkWorld {
  session : Session;
  attempts : list Attempt;
  timers : list Timer;
  nextTimer : nat;
  outputs : list Output;
  clock : Z
}.

Definition initial : World :=
  {| session := constructor; attempts := []; timers := []; nextTimer := O;
     outputs := []; clock := 0 |}.

Definition with_session (f : Session -> Session) (w : World) : World :=
  mkWorld (f (session w)) (attempts w) (timers w) (nextTimer w) (outputs w)
    (clock w).

Definition with_attempts (l : list Attempt) (w : World) : World :=
  mkWorld (session w) l (timers w) (nextTimer w) (outputs w) (clock w).

Definition emit (o : Output) (w : World) : World :=
  mkWorld (session w) (attempts w) (timers w) (nextTimer w) (outputs w ++ [o])
    (clock w).

(** [setTimeout(callback, delay)] at time [now]. *)
Definition setTimeout (now : Z) (k : TimerKind) (delay : Z) (w : World)
  : World :=
  mkWorld (session w) (attempts w)
    (timers w ++ [mkTimer (nextTimer w) (now + delay) k])
    (S (nextTimer w)) (outputs w) (clock w).

Definition set_clock (now : Z) (w : World) : World :=
  mkWorld (session w) (attempts w) (timers w) (nextTimer w) (outputs w) now.

Fixpoint update_nth {A} (n : nat) (f : A -> A) (l : list A) : list A :=
  match l, n with
  | [], _ => []
  | x :: l', O => f x :: l'
  | x :: l', S n' => x :: update_nth n' f l'
  end.

Definition with_attempt (a : nat) (f : Attempt -> Attempt) (w : World)
  : World :=
  with_attempts (update_nth a f (attempts w)) w.

Definition set_resolved (x : Attempt) : Attempt :=
  mkAttempt (a_args x) true (a_created x) (a_spawned x) (a_ended x)
    (a_msaCode x) (a_signPlacementTime x).

Definition set_spawned (x : Attempt) : Attempt :=
  mkAttempt (a_args x) (a_resolved x) (a_created x) true (a_ended x)
    (a_msaCode x) (a_signPlacementTime x).

Definition set_ended (x : Attempt) : Attempt :=
  mkAttempt (a_args x) (a_resolved x) (a_created x) (a_spawned x) true
    (a_msaCode x) (a_signPlacementTime x).

Definition set_msaCode (x : Attempt) : Attempt :=
  mkAttempt (a_args x) (a_resolved x) (a_created x) (a_spawned x) (a_ended x)
    true (a_signPlacementTime x).

Definition set_signPlacementTime (t : Z) (x : Attempt) : Attempt :=
  mkAttempt (a_args x) (a_resolved x) (a_created x) (a_spawned x) (a_ended x)
    (a_msaCode x) t.

(** The defaults of the parameter [{ host = 'localhost', port = 25565,
    username, version, auth }]. *)
Definition withDefaults (args : ConnectArgs) : ConnectArgs :=
  mkArgs (Some match host args with Some h => h | None => js "localhost" end)
         (Some match port args with Some p => p | None => 25565 end)
         (username args) (version args) (auth args).

Definition hostOf (args : ConnectArgs) : jsstring :=
  match host args with Some h => h | None => js "localhost" end.

Definition portOf (args : ConnectArgs) : Z :=
  match port args with Some p => p | None => 25565 end.

Definition resolvedOf (a : nat) (w : World) : bool :=
  match List.nth_error (attempts w) a with
  | Some x => a_resolved x
  | None => true
  end.

(** [auth === 'microsoft'] *)
Definition isMicrosoft (args : ConnectArgs) : bool :=
  match auth args with
  | Some a => Js.eqb a (js "microsoft")
  | None => false
  end.

(** [const opts = { host, port, username }], then [version] when it is
    truthy, and [auth], [authFlow] and [onMsaCode] when [auth] is
    ['microsoft']. *)
Definition optsOf (args : ConnectArgs) : BotOptions :=
  {| o_host := hostOf args;
     o_port := portOf args;
     o_username := username args;
     o_version := match version args with
                  | Some v => if nonEmpty v then Some v else None
                  | None => None
                  end;
     o_auth := if isMicrosoft args then Some (js "microsoft") else None;
     o_authFlow := if isMicrosoft args then Some (js "sisu") else None;
     o_onMsaCode := isMicrosoft args |}.

(** [finish(success, result)] of attempt [a]; [result] is the tool result
    on success and the message of the error otherwise. *)
Definition finish (a : nat) (success : bool) (result : ToolResult)
    (message : jsstring) (w : World) : World :=
  if resolvedOf a w then w
  else
    let w1 := with_attempt a set_resolved w in
    if success then emit (OResolve a result) w1
    else emit (OReject a message)
           (with_session (set_connectionState disconnected) w1).

(** The executor of the promise [connect] returns.  [createErr] is
    [Some err.message] when [mineflayer.createBot] throws. *)
Definition executor (now : Z) (args : ConnectArgs)
    (createErr : option jsstring) (w : World) : World :=
  let a := List.length (attempts w) in
  match createErr with
  | Some err =>
      finish a false (text []) (js "Failed to create bot: " ++ err)
        (with_attempts
           (attempts w ++ [mkAttempt args false false false false false 0]) w)
  | None =>
      setTimeout now (TTimeout a) 30000
        (emit (OCreateBot a (optsOf args))
           (with_session (set_bot (Some a))
              (with_attempts
                 (attempts w ++ [mkAttempt args false true false false false 0])
                 w)))
  end.

Definition busy (st : ConnState) : bool :=
  match st with connecting | reconnecting => true | _ => false end.

(** [connect({ host, port, username, version, auth }, isReconnect)] up to
    its first suspension. *)
Definition connect (now : Z) (rawArgs : ConnectArgs) (isReconnect : bool)
    (createErr : option jsstring) (w : World) : World :=
  let args := withDefaults rawArgs in
  (* Store credentials for auto-reconnect *)
  let w1 := if isReconnect then w
            else with_session (set_connectArgs (Some args)) w in
  (* If already connecting/reconnecting, don't start another connection *)
  if busy (connectionState (session w1)) then
    emit (OReturn (text (js "Already "
                         ++ stateName (connectionState (session w1))
                         ++ js ". Please wait."))) w1
  else
    let w2 := with_session
                (set_connectionState
                   (if isReconnect then reconnecting else connecting)) w1 in
    (* Clean up existing bot *)
    match bot (session w2) with
    | Some old =>
        setTimeout now (TCleanup args isReconnect) 500
          (with_session (set_bot None) (emit (OQuit old) w2))
    | None => executor now args createErr w2
    end.

(** [Math.min(this.baseReconnectDelay * Math.pow(2, this.reconnectAttempt - 1),
    60000)], [attempt] being the incremented counter.  The doubles involved
    are exact integers for the attempts a budget of 10 allows. *)
Definition reconnectDelay (base attempt : Z) : Z :=
  Z.min (base * 2 ^ (attempt - 1)) 60000.

(** [scheduleReconnect()] *)
Definition scheduleReconnect (now : Z) (w : World) : World :=
  let s := session w in
  if maxReconnectAttempts s <=? reconnectAttempt s then
    with_session (set_connectionState disconnected) w
  else
    let attempt := reconnectAttempt s + 1 in
    let delay := reconnectDelay (baseReconnectDelay s) attempt in
    setTimeout now TReconnect delay
      (with_session
         (fun s => set_connectionState reconnecting
                     (set_reconnectAttempt attempt s)) w).

(** [disconnect()] *)
Definition disconnect (w : World) : World :=
  let w1 := with_session
              (fun s => set_connectionState disconnected
                          (set_reconnectAttempt 0 (set_connectArgs None s))) w in
  match bot (session w1) with
  | Some b =>
      emit (OReturn (text (js "Disconnected. Auto-reconnect disabled.")))
        (with_session (fun s => set_mcData None (set_bot None s))
           (emit (OQuit b) w1))
  | None => emit (OReturn (text (js "Not connected"))) w1
  end.

(** *** The listeners [connect] attaches to the bot it creates *)

Definition attemptOf (b : BotId) (w : World) : option Attempt :=
  List.nth_error (attempts w) b.

(** The message of the [spawn] listener's result. *)
Definition connectedMsg (x : Attempt) (botUsername botVersion : jsstring)
  : jsstring :=
  js "Connected as " ++ [34%N] ++ botUsername ++ [34%N] ++ js " to "
  ++ hostOf (a_args x) ++ js ":" ++ showZ (portOf (a_args x))
  ++ js " (MC " ++ botVersion ++ js ")"
  ++ (if a_msaCode x
      then [10%N; 10%N]
           ++ js "Note: Microsoft auth was used. Token cached for future connections."
      else []).

(** [this.bot.once('spawn', ...)] of attempt [b].  [botUsername] and
    [botVersion] are what [this.bot.username] and [this.bot.version] read;
    with [this.bot] null the first read throws and the listener stops. *)
Definition on_spawn (b : BotId) (botUsername botVersion : jsstring)
    (w : World) : World :=
  match attemptOf b w with
  | None => w
  | Some x =>
      if a_spawned x then w
      else
        let w1 := with_attempt b set_spawned w in
        match bot (session w1) with
        | None => w1
        | Some _ =>
            finish b true (text (connectedMsg x botUsername botVersion)) []
              (with_session
                 (fun s => set_lastDisconnectReason None
                             (set_reconnectAttempt 0
                                (set_connectionState connected
                                   (set_mcData (Some botVersion) s)))) w1)
        end
  end.

(** [this.bot.on('chat', ...)] *)
Definition on_chat_event (now : Z) (user message : jsstring) (w : World)
  : World :=
  with_session (fun s => set_chatLog (on_chat now user message (chatLog s)) s)
    w.

(** [this.bot.on('message', ...)] of attempt [b] *)
Definition on_message_event (now : Z) (b : BotId) (msgText : jsstring)
    (position : Position) (w : World) : World :=
  match attemptOf b w with
  | None => w
  | Some x =>
      let r := on_message now msgText position (chatLog (session w))
                 (a_signPlacementTime x) in
      with_attempt b (set_signPlacementTime (snd r))
        (with_session (set_chatLog (fst r)) w)
  end.

(** [this.bot.on('error', ...)] *)
Definition on_error (b : BotId) (message : jsstring) (w : World) : World :=
  finish b false (text []) (js "Connection failed: " ++ message) w.

(** [this.bot.on('kicked', ...)] *)
Definition on_kicked (reason : jsstring) (w : World) : World :=
  with_session (set_lastDisconnectReason (Some (js "Kicked: " ++ reason))) w.

Definition hasCredentials (s : Session) : bool :=
  match connectArgs s with Some _ => true | None => false end.

(** [this.bot.on('end', ...)] of attempt [b] *)
Definition on_end (now : Z) (b : BotId) (w : World) : World :=
  let wasConnected := ConnState_eqb (connectionState (session w)) connected in
  let w1 := with_session (fun s => set_mcData None (set_bot None s))
              (with_attempt b set_ended w) in
  (* Only set to disconnected if not already resolved *)
  let w2 := if resolvedOf b w1 then w1
            else with_session (set_connectionState disconnected) w1 in
  (* Auto-reconnect if we were connected and have credentials *)
  if wasConnected && hasCredentials (session w2)
  then scheduleReconnect now w2
  else w2.

(** The callback of the 30 s [setTimeout] of attempt [a]. *)
Definition on_timeout (a : nat) (w : World) : World :=
  if negb (resolvedOf a w)
     && negb (ConnState_eqb (connectionState (session w)) connected)
  then
    let w1 := match bot (session w) with
              | Some cur => emit (OQuit cur) w
              | None => w
              end in
    finish a false (text []) (js "Connection timeout") w1
  else w.

(** The callback of the [setTimeout] of [scheduleReconnect]:
    [await this.connect(this.connectArgs, true)] inside [try]; with
    [this.connectArgs] null the call rejects and the [catch] only logs. *)
Definition on_reconnect_timer (now : Z) (createErr : option jsstring)
    (w : World) : World :=
  match connectArgs (session w) with
  | Some args => connect now args true createErr w
  | None => w
  end.

(** *** The event loop *)

Inductive Event :=
| CallConnect (args : ConnectArgs) (createErr : option jsstring)
    (* the [connect] tool *)
| CallDisconnect                    (* the [disconnect] tool *)
| Fire (id : nat) (createErr : option jsstring)   (* a timer expires *)
| BotMsaCode (b : BotId)
| BotSpawn (b : BotId) (botUsername botVersion : jsstring)
| BotChat (b : BotId) (user message : jsstring)
| BotMessage (b : BotId) (msgText : jsstring) (position : Position)
| BotError (b : BotId) (message : jsstring)
| BotKicked (b : BotId) (reason : jsstring)
| BotEnd (b : BotId) (reason : jsstring).

(** A bot emits events from its creation to its [end]. *)
Definition live (b : BotId) (w : World) : bool :=
  match attemptOf b w with
  | Some x => a_created x && negb (a_ended x)
  | None => false
  end.

Fixpoint take_timer (id : nat) (l : list Timer) : option (Timer * list Timer) :=
  match l with
  | [] => None
  | t :: l' =>
      if Nat.eqb (t_id t) id then Some (t, l')
      else match take_timer id l' with
           | Some (t', rest) => Some (t', t :: rest)
           | None => None
           end
  end.

Definition with_timers (l : list Timer) (w : World) : World :=
  mkWorld (session w) (attempts w) l (nextTimer w) (outputs w) (clock w).

Definition run_timer (now : Z) (k : TimerKind) (createErr : option jsstring)
    (w : World) : World :=
  match k with
  | TCleanup args _ => executor now args createErr w
  | TTimeout a => on_timeout a w
  | TReconnect => on_reconnect_timer now createErr w
  end.

Definition guard (c : bool) (w : World) : option World :=
  if c then Some w else None.

(** One turn of the event loop at time [now]; [None] when the event cannot
    happen (time running backwards, a timer that is not due, a bot that
    does not exist or has ended). *)
Definition step (now : Z) (e : Event) (w0 : World) : option World :=
  if now <? clock w0 then None
  else
    let w := set_clock now w0 in
    match e with
    | CallConnect args createErr => Some (connect now args false createErr w)
    | CallDisconnect => Some (disconnect w)
    | Fire id createErr =>
        match take_timer id (timers w) with
        | Some (t, rest) =>
            if t_due t <=? now
            then Some (run_timer now (t_kind t) createErr (with_timers rest w))
            else None
        | None => None
        end
    | BotMsaCode b => guard (live b w) (with_attempt b set_msaCode w)
    | BotSpawn b u v => guard (live b w) (on_spawn b u v w)
    | BotChat b user message =>
        guard (live b w) (on_chat_event now user message w)
    | BotMessage b msgText position =>
        guard (live b w) (on_message_event now b msgText position w)
    | BotError b message => guard (live b w) (on_error b message w)
    | BotKicked b reason => guard (live b w) (on_kicked reason w)
    | BotEnd b _ => guard (live b w) (on_end now b w)
    end.

(** A run: the worlds after each event, [None] when an event cannot
    happen. *)
Fixpoint run (evs : list (Z * Event)) (w : World) : option (list World) :=
  match evs with
  | [] => Some []
  | (now, e) :: rest =>
      match step now e w with
      | Some w' =>
          match run rest w' with
          | Some ws => Some (w' :: ws)
          | None => None
          end
      | None => None
      end
  end.

Definition stateOf (w : World) : ConnState := connectionState (session w).

End Connection.

(* ===================================================================== *)
(** ** tools/communication.js: get_chat_history *)
(* ===================================================================== *)

Module Communication.

Section ChatHistory.

(** [new Date(timestamp).toLocaleTimeString()]: the rendering depends on the
    locale and time zone of the host. *)
Variable toLocaleTimeString : Z -> jsstring.

(** [array.slice(start)] for an integer [start]: a negative [start] counts
    from the end, and both ends are clamped. *)
Definition slice {A} (start : Z) (l : list A) : list A :=
  let n := Z.of_nat (List.length l) in
  let k := if start <? 0 then Z.max (n + start) 0 else Z.min start n in
  List.skipn (Z.to_nat k) l.

(** The callback of [recent.map]. *)
Definition formatEntry (m : LogEntry) : jsstring :=
  match m with
  | LogSystem message _ timestamp =>
      js "[" ++ toLocaleTimeString timestamp ++ js "] [SYSTEM] " ++ message
  | LogChat user message timestamp =>
      js "[" ++ toLocaleTimeString timestamp ++ js "] <" ++ user ++ js "> "
      ++ message
  end.

(** [lines.join('\n')] *)
Fixpoint joinLines (lines : list jsstring) : jsstring :=
  match lines with
  | [] => []
  | [x] => x
  | x :: rest => x ++ [10%N] ++ joinLines rest
  end.

(** [this.chatLog.slice(-limit)], [limit] defaulting to 20. *)
Definition recent (limit : option Z) (chatLog : list LogEntry)
  : list LogEntry :=
  slice (- match limit with Some l => l | None => 20 end) chatLog.

(** [getChatHistory({ limit = 20 })] *)
Definition getChatHistory (limit : option Z) (chatLog : list LogEntry)
  : ToolResult :=
  match recent limit chatLog with
  | [] => text (js "No chat messages yet")
  | entries => text (joinLines (List.map formatEntry entries))
  end.

End ChatHistory.

End Communication.

(* ===================================================================== *)
(** ** utils/helpers.js, tools/animals.js, tools/mounts.js: entities *)
(* ===================================================================== *)

Module Entities.

(** What the tools read of an entity; a missing property is [None]. *)
Record Entity := mkEntity {
  name : option jsstring;
  mobType : option jsstring
}.

(** [s.replace(/_/g, '')] *)
Definition stripUnderscores (s : jsstring) : jsstring :=
  List.filter (fun c => negb (N.eqb c 95)) s.

(** [(x || '').toLowerCase().replace(/_/g, '')]; exact for strings of code
    units below 256, see [lowerUnit]. *)
Definition normalize (x : option jsstring) : jsstring :=
  stripUnderscores
    (toLowerCase match x with Some s => s | None => [] end).

(** [matchesEntityType(entity, targetType)] *)
Definition matchesEntityType (entity : Entity) (targetType : jsstring) : bool :=
  let target := stripUnderscores (toLowerCase targetType) in
  let name := normalize (name entity) in
  let mobType := normalize (mobType entity) in
  Js.eqb name target || Js.eqb mobType target
  || includes target name || includes name target.

(** The test of the [onMessage] listeners of [interactEntity] and
    [mountEntity]. *)
Definition isDenial (raw : jsstring) : bool :=
  let msgText := toLowerCase raw in
  (includes (js "don't have") msgText && includes (js "permission") msgText)
  || includes (js "belongs to") msgText
  || includes (js "claimed by") msgText
  || (includes (js "claim") msgText
      && (includes (js "can't") msgText || includes (js "cannot") msgText))
  || includes (js "not allowed") msgText.

End Entities.

(* ===================================================================== *)
(** ** tools/crafting.js: getMaxCraftable *)
(* ===================================================================== *)

Module Crafting.

(** An entry of [recipe.ingredients] or of a row of [recipe.inShape]:
    [null], an item id, or an object with an [id]. *)
Inductive Ingredient :=
| ingNull
| ingNumber (id : Z)
| ingObject (id : Z).

Record Recipe := mkRecipe {
  ingredients : option (list Ingredient);
  inShape : option (list (option (list Ingredient)))
}.

(** What [getMaxCraftable] reads of an inventory item. *)
Record Stack := mkStack { stackType : Z; stackCount : Z }.

(** An object used as a map from item ids to numbers. *)
Definition Counts := list (Z * Z).

(** [m[k] || 0] *)
Fixpoint lookup (k : Z) (m : Counts) : Z :=
  match m with
  | [] => 0
  | (k', v) :: m' => if k' =? k then v else lookup k m'
  end.

(** [m[k] = (m[k] || 0) + n] *)
Fixpoint bump (k n : Z) (m : Counts) : Counts :=
  match m with
  | [] => [(k, n)]
  | (k', v) :: m' =>
      if k' =? k then (k', v + n) :: m' else (k', v) :: bump k n m'
  end.

(** [if (ing)] and [typeof ing === 'number' ? ing : ing.id]: [null] and the
    number 0 are skipped. *)
Definition ingredientId (ing : Ingredient) : option Z :=
  match ing with
  | ingNull => None
  | ingNumber id => if id =? 0 then None else Some id
  | ingObject id => Some id
  end.

Fixpoint idsOf (ings : list Ingredient) : list Z :=
  match ings with
  | [] => []
  | ing :: rest =>
      match ingredientId ing with
      | Some id => id :: idsOf rest
      | None => idsOf rest
      end
  end.

(** The ids the two loops over the recipe visit, in order. *)
Definition requiredIds (recipe : Recipe) : list Z :=
  match ingredients recipe with
  | Some ings => idsOf ings
  | None =>
      match inShape recipe with
      | Some rows =>
          List.concat
            (List.map (fun row => match row with
                                  | Some ings => idsOf ings
                                  | None => []
                                  end) rows)
      | None => []
      end
  end.

(** The loop over the inventory: [itemCounts]. *)
Definition itemCounts (inventory : list Stack) : Counts :=
  List.fold_left (fun m item => bump (stackType item) (stackCount item) m)
    inventory [].

(** The object [required]. *)
Definition required (recipe : Recipe) : Counts :=
  List.fold_left (fun m id => bump id 1 m) (requiredIds recipe) [].

(** [Math.min(maxCrafts, x)], [maxCrafts] starting at [Infinity] ([None]). *)
Definition minInf (maxCrafts : option Z) (x : Z) : option Z :=
  match maxCrafts with
  | None => Some x
  | Some m => Some (Z.min m x)
  end.

(** [getMaxCraftable(recipe)]; [Math.floor(have / count)] is the floor
    division of integers. *)
Definition getMaxCraftable (inventory : list Stack) (recipe : Recipe) : Z :=
  let counts := itemCounts inventory in
  match List.fold_left
          (fun maxCrafts entry =>
             minInf maxCrafts (lookup (fst entry) counts / snd entry))
          (required recipe) None with
  | None => 0
  | Some m => m
  end.

End Crafting.

(* ===================================================================== *)
(** ** tools/economy.js: extractItemName *)
(* ===================================================================== *)

Module Economy.

(** [itemYaml.match(/id:\s*minecraft:(\w+)/)], as its group. *)
Definition match_item (itemYaml : jsstring) : option jsstring :=
  search (lit (js "id:") (star isSpace (lit (js "minecraft:")
            (starCap isWord [] (fun g _ => if nonEmpty g then Some g
                                            else None))))) itemYaml.

(** [extractItemName(itemYaml)] *)
Definition extractItemName (itemYaml : jsstring) : jsstring :=
  match match_item itemYaml with
  | Some g => g
  | None => js "unknown"
  end.

End Economy.

(* ===================================================================== *)
(** ** Scenarios and predicates the properties are stated with *)
(* ===================================================================== *)

Import Connection.

(** *** Session manager *)

(** A world holding a given session and nothing else. *)
Definition worldOf (s : Session) : World :=
  mkWorld s [] [] O [] 0.

(** The session of the constructor after [k] counted attempts. *)
Definition afterAttempts (k : Z) : Session :=
  set_reconnectAttempt k constructor.

(** The session fields a rejected call must not touch. *)
Definition sameButCredentials (s s' : Session) : Prop :=
  bot s' = bot s /\ mcData s' = mcData s /\ chatLog s' = chatLog s
  /\ connectionState s' = connectionState s
  /\ lastDisconnectReason s' = lastDisconnectReason s
  /\ reconnectAttempt s' = reconnectAttempt s
  /\ maxReconnectAttempts s' = maxReconnectAttempts s
  /\ baseReconnectDelay s' = baseReconnectDelay s.

Definition someArgs : ConnectArgs :=
  mkArgs (Some (js "mc.example.org")) None (js "Steve") None None.

Definition otherArgs : ConnectArgs :=
  mkArgs None (Some 25570) (js "Alex") None (Some (js "microsoft")).

(** The world after [connect(someArgs)] at time 0: one attempt in flight. *)
Definition connectingWorld : World :=
  connect 0 someArgs false None initial.

(** The world after [connect(someArgs)] and the spawn of its bot. *)
Definition connectedWorld : World :=
  on_spawn O (js "Steve") (js "1.20.1") connectingWorld.

(** No bot is alive and the only pending timers are 30 s timeouts of past
    attempts: nothing of the session is in flight. *)
Definition quiescent (w : World) : Prop :=
  (forall b, live b w = false)
  /\ forall t, List.In t (timers w) -> exists a, t_kind t = TTimeout a.

Definition isCallConnect (e : Event) : bool :=
  match e with CallConnect _ _ => true | _ => false end.

Definition noReconnectTimer (w : World) : Prop :=
  forall t, List.In t (timers w) -> t_kind t <> TReconnect.

Definition exactlyOne (st : ConnState) : Prop :=
  (st = disconnected /\ st <> connecting /\ st <> connected
   /\ st <> reconnecting)
  \/ (st = connecting /\ st <> disconnected /\ st <> connected
      /\ st <> reconnecting)
  \/ (st = connected /\ st <> disconnected /\ st <> connecting
      /\ st <> reconnecting)
  \/ (st = reconnecting /\ st <> disconnected /\ st <> connecting
      /\ st <> connected).

(** The property C2 words: in a history of states, each entry into
    [connected] comes from [connecting]. *)
Fixpoint entersFromConnecting (prev : ConnState) (l : list ConnState) : bool :=
  match l with
  | [] => true
  | st :: rest =>
      (negb (ConnState_eqb st connected) || ConnState_eqb prev connected
       || ConnState_eqb prev connecting)
      && entersFromConnecting st rest
  end.

(** A first attempt is kicked during login and its promise is left pending;
    a second [connect] succeeds; 26 s later the connection drops and the
    reconnect is scheduled for 31000; at 30000 the timeout of the first
    attempt fires and sets the state to [disconnected]; the reconnect timer
    then finds the session free, and its bot spawns. *)
Definition raceTrace : list (Z * Event) :=
  [(0, CallConnect someArgs None);
   (1000, BotKicked 0%nat (js "You are not whitelisted"));
   (1001, BotEnd 0%nat (js "disconnect.quitting"));
   (2000, CallConnect someArgs None);
   (3000, BotSpawn 1%nat (js "Steve") (js "1.20.1"));
   (29000, BotEnd 1%nat (js "socketClosed"));
   (30000, Fire 0%nat None);
   (31000, Fire 2%nat None);
   (33000, BotSpawn 2%nat (js "Steve") (js "1.20.1"))].

(** Along a run, every step that enters [connected] is the [spawn] of a
    bot. *)
Fixpoint entersBySpawn (prev : World) (evs : list (Z * Event))
    (ws : list World) : Prop :=
  match evs, ws with
  | (_, e) :: evs', w :: ws' =>
      (stateOf prev <> connected -> stateOf w = connected ->
       exists b u ver, e = BotSpawn b u ver /\ live b prev = true)
      /\ entersBySpawn w evs' ws'
  | _, _ => True
  end.

Definition nthWorld (n : nat) (evs : list (Z * Event)) : World :=
  match run (List.firstn n evs) initial with
  | Some ws => List.last ws initial
  | None => initial
  end.

(** The counter is 0 or 1, and 0 whenever the session is [connected]. *)
Definition counterInv (w : World) : Prop :=
  0 <= reconnectAttempt (session w) <= 1
  /\ (stateOf w = connected -> reconnectAttempt (session w) = 0).

(** *** Message classifier *)

(** [bot.emit('message', jsonMsg, position)] with the listener of [connect]
    and the listener of a protected action both attached: each is called
    with the message.  The state is [this.chatLog], [signPlacementTime] and
    the [denialMessages] of the action. *)
Definition emit_message (now : Z) (msgText : jsstring) (position : Position)
    (st : list LogEntry * Z * list jsstring)
  : list LogEntry * Z * list jsstring :=
  let r := on_message now msgText position (fst (fst st)) (snd (fst st)) in
  (fst r, snd r, Actions.onMessage (snd st) msgText).

Definition denialText : jsstring :=
  js "You don't have permission to build in Bob's claim".

Definition signNotice : jsstring := js "Bob placed a sign @ world: x1, z2".

Definition signLine : jsstring := js "  Hello".

(** *** Protected actions *)

Definition connectedSession : Session := session connectedWorld.

Definition signPos : Vec3 := mkVec3 10 64 (-3).

Definition shopSign : Block :=
  mkBlock (js "oak_sign") (js "empty") signPos
    (Some (mkSignText [js "Shop"; []; []; []] [[]; []; []; []])).

(** An edit the server silently ignores: the sign reads the same afterwards
    and no message arrives. *)
Definition ignoredEdit : EditEnv :=
  mkEditEnv (Some shopSign) None [] (Some shopSign) [].

Definition cobblestone : Item := mkItem (js "cobblestone") 64 36.

Definition stoneAt (p : Vec3) : Block := mkBlock (js "stone") (js "block") p None.

(** A flat stone floor at height 63 under open air. *)
Definition floorWorld (p : Vec3) : option Block :=
  if vy p =? 63 then Some (stoneAt p) else None.

(** The placement is refused: nothing appears, the denial arrives within the
    window, and the lookup names the owner. *)
Definition refusedPlace : PlaceEnv :=
  mkPlaceEnv [cobblestone] None floorWorld None [denialText] None
    [js "Owner: Alice"; js "Builders: Bob, Carol"].




(** *** Claim lookup *)

(** The tests of the first branch of the listener. *)
Definition noClaim (text : jsstring) : bool :=
  includes (js "No claim exists") text || includes (js "Wilderness") text.

(** The tests of the branches that set [claimed] to true. *)
Definition claimLine (text : jsstring) : bool :=
  includes (js "owner:") text || includes (js "Owner:") text
  || includes (js "Managers:") text || includes (js "Builders:") text
  || includes (js "Containers:") text || includes (js "Accessors:") text.

(** A line the listener reads as being about the claim. *)
Definition related (text : jsstring) : bool := noClaim text || claimLine text.

(** The fields of the result the claim lines decide. *)
Definition core (c : Claims.ClaimInfo)
  : bool * option jsstring * list jsstring * list jsstring * list jsstring
    * list jsstring :=
  (Claims.claimed c, Claims.owner c, Claims.builders c, Claims.containers c,
   Claims.accessors c, Claims.managers c).

Definition ownerLine : jsstring := js "Owner: Alice".
Definition buildersLine : jsstring := js "Builders: Bob, Carol".

(** *** The promise of [connect] *)

(** [o] settles the promise of attempt [a]. *)
Definition settles (a : nat) (o : Output) : bool :=
  match o with
  | OResolve b _ | OReject b _ => Nat.eqb a b
  | _ => false
  end.

(** How often the promise of attempt [a] has been settled so far. *)
Definition settled (a : nat) (w : World) : nat :=
  List.length (List.filter (settles a) (outputs w)).

(** The flag [resolved] of attempt [a] is set. *)
Definition isResolved (a : nat) (w : World) : bool :=
  match List.nth_error (attempts w) a with
  | Some x => a_resolved x
  | None => false
  end.

(** A promise is settled at most once, and only with its flag set. *)
Definition settledInv (w : World) : Prop :=
  forall a, settled a w = 0%nat
            \/ (settled a w = 1%nat /\ isResolved a w = true).

(** A first attempt whose bot reports an error, then spawns, reports an
    error again, ends and runs into its timeout. *)
Definition noisyTrace : list (Z * Event) :=
  [(0, CallConnect someArgs None);
   (100, BotError 0%nat (js "read ECONNRESET"));
   (200, BotSpawn 0%nat (js "Steve") (js "1.20.1"));
   (300, BotError 0%nat (js "read ECONNRESET"));
   (400, BotEnd 0%nat (js "socketClosed"));
   (30000, Fire 0%nat None)].

(** *** [disconnect] *)




(** *** The chat log and get_chat_history *)

(** A bot that talks for two minutes. *)
Definition chattyTrace : list (Z * Event) :=
  (0, CallConnect someArgs None)
  :: List.map (fun i => (Z.of_nat i, BotChat O (js "Steve") (js "hi")))
       (List.seq 1 120).

(** How many entries [getChatHistory] shows for a limit that is not
    negative. *)
Definition shownCount (limit : Z) (n : nat) : nat :=
  if limit =? 0 then n else Nat.min (Z.to_nat limit) n.

Definition threeEntries : list LogEntry :=
  [LogChat (js "Alice") (js "hi") 900;
   LogSystem (js "Bob joined the game") pos_system 950;
   LogChat (js "Bob") (js "hello") 1000].

(** *** The claim lookup *)

Definition notComma (c : N) : bool := negb (N.eqb c 44).

(** *** findBestTool and placeBlock *)

(** The material rank of an item name: the index of the first material of
    [materialRank] it contains. *)
Definition materialOf (itemName : jsstring) : option nat :=
  rankOf materialRank 0 None itemName.

(** The body of the loop of [findBestTool] over the inventory: the pair is
    [bestTool] and [bestMaterial]. *)
Definition pickStep (toolType : jsstring) (acc : option Item * option nat)
    (item : Item) : option Item * option nat :=
  if negb (includes toolType (itemName item)) then acc
  else match rankOf materialRank 0 (snd acc) (itemName item) with
       | Some i => (Some item, Some i)
       | None => acc
       end.

Definition pickTool (toolType : jsstring) (items : list Item)
    (start : option Item * option nat) : option Item * option nat :=
  List.fold_left (pickStep toolType) items start.

(** [acc] holds a tool of the wanted type and of the best material among
    the items [seen], or nothing when [seen] holds no such tool. *)
Definition bestSoFar (toolType : jsstring) (seen : list Item)
    (acc : option Item * option nat) : Prop :=
  match acc with
  | (Some t, Some r) =>
      List.In t seen /\ includes toolType (itemName t) = true
      /\ materialOf (itemName t) = Some r
      /\ forall t' r', List.In t' seen ->
           includes toolType (itemName t') = true ->
           materialOf (itemName t') = Some r' -> (r <= r')%nat
  | (None, None) =>
      forall t' r', List.In t' seen ->
        includes toolType (itemName t') = true ->
        materialOf (itemName t') = Some r' -> False
  | _ => False
  end.

(** The tool type [findBestTool] settles on: the first of [toolTypes] with
    a pattern the block's name contains. *)
Definition toolTypeFor (block : Block) : option jsstring :=
  option_map fst
    (List.find
       (fun tt => List.existsb (fun pattern => includes pattern (name block))
                    (snd tt))
       toolTypes).

Definition neg (v : Vec3) : Vec3 := mkVec3 (- vx v) (- vy v) (- vz v).

(** One of the six face vectors. *)
Definition unitVector (v : Vec3) : Prop :=
  Z.abs (vx v) + Z.abs (vy v) + Z.abs (vz v) = 1.

(** *** getMaxCraftable *)

(** How many items of type [id] the inventory holds. *)
Definition have (inventory : list Crafting.Stack) (id : Z) : Z :=
  List.fold_right Z.add 0
    (List.map Crafting.stackCount
       (List.filter (fun item => Crafting.stackType item =? id) inventory)).

(** How many items of type [id] one crafting takes. *)
Definition need (recipe : Crafting.Recipe) (id : Z) : Z :=
  Z.of_nat (List.count_occ Z.eq_dec (Crafting.requiredIds recipe) id).

(** Three planks and two sticks for a pickaxe, in an inventory of two
    stacks of planks and one of sticks. *)
Definition pickaxeRecipe : Crafting.Recipe :=
  Crafting.mkRecipe None
    (Some [Some [Crafting.ingNumber 23; Crafting.ingNumber 23;
                 Crafting.ingNumber 23];
           Some [Crafting.ingNull; Crafting.ingObject 807; Crafting.ingNull];
           Some [Crafting.ingNull; Crafting.ingObject 807;
                 Crafting.ingNull]]).

Definition planksAndSticks : list Crafting.Stack :=
  [Crafting.mkStack 23 5; Crafting.mkStack 807 9; Crafting.mkStack 23 6].

(** *** The retry loop along runs *)



(** Along a run, every step that enters [connecting] is an explicit
    [connect] call. *)
Fixpoint connectingByCall (prev : World) (evs : list (Z * Event))
    (ws : list World) : Prop :=
  match evs, ws with
  | (_, e) :: evs', w :: ws' =>
      (stateOf prev <> connecting -> stateOf w = connecting ->
       exists args createErr, e = CallConnect args createErr)
      /\ connectingByCall w evs' ws'
  | _, _ => True
  end.

(** The states from which a history of states enters [connected], in
    order. *)
Fixpoint enteredFrom (prev : ConnState) (l : list ConnState)
  : list ConnState :=
  match l with
  | [] => []
  | st :: rest =>
      (if ConnState_eqb st connected && negb (ConnState_eqb prev connected)
       then [prev] else [])
      ++ enteredFrom st rest
  end.

(** The same for the run of [evs] from the constructor's state. *)
Definition entriesOf (evs : list (Z * Event)) : list ConnState :=
  enteredFrom (stateOf initial)
    (List.map stateOf
       (match run evs initial with Some ws => ws | None => [] end)).

Definition isCallDisconnect (e : Event) : bool :=
  match e with CallDisconnect => true | _ => false end.

(** What [connect] returns while the state is [reconnecting]. *)
Definition busyReconnecting : Output :=
  OReturn (text (js "Already reconnecting. Please wait.")).

(** The session waits for a retry: the state is [reconnecting], no bot is
    alive, and the pending timers are retry timers and the 30 s timeouts of
    attempts that are settled. *)
Definition stalled (w : World) : Prop :=
  stateOf w = reconnecting
  /\ (forall b, live b w = false)
  /\ forall t, List.In t (timers w) ->
       t_kind t = TReconnect
       \/ exists a, t_kind t = TTimeout a /\ resolvedOf a w = true.

(** A connection is made and is lost 7 s later. *)
Definition lostTrace : list (Z * Event) :=
  [(0, CallConnect someArgs None);
   (3000, BotSpawn 0%nat (js "Steve") (js "1.20.1"));
   (10000, BotEnd 0%nat (js "socketClosed"))].

Definition lostWorld : World := nthWorld 3 lostTrace.

(** What follows the loss: the retry timer fires, the caller asks twice for
    a connection, and the timeout of the first attempt fires in between. *)
Definition afterLoss : list (Z * Event) :=
  [(12000, Fire 1%nat None);
   (20000, CallConnect someArgs None);
   (30000, Fire 0%nat None);
   (600000, CallConnect otherArgs None)].

(** *** A [connect] while connected *)

(** The ids of the pending timers are below the next id. *)
Definition timersFresh (w : World) : Prop :=
  forall t, List.In t (timers w) -> (t_id t < nextTimer w)%nat.

(** An event of a bot, as opposed to a call of a tool or the expiry of a
    timer. *)
Definition isBotEvent (e : Event) : bool :=
  match e with
  | CallConnect _ _ | CallDisconnect | Fire _ _ => false
  | _ => true
  end.

(** What the executor of [connect] leaves when it runs at time [at_] in the
    world [w1] with the timers [pending]: with a bot created, the bot is the
    session's, the options are those of the arguments, the attempt is open,
    its 30 s timeout is set and the state is [st]; with [createBot]
    throwing, the attempt is rejected and the session is [disconnected]
    without a bot. *)
Definition established (st : ConnState) (at_ : Z) (args : ConnectArgs)
    (createErr : option jsstring) (pending : list Timer) (w1 w2 : World)
  : Prop :=
  let fresh := List.length (attempts w1) in
  match createErr with
  | None =>
      bot (session w2) = Some fresh
      /\ stateOf w2 = st
      /\ outputs w2 = outputs w1 ++ [OCreateBot fresh (optsOf args)]
      /\ attempts w2 =
           attempts w1 ++ [mkAttempt args false true false false false 0]
      /\ timers w2 =
           pending ++ [mkTimer (nextTimer w1) (at_ + 30000) (TTimeout fresh)]
      /\ live fresh w2 = true
  | Some err =>
      bot (session w2) = None
      /\ stateOf w2 = disconnected
      /\ outputs w2 =
           outputs w1 ++ [OReject fresh (js "Failed to create bot: " ++ err)]
      /\ attempts w2 =
           attempts w1 ++ [mkAttempt args true false false false false 0]
      /\ timers w2 = pending
  end.

(** What a [connect] with the arguments [args] does at time [now] in a
    world [w] whose state is [connected].  The call is a step of the
    session and is not answered with the busy text; it stores the
    arguments.  With a bot to quit it sets [connecting], quits the bot and
    waits 500 ms; whatever the bots emit in the meantime (the [end] of the
    bot that was quit, above all), the expiry of the wait at time [later]
    is a step that runs the executor, which leaves the state as it finds
    it: [connecting] when nothing was emitted.  Without a bot to quit the
    call runs the executor at once. *)
Definition reconnectsAfresh (now later : Z) (args : ConnectArgs)
    (createErr : option jsstring) (w : World) : Prop :=
  exists w1,
    step now (CallConnect args createErr) w = Some w1
    /\ connectArgs (session w1) = Some (withDefaults args)
    /\ (forall r, List.In (OReturn r) (outputs w1) ->
                  List.In (OReturn r) (outputs w))
    /\ match bot (session w) with
       | Some b =>
           stateOf w1 = connecting
           /\ bot (session w1) = None
           /\ outputs w1 = outputs w ++ [OQuit b]
           /\ attempts w1 = attempts w
           /\ timers w1 =
                timers w ++ [mkTimer (nextTimer w) (now + 500)
                               (TCleanup (withDefaults args) false)]
           /\ forall (meantime : list (Z * Event)) (ws1 : list World),
                List.forallb (fun p => isBotEvent (snd p)) meantime = true ->
                run meantime w1 = Some ws1 ->
                clock (List.last ws1 w1) <= later ->
                exists w2,
                  step later (Fire (nextTimer w) createErr) (List.last ws1 w1)
                  = Some w2
                  /\ connectArgs (session w2) = Some (withDefaults args)
                  /\ established (stateOf (List.last ws1 w1)) later
                       (withDefaults args) createErr (timers w)
                       (List.last ws1 w1) w2
       | None =>
           established connecting now (withDefaults args) createErr (timers w)
             w w1
       end.

(** What the events of the bots leave alone while the session has no bot
    and is not [connected]: the wait of a [connect] is such a time. *)
Definition waiting (w0 w : World) : Prop :=
  bot (session w) = None /\ stateOf w <> connected
  /\ timers w = timers w0 /\ nextTimer w = nextTimer w0
  /\ connectArgs (session w) = connectArgs (session w0).

(** A connection is made. *)
Definition spawnedTrace : list (Z * Event) :=
  [(0, CallConnect someArgs None);
   (3000, BotSpawn 0%nat (js "Steve") (js "1.20.1"))].


(** The timers an operation leaves: those it found, and after them the
    timers it set, with the next ids. *)
Definition timersGrow (w w' : World) : Prop :=
  exists added,
    timers w' = timers w ++ added
    /\ nextTimer w' = (nextTimer w + List.length added)%nat
    /\ forall t, List.In t added ->
         (nextTimer w <= t_id t < nextTimer w + List.length added)%nat.


(** *** The snapshot after a protected action *)






(** *** The phrases of the claim lookup *)

(** The last message of the window that holds one of the phrases the
    listener looks for. *)
Fixpoint lastRelated (window : list jsstring) : option jsstring :=
  match window with
  | [] => None
  | text :: rest =>
      match lastRelated rest with
      | Some t => Some t
      | None => if related text then Some text else None
      end
  end.

(** Both claim lines, then a chat line that mentions the Wilderness. *)
Definition chattedWindow : list jsstring :=
  [ownerLine; buildersLine; js "<Steve> I love the Wilderness"].

(** A no-claim phrase, then a line of managers. *)
Definition mixedWindow : list jsstring :=
  [js "No claim exists here."; js "Managers: Dan"].

(* ===================================================================== *)
(** ** Properties of the session manager *)
(* ===================================================================== *)

Section SessionManager.

Lemma scheduleReconnect_schedules (now : Z) (w : World) :
  reconnectAttempt (session w) < maxReconnectAttempts (session w) ->
  scheduleReconnect now w =
  setTimeout now TReconnect
    (reconnectDelay (baseReconnectDelay (session w))
       (reconnectAttempt (session w) + 1))
    (with_session
       (fun s => set_connectionState reconnecting
                   (set_reconnectAttempt (reconnectAttempt (session w) + 1) s))
       w).
Proof.
  intros Hlt. unfold scheduleReconnect.
  destruct (Z.leb_spec (maxReconnectAttempts (session w))
              (reconnectAttempt (session w))) as [Hle | _]; [lia | reflexivity].
Qed.

Lemma scheduleReconnect_gives_up (now : Z) (w : World) :
  maxReconnectAttempts (session w) <= reconnectAttempt (session w) ->
  scheduleReconnect now w = with_session (set_connectionState disconnected) w.
Proof.
  intros Hle. unfold scheduleReconnect.
  destruct (Z.leb_spec (maxReconnectAttempts (session w))
              (reconnectAttempt (session w))) as [_ | Hlt]; [reflexivity | lia].
Qed.

(** [scheduleReconnect] taken alone, with the counter set by hand: before
    attempt 6 of the default configuration it waits 60000 ms, not
    min(2000 * 2^5, 300000) = 64000 ms.  No run from [initial] brings the
    counter that far. *)
Lemma scheduleReconnect_cap_is_60000 :
  ~ (forall n : Z, 1 <= n <= 10 ->
       timers (scheduleReconnect 0 (worldOf (afterAttempts (n - 1)))) =
       [mkTimer O (0 + Z.min (2000 * 2 ^ (n - 1)) 300000) TReconnect]).
Proof.
  intros H. specialize (H 6 ltac:(lia)). vm_compute in H. discriminate H.
Qed.

(** [scheduleReconnect] taken alone: under the default configuration (base
    delay 2000 ms, budget of 10 attempts) the call that announces attempt
    [n] sets exactly one timer, due min(2000 * 2^(n-1), 60000) ms later,
    counts the attempt and leaves the session [reconnecting]. *)
Lemma scheduleReconnect_delay (now n : Z) (w : World)
    (Hbase : baseReconnectDelay (session w) = 2000)
    (Hmax : maxReconnectAttempts (session w) = 10)
    (Hn : 1 <= n <= 10)
    (Hattempt : reconnectAttempt (session w) = n - 1) :
  let w' := scheduleReconnect now w in
  timers w' =
    timers w ++ [mkTimer (nextTimer w)
                   (now + Z.min (2000 * 2 ^ (n - 1)) 60000) TReconnect]
  /\ reconnectAttempt (session w') = n
  /\ connectionState (session w') = reconnecting.
Proof.
  cbv zeta. rewrite scheduleReconnect_schedules by lia.
  rewrite Hbase, Hattempt. replace (n - 1 + 1) with n by lia.
  unfold reconnectDelay. repeat split.
Qed.

(** C4: a [connect] issued while the session is [connecting] or
    [reconnecting] returns the text "Already <state>. Please wait."; it
    creates no bot, quits none, sets no timer and starts no attempt, and the
    connection state, the bot and every other session field but the stored
    credentials are as before (an explicit call has already stored its
    arguments as credentials when the test is made). *)
Theorem C4_connect_while_busy (now : Z) (args : ConnectArgs)
    (isReconnect : bool) (createErr : option jsstring) (w : World)
    (Hbusy : connectionState (session w) = connecting
             \/ connectionState (session w) = reconnecting) :
  let w' := connect now args isReconnect createErr w in
  outputs w' =
    outputs w ++ [OReturn (text (js "Already "
                                 ++ stateName (connectionState (session w))
                                 ++ js ". Please wait."))]
  /\ attempts w' = attempts w
  /\ timers w' = timers w
  /\ nextTimer w' = nextTimer w
  /\ sameButCredentials (session w) (session w')
  /\ connectArgs (session w') =
       (if isReconnect then connectArgs (session w)
        else Some (withDefaults args)).
Proof.
  cbv zeta. unfold connect.
  assert (Hb : busy (connectionState (session w)) = true)
    by (destruct Hbusy as [-> | ->]; reflexivity).
  destruct isReconnect; cbn [session with_session set_connectArgs
                              connectionState];
    rewrite Hb; cbn; unfold sameButCredentials; cbn; repeat split.
Qed.

Lemma C4_connect_while_busy_witness :
  let w' := connect 100 otherArgs false None connectingWorld in
  outputs w' =
    outputs connectingWorld
    ++ [OReturn (text (js "Already connecting. Please wait."))]
  /\ attempts w' = attempts connectingWorld
  /\ timers w' = timers connectingWorld
  /\ nextTimer w' = nextTimer connectingWorld
  /\ sameButCredentials (session connectingWorld) (session w')
  /\ connectArgs (session w') = Some (withDefaults otherArgs).
Proof.
  exact (C4_connect_while_busy 100 otherArgs false None connectingWorld
           (or_introl eq_refl)).
Defined.

(** *** Bookkeeping lemmas on the world *)

Lemma nth_error_update_nth {A} (f : A -> A) (l : list A) (n m : nat) :
  List.nth_error (update_nth n f l) m =
  if Nat.eqb n m then option_map f (List.nth_error l m)
  else List.nth_error l m.
Proof.
  revert n m. induction l as [| x l IH]; intros n m.
  - destruct n, m; cbn; try reflexivity.
    destruct (Nat.eqb n m); reflexivity.
  - destruct n, m; cbn; try reflexivity. apply IH.
Qed.

Lemma live_with_attempt (a b : nat) (f : Attempt -> Attempt) (w : World) :
  (forall x, a_created (f x) = a_created x /\ a_ended (f x) = a_ended x) ->
  live b (with_attempt a f w) = live b w.
Proof.
  intros Hf. unfold live, attemptOf, with_attempt, with_attempts. cbn.
  rewrite nth_error_update_nth.
  destruct (Nat.eqb a b); [| reflexivity].
  destruct (List.nth_error (attempts w) b) as [x |]; cbn; [| reflexivity].
  destruct (Hf x) as [-> ->]. reflexivity.
Qed.

Lemma take_timer_In (id : nat) (l : list Timer) (t : Timer)
    (rest : list Timer) :
  take_timer id l = Some (t, rest) ->
  List.In t l /\ (forall t', List.In t' rest -> List.In t' l).
Proof.
  revert t rest. induction l as [| x l IH]; intros t rest H; cbn in H.
  - discriminate.
  - destruct (Nat.eqb (t_id x) id).
    + inversion H; subst. split; [now left | intros; now right].
    + destruct (take_timer id l) as [[t' r] |]; [| discriminate].
      inversion H; subst. destruct (IH _ _ eq_refl) as [Hin Hrest].
      split; [now right |].
      intros t' [-> | Hr]; [now left | right; auto].
Qed.

Lemma finish_state (a : nat) (success : bool) (r : ToolResult)
    (m : jsstring) (w : World) :
  stateOf (finish a success r m w) = stateOf w
  \/ stateOf (finish a success r m w) = disconnected.
Proof.
  unfold finish. destruct (resolvedOf a w); [now left |].
  destruct success; [now left | now right].
Qed.

Lemma finish_frame (a : nat) (success : bool) (r : ToolResult)
    (m : jsstring) (w : World) :
  timers (finish a success r m w) = timers w
  /\ reconnectAttempt (session (finish a success r m w))
     = reconnectAttempt (session w)
  /\ forall b, live b (finish a success r m w) = live b w.
Proof.
  unfold finish. destruct (resolvedOf a w); [repeat split |].
  destruct success; cbn; repeat split; intros b;
    apply (live_with_attempt a b set_resolved w); intros x; split;
      reflexivity.
Qed.

(** *** The guard of [scheduleReconnect] *)

Lemma quiescent_noReconnectTimer (w : World) :
  quiescent w -> noReconnectTimer w.
Proof.
  intros [_ Ht] t Hin Hk. destruct (Ht t Hin) as [a Ha]. congruence.
Qed.

Lemma on_timeout_quiet (a : nat) (w : World) :
  quiescent w -> stateOf w = disconnected ->
  quiescent (on_timeout a w) /\ stateOf (on_timeout a w) = disconnected.
Proof.
  intros [Hlive Ht] Hst. unfold on_timeout.
  destruct (negb (resolvedOf a w)
            && negb (ConnState_eqb (connectionState (session w)) connected));
    [| now repeat split].
  set (w1 := match bot (session w) with
             | Some cur => emit (OQuit cur) w
             | None => w
             end).
  assert (H1 : timers w1 = timers w /\ stateOf w1 = stateOf w
               /\ forall b, live b w1 = live b w)
    by (subst w1; destruct (bot (session w)); repeat split).
  destruct H1 as (Ht1 & Hs1 & Hl1).
  destruct (finish_frame a false (text []) (js "Connection timeout") w1)
    as (Htf & _ & Hlf).
  split; [split |].
  - intros b. rewrite Hlf, Hl1. apply Hlive.
  - intros t Hin. rewrite Htf, Ht1 in Hin. auto.
  - destruct (finish_state a false (text []) (js "Connection timeout") w1)
      as [-> | ->]; [congruence | reflexivity].
Qed.

Lemma step_quiet (now : Z) (e : Event) (w w' : World) :
  quiescent w -> stateOf w = disconnected -> isCallConnect e = false ->
  step now e w = Some w' ->
  quiescent w' /\ stateOf w' = disconnected.
Proof.
  intros Hq Hst He Hstep. unfold step in Hstep.
  destruct (now <? clock w); [discriminate |].
  assert (Hq0 : quiescent (set_clock now w)) by exact Hq.
  assert (Hs0 : stateOf (set_clock now w) = disconnected) by exact Hst.
  destruct Hq0 as [Hlive Ht].
  destruct e; cbn [isCallConnect] in He; try discriminate;
    try (rewrite (Hlive b) in Hstep; discriminate Hstep).
  - (* disconnect *)
    inversion Hstep; subst w'. unfold disconnect.
    destruct (bot (session _)); cbn; (split; [split |]); auto.
  - (* a timer *)
    destruct (take_timer id (timers (set_clock now w)))
      as [[t rest] |] eqn:Htake; [| discriminate].
    destruct (t_due t <=? now); [| discriminate].
    inversion Hstep; subst w'.
    destruct (take_timer_In _ _ _ _ Htake) as [Hin Hrest].
    destruct (Ht t Hin) as [a Ha]. rewrite Ha. cbn [run_timer].
    apply on_timeout_quiet; [| exact Hs0].
    split; [exact Hlive | intros t' Hin'; apply Ht, Hrest, Hin'].
Qed.

Lemma run_quiet (evs : list (Z * Event)) :
  forall (w : World) (ws : list World),
    quiescent w -> stateOf w = disconnected ->
    List.forallb (fun p => negb (isCallConnect (snd p))) evs = true ->
    run evs w = Some ws ->
    forall w', List.In w' ws -> quiescent w' /\ stateOf w' = disconnected.
Proof.
  induction evs as [| [now e] evs IH]; intros w ws Hq Hst Hevs Hrun; cbn in *.
  - inversion Hrun; subst. intros w' [].
  - apply andb_true_iff in Hevs as [He Hevs].
    apply negb_true_iff in He.
    destruct (step now e w) as [w1 |] eqn:Hstep; [| discriminate].
    destruct (run evs w1) as [ws1 |] eqn:Hrun1; [| discriminate].
    inversion Hrun; subst ws.
    destruct (step_quiet _ _ _ _ Hq Hst He Hstep) as [Hq1 Hst1].
    intros w' [<- | Hin]; [now split |].
    exact (IH w1 ws1 Hq1 Hst1 Hevs Hrun1 w' Hin).
Qed.

(** [scheduleReconnect] taken alone, with the counter set by hand: when the
    counter has reached [maxReconnectAttempts] it sets the state to
    [disconnected] and sets no timer; and with nothing else of the session
    in flight, whatever happens next short of an explicit [connect] call
    leaves the session [disconnected] with no reconnect timer pending.  No
    run from [initial] brings the counter that far. *)
Lemma scheduleReconnect_budget_guard (now : Z) (w : World) (evs : list (Z * Event))
    (ws : list World)
    (Hbudget : maxReconnectAttempts (session w) <= reconnectAttempt (session w))
    (Hquiet : quiescent w)
    (Hevs : List.forallb (fun p => negb (isCallConnect (snd p))) evs = true)
    (Hrun : run evs (scheduleReconnect now w) = Some ws) :
  connectionState (session (scheduleReconnect now w)) = disconnected
  /\ timers (scheduleReconnect now w) = timers w
  /\ reconnectAttempt (session (scheduleReconnect now w))
     = reconnectAttempt (session w)
  /\ forall w', List.In w' ws ->
       connectionState (session w') = disconnected /\ noReconnectTimer w'.
Proof.
  rewrite scheduleReconnect_gives_up in * by exact Hbudget.
  assert (Hq' : quiescent (with_session (set_connectionState disconnected) w))
    by exact Hquiet.
  repeat split.
  - destruct (run_quiet evs _ ws Hq' eq_refl Hevs Hrun w' H) as [_ Hs].
    exact Hs.
  - destruct (run_quiet evs _ ws Hq' eq_refl Hevs Hrun w' H) as [Hq _].
    apply quiescent_noReconnectTimer, Hq.
Qed.

(** *** C2: how [connected] is entered *)

Lemma executor_state (now : Z) (args : ConnectArgs)
    (createErr : option jsstring) (w : World) :
  stateOf (executor now args createErr w) = stateOf w
  \/ stateOf (executor now args createErr w) = disconnected.
Proof.
  unfold executor. destruct createErr as [err |]; [| now left].
  match goal with
  | |- context [finish ?a ?b ?r ?m ?x] =>
      destruct (finish_state a b r m x) as [H | H]; rewrite H
  end; [now left | now right].
Qed.

Lemma connect_not_connected (now : Z) (args : ConnectArgs)
    (isReconnect : bool) (createErr : option jsstring) (w : World) :
  stateOf (connect now args isReconnect createErr w) <> connected.
Proof.
  unfold connect.
  set (w1 := if isReconnect then w
             else with_session (set_connectArgs (Some (withDefaults args))) w).
  destruct (busy (connectionState (session w1))) eqn:Hb.
  - unfold stateOf. cbn. intros H. rewrite H in Hb. discriminate.
  - set (w2 := with_session _ w1).
    assert (H2 : stateOf w2 <> connected)
      by (subst w2; unfold stateOf; cbn; destruct isReconnect; discriminate).
    destruct (bot (session w2)); [exact H2 |].
    destruct (executor_state now (withDefaults args) createErr w2)
      as [-> | ->]; [exact H2 | discriminate].
Qed.

Lemma connect_state (now : Z) (args : ConnectArgs) (isReconnect : bool)
    (w : World) :
  busy (stateOf w) = false ->
  stateOf (connect now args isReconnect None w) =
  if isReconnect then reconnecting else connecting.
Proof.
  intros Hb. destruct w as [s ats tms nt outs clk]. destruct s as [bt ? ? st ? ? ? ? ?].
  unfold connect, stateOf in *. cbn in Hb.
  destruct isReconnect; cbn; rewrite Hb; cbn; destruct bt; reflexivity.
Qed.

Lemma scheduleReconnect_state (now : Z) (w : World) :
  stateOf (scheduleReconnect now w) <> connected.
Proof.
  unfold scheduleReconnect.
  destruct (maxReconnectAttempts (session w) <=? reconnectAttempt (session w));
    discriminate.
Qed.

Lemma on_end_state (now : Z) (b : BotId) (w : World) :
  stateOf (on_end now b w) = connected -> stateOf w = connected.
Proof.
  unfold on_end.
  set (w1 := with_session _ (with_attempt b set_ended w)).
  set (w2 := if resolvedOf b w1 then w1 else _).
  assert (H2 : stateOf w2 = connected -> stateOf w = connected)
    by (subst w2; destruct (resolvedOf b w1); [tauto | discriminate]).
  destruct (_ && _); [| exact H2].
  intros H. now apply scheduleReconnect_state in H.
Qed.

Lemma on_timeout_state (a : nat) (w : World) :
  stateOf (on_timeout a w) = connected -> stateOf w = connected.
Proof.
  unfold on_timeout. destruct (_ && _); [| tauto].
  set (w1 := match bot (session w) with
             | Some cur => emit (OQuit cur) w
             | None => w
             end).
  assert (H1 : stateOf w1 = stateOf w)
    by (subst w1; destruct (bot (session w)); reflexivity).
  destruct (finish_state a false (text []) (js "Connection timeout") w1)
    as [-> | ->]; [congruence | discriminate].
Qed.

(** Only the [spawn] listener assigns [connected]. *)
Lemma step_enters_connected (now : Z) (e : Event) (w w' : World) :
  step now e w = Some w' ->
  stateOf w <> connected -> stateOf w' = connected ->
  exists b u ver, e = BotSpawn b u ver /\ live b w = true.
Proof.
  intros Hstep Hout Hin. unfold step in Hstep.
  destruct (now <? clock w); [discriminate |].
  assert (Hs0 : stateOf (set_clock now w) = stateOf w) by reflexivity.
  destruct e; cbn [guard] in Hstep.
  - inversion Hstep; subst w'. now apply connect_not_connected in Hin.
  - inversion Hstep; subst w'. unfold disconnect in Hin.
    destruct (bot (session _)) in Hin; discriminate Hin.
  - destruct (take_timer id (timers (set_clock now w)))
      as [[t rest] |]; [| discriminate].
    destruct (t_due t <=? now); [| discriminate].
    inversion Hstep; subst w'. exfalso.
    destruct (t_kind t) as [args isRec | a |]; cbn [run_timer] in Hin.
    + destruct (executor_state now args createErr
                  (with_timers rest (set_clock now w))) as [H | H];
        rewrite H in Hin; [apply Hout, Hin | discriminate].
    + apply on_timeout_state in Hin. apply Hout, Hin.
    + unfold on_reconnect_timer in Hin.
      destruct (connectArgs (session _)) in Hin.
      * now apply connect_not_connected in Hin.
      * apply Hout, Hin.
  - unfold guard in Hstep. destruct (live b (set_clock now w));
      [| discriminate]. inversion Hstep; subst w'. exfalso. apply Hout, Hin.
  - unfold guard in Hstep. destruct (live b (set_clock now w)) eqn:Hl;
      [| discriminate]. exists b, botUsername, botVersion. now split.
  - unfold guard in Hstep. destruct (live b (set_clock now w));
      [| discriminate]. inversion Hstep; subst w'. exfalso. apply Hout, Hin.
  - unfold guard in Hstep. destruct (live b (set_clock now w));
      [| discriminate]. inversion Hstep; subst w'. exfalso.
    unfold on_message_event in Hin.
    destruct (attemptOf b (set_clock now w)); apply Hout, Hin.
  - unfold guard in Hstep. destruct (live b (set_clock now w));
      [| discriminate]. inversion Hstep; subst w'. exfalso.
    unfold on_error in Hin.
    destruct (finish_state b false (text []) (js "Connection failed: " ++ message)
                (set_clock now w)) as [H | H];
      rewrite H in Hin; [apply Hout, Hin | discriminate].
  - unfold guard in Hstep. destruct (live b (set_clock now w));
      [| discriminate]. inversion Hstep; subst w'. exfalso. apply Hout, Hin.
  - unfold guard in Hstep. destruct (live b (set_clock now w));
      [| discriminate]. inversion Hstep; subst w'. exfalso.
    apply on_end_state in Hin. apply Hout, Hin.
Qed.

Lemma run_enters_connected_by_spawn (evs : list (Z * Event)) :
  forall (w0 : World) (ws : list World),
    run evs w0 = Some ws -> entersBySpawn w0 evs ws.
Proof.
  induction evs as [| [now e] evs IH]; intros w0 ws Hrun; cbn in Hrun.
  - inversion Hrun; subst. exact I.
  - destruct (step now e w0) as [w1 |] eqn:Hstep; [| discriminate].
    destruct (run evs w1) as [ws1 |] eqn:Hrun1; [| discriminate].
    inversion Hrun; subst ws. cbn. split.
    + exact (step_enters_connected now e w0 w1 Hstep).
    + exact (IH w1 ws1 Hrun1).
Qed.

(** After a [connect] that found no bot to quit, the bot it created is
    alive and its [spawn] makes the session [connected]. *)
Lemma connect_then_spawn (now : Z) (args : ConnectArgs) (isReconnect : bool)
    (w : World) (u ver : jsstring) :
  busy (stateOf w) = false -> bot (session w) = None ->
  let fresh := List.length (attempts w) in
  let w1 := connect now args isReconnect None w in
  live fresh w1 = true /\ stateOf (on_spawn fresh u ver w1) = connected.
Proof.
  intros Hb Hbot. destruct w as [s ats tms nt outs clk].
  destruct s as [bt ? ? st ? ? ? ? ?]. cbn in Hbot. subst bt.
  cbv zeta. unfold connect, stateOf in *. cbn in Hb.
  assert (Hnth : forall (x : Attempt) l,
             List.nth_error (l ++ [x]) (List.length l) = Some x)
    by (intros x l; rewrite List.nth_error_app2, Nat.sub_diag by lia;
        reflexivity).
  destruct isReconnect; cbn; rewrite Hb; cbn;
    unfold executor, live, on_spawn, attemptOf; cbn; rewrite Hnth; cbn;
    (split; [reflexivity |]);
    unfold finish, resolvedOf, with_attempt; cbn;
    rewrite nth_error_update_nth, Nat.eqb_refl, Hnth; reflexivity.
Qed.

Lemma exactlyOne_always (st : ConnState) : exactlyOne st.
Proof.
  unfold exactlyOne. destruct st;
    [left | right; left | right; right; left | right; right; right];
    repeat split; discriminate.
Qed.

(** C2, as the specification words it, fails: on [raceTrace] the session
    enters [connected] from [reconnecting]; the retry sets [reconnecting],
    never [connecting]. *)
Lemma C2_retry_enters_from_reconnecting :
  exists ws,
    run raceTrace initial = Some ws
    /\ List.map stateOf ws =
       [connecting; connecting; disconnected; connecting; connected;
        reconnecting; disconnected; reconnecting; connected]
    /\ entersFromConnecting (stateOf initial) (List.map stateOf ws) = false.
Proof.
  destruct (run raceTrace initial) as [ws |] eqn:Hrun;
    vm_compute in Hrun; [| discriminate Hrun].
  inversion Hrun; subst ws. eexists. split; [reflexivity |].
  split; vm_compute; reflexivity.
Qed.

(** *** The retry loop as the code runs it *)

(** X1: the callback [scheduleReconnect] sets calls [connect] while the state
    is still the [reconnecting] that [scheduleReconnect] assigned: the call is
    answered with the busy text and no bot is created. *)
Lemma retry_rejected_as_busy (now later : Z) (createErr : option jsstring)
    (args : ConnectArgs) (w : World) :
  connectArgs (session w) = Some args ->
  reconnectAttempt (session w) < maxReconnectAttempts (session w) ->
  on_reconnect_timer later createErr (scheduleReconnect now w)
  = emit (OReturn (text (js "Already reconnecting. Please wait.")))
      (scheduleReconnect now w).
Proof.
  intros Hargs Hlt. rewrite scheduleReconnect_schedules by exact Hlt.
  unfold on_reconnect_timer. cbn. rewrite Hargs. reflexivity.
Qed.

Lemma executor_attempt (now : Z) (args : ConnectArgs)
    (createErr : option jsstring) (w : World) :
  reconnectAttempt (session (executor now args createErr w))
  = reconnectAttempt (session w).
Proof.
  unfold executor. destruct createErr as [err |]; [| reflexivity].
  match goal with
  | |- context [finish ?a ?b ?r ?m ?x] =>
      destruct (finish_frame a b r m x) as (_ & H & _); rewrite H
  end. reflexivity.
Qed.

Lemma connect_attempt (now : Z) (args : ConnectArgs) (isReconnect : bool)
    (createErr : option jsstring) (w : World) :
  reconnectAttempt (session (connect now args isReconnect createErr w))
  = reconnectAttempt (session w).
Proof.
  unfold connect.
  set (w1 := if isReconnect then w
             else with_session (set_connectArgs (Some (withDefaults args))) w).
  assert (H1 : reconnectAttempt (session w1) = reconnectAttempt (session w))
    by (subst w1; destruct isReconnect; reflexivity).
  destruct (busy (connectionState (session w1))); [exact H1 |].
  set (w2 := with_session _ w1).
  destruct (bot (session w2)); [exact H1 |].
  rewrite executor_attempt. exact H1.
Qed.

Lemma counterInv_keeps (w w' : World) :
  counterInv w ->
  reconnectAttempt (session w') = reconnectAttempt (session w) ->
  (stateOf w' = connected -> stateOf w = connected) ->
  counterInv w'.
Proof.
  intros [Hr Hc] Ha Hs. unfold counterInv. rewrite Ha. split; auto.
Qed.

Lemma on_end_counterInv (now : Z) (b : BotId) (w : World) :
  counterInv w -> counterInv (on_end now b w).
Proof.
  intros [Hr Hc]. unfold on_end, stateOf in *.
  destruct (ConnState_eqb (connectionState (session w)) connected) eqn:Hwas.
  - assert (Hst : connectionState (session w) = connected)
      by (destruct (connectionState (session w)); try discriminate;
          reflexivity).
    specialize (Hc Hst).
    set (w1 := with_session _ (with_attempt b set_ended w)).
    set (w2 := if resolvedOf b w1 then w1 else _).
    assert (H2 : reconnectAttempt (session w2) = 0)
      by (subst w2; destruct (resolvedOf b w1); exact Hc).
    assert (H2s : connectionState (session w2) = connected ->
                  reconnectAttempt (session w2) = 0) by (intros _; exact H2).
    cbn [andb]. destruct (hasCredentials (session w2)).
    + unfold scheduleReconnect, counterInv, stateOf.
      destruct (maxReconnectAttempts (session w2)
                <=? reconnectAttempt (session w2)); cbn; rewrite ?H2;
        split; try lia; discriminate.
    + split; [rewrite H2; lia | exact H2s].
  - cbn [andb].
    set (w1 := with_session _ (with_attempt b set_ended w)).
    assert (H1 : reconnectAttempt (session w1) = reconnectAttempt (session w)
                 /\ connectionState (session w1) = connectionState (session w))
      by (split; reflexivity).
    destruct H1 as [H1a H1s].
    destruct (resolvedOf b w1); (split; [exact Hr |]); intros H.
    + change (connectionState (session w) = connected) in H.
      rewrite H in Hwas. discriminate.
    + discriminate H.
Qed.

Lemma on_spawn_counterInv (b : BotId) (u ver : jsstring) (w : World) :
  counterInv w -> counterInv (on_spawn b u ver w).
Proof.
  intros Hinv. unfold on_spawn.
  destruct (attemptOf b w) as [x |]; [| exact Hinv].
  destruct (a_spawned x); [exact Hinv |].
  destruct (bot (session (with_attempt b set_spawned w))) eqn:Hb.
  - match goal with
    | |- counterInv (finish ?a ?s ?r ?m ?x) =>
        destruct (finish_frame a s r m x) as (_ & Ha & _);
        unfold counterInv; rewrite Ha
    end. cbn. split; [lia | reflexivity].
  - exact Hinv.
Qed.

Lemma step_counterInv (now : Z) (e : Event) (w w' : World) :
  counterInv w -> step now e w = Some w' -> counterInv w'.
Proof.
  intros Hinv Hstep. unfold step in Hstep.
  destruct (now <? clock w); [discriminate |].
  assert (H0 : counterInv (set_clock now w)) by exact Hinv.
  destruct e; cbn [guard] in Hstep;
    try (unfold guard in Hstep; destruct (live b (set_clock now w));
         [| discriminate]);
    try (inversion Hstep; subst w'; clear Hstep).
  - apply (counterInv_keeps _ _ H0 (connect_attempt _ _ _ _ _)).
    intros H. now apply connect_not_connected in H.
  - unfold disconnect, counterInv, stateOf.
    destruct (bot (session _)); cbn; (split; [lia | reflexivity]).
  - destruct (take_timer id (timers (set_clock now w)))
      as [[t rest] |]; [| discriminate].
    destruct (t_due t <=? now); [| discriminate].
    inversion Hstep; subst w'; clear Hstep.
    assert (H1 : counterInv (with_timers rest (set_clock now w)))
      by exact Hinv.
    destruct (t_kind t) as [args isRec | a |]; cbn [run_timer].
    + apply (counterInv_keeps _ _ H1 (executor_attempt _ _ _ _)).
      intros H.
      destruct (executor_state now args createErr
                  (with_timers rest (set_clock now w))) as [E | E];
        rewrite E in H; [exact H | discriminate].
    + apply (counterInv_keeps _ _ H1); [| apply on_timeout_state].
      unfold on_timeout. destruct (_ && _); [| reflexivity].
      match goal with
      | |- context [finish ?a ?s ?r ?m ?x] =>
          destruct (finish_frame a s r m x) as (_ & Ha & _); rewrite Ha
      end.
      destruct (bot (session _)); reflexivity.
    + unfold on_reconnect_timer.
      destruct (connectArgs (session _)); [| exact H1].
      apply (counterInv_keeps _ _ H1 (connect_attempt _ _ _ _ _)).
      intros H. now apply connect_not_connected in H.
  - exact H0.
  - apply on_spawn_counterInv, H0.
  - exact H0.
  - unfold on_message_event.
    destruct (attemptOf b (set_clock now w)); exact H0.
  - unfold on_error.
    match goal with
    | |- counterInv (finish ?a ?s ?r ?m ?x) =>
        destruct (finish_frame a s r m x) as (_ & Ha & _);
        destruct (finish_state a s r m x) as [Hs | Hs]
    end.
    + apply (counterInv_keeps _ _ H0 Ha). now rewrite Hs.
    + apply (counterInv_keeps _ _ H0 Ha). rewrite Hs. discriminate.
  - exact H0.
  - apply on_end_counterInv, H0.
Qed.

(** X2: in every run from the constructor's session the attempt counter stays
    at 0 or 1: [scheduleReconnect] is only called when the session was
    [connected], where the counter is 0. *)
Lemma attempt_counter_at_most_one (evs : list (Z * Event)) :
  forall (ws : list World),
    run evs initial = Some ws ->
    forall w, List.In w ws -> 0 <= reconnectAttempt (session w) <= 1.
Proof.
  assert (G : forall evs w0 ws, counterInv w0 -> run evs w0 = Some ws ->
                forall w, List.In w ws -> counterInv w).
  { clear evs. induction evs as [| [now e] evs IH]; intros w0 ws H0 Hrun;
      cbn in Hrun.
    - inversion Hrun; subst. intros w [].
    - destruct (step now e w0) as [w1 |] eqn:Hstep; [| discriminate].
      destruct (run evs w1) as [ws1 |] eqn:Hrun1; [| discriminate].
      inversion Hrun; subst ws.
      pose proof (step_counterInv _ _ _ _ H0 Hstep) as H1.
      intros w [<- | Hin]; [exact H1 | exact (IH w1 ws1 H1 Hrun1 w Hin)]. }
  intros ws Hrun w Hin.
  assert (Hi : counterInv initial)
    by (split; [cbn; lia | discriminate]).
  exact (proj1 (G evs initial ws Hi Hrun w Hin)).
Qed.

(** *** Frames of the operations *)






Lemma finish_timers (a : nat) (success : bool) (r : ToolResult)
    (m : jsstring) (w : World) :
  timers (finish a success r m w) = timers w
  /\ nextTimer (finish a success r m w) = nextTimer w.
Proof.
  unfold finish. destruct (resolvedOf a w); [now split |].
  destruct success; now split.
Qed.

Lemma timersGrow_same (w w' : World) :
  timers w' = timers w -> nextTimer w' = nextTimer w -> timersGrow w w'.
Proof.
  intros Ht Hn. exists []. rewrite Ht, Hn, List.app_nil_r, Nat.add_0_r.
  split; [reflexivity |]. split; [reflexivity |]. intros t [].
Qed.

Lemma timersGrow_setTimeout (now : Z) (k : TimerKind) (delay : Z)
    (w w' : World) :
  timers w' = timers w -> nextTimer w' = nextTimer w ->
  timersGrow w (setTimeout now k delay w').
Proof.
  intros Ht Hn. exists [mkTimer (nextTimer w) (now + delay) k].
  cbn. rewrite Ht, Hn. split; [reflexivity |]. split; [lia |].
  intros t [<- | []]. cbn. lia.
Qed.

Lemma timersFresh_grow (w w' : World) :
  timersFresh w -> timersGrow w w' -> timersFresh w'.
Proof.
  intros Hf (added & Ht & Hn & Hadd) t Hin. rewrite Ht in Hin.
  apply List.in_app_or in Hin as [Hin | Hin].
  - specialize (Hf t Hin). lia.
  - specialize (Hadd t Hin). lia.
Qed.

Lemma executor_grow (now : Z) (args : ConnectArgs)
    (createErr : option jsstring) (w : World) :
  timersGrow w (executor now args createErr w).
Proof.
  unfold executor. destruct createErr as [err |].
  - match goal with
    | |- context [finish ?a ?s ?r ?m ?x] =>
        destruct (finish_timers a s r m x) as [Ht Hn]
    end.
    apply timersGrow_same; [rewrite Ht | rewrite Hn]; reflexivity.
  - apply timersGrow_setTimeout; reflexivity.
Qed.

Lemma connect_grow (now : Z) (args : ConnectArgs) (isReconnect : bool)
    (createErr : option jsstring) (w : World) :
  timersGrow w (connect now args isReconnect createErr w).
Proof.
  unfold connect.
  set (w1 := if isReconnect then w else _).
  assert (H1 : timers w1 = timers w /\ nextTimer w1 = nextTimer w)
    by (subst w1; destruct isReconnect; now split).
  destruct H1 as [Ht1 Hn1]. clearbody w1.
  destruct (busy _); [apply timersGrow_same; assumption |].
  cbv zeta. destruct (bot _).
  - apply timersGrow_setTimeout; assumption.
  - match goal with
    | |- timersGrow w (executor ?n ?a ?c ?x) =>
        destruct (executor_grow n a c x) as (added & Ht & Hn & Hadd);
        exists added
    end.
    cbn [timers nextTimer with_session] in Ht, Hn, Hadd.
    rewrite Ht, Hn, Ht1, Hn1. repeat split; rewrite <- ?Hn1; auto;
      apply Hadd; assumption.
Qed.

Lemma scheduleReconnect_grow (now : Z) (w : World) :
  timersGrow w (scheduleReconnect now w).
Proof.
  unfold scheduleReconnect. destruct (_ <=? _).
  - apply timersGrow_same; reflexivity.
  - apply timersGrow_setTimeout; reflexivity.
Qed.

Lemma on_timeout_timers (a : nat) (w : World) :
  timers (on_timeout a w) = timers w
  /\ nextTimer (on_timeout a w) = nextTimer w.
Proof.
  unfold on_timeout. destruct (_ && _); [| now split].
  match goal with
  | |- context [finish ?a ?s ?r ?m ?x] =>
      destruct (finish_timers a s r m x) as [Ht Hn]; rewrite Ht, Hn
  end.
  destruct (bot _); now split.
Qed.

Lemma on_spawn_timers (b : BotId) (u ver : jsstring) (w : World) :
  timers (on_spawn b u ver w) = timers w
  /\ nextTimer (on_spawn b u ver w) = nextTimer w.
Proof.
  unfold on_spawn. destruct (attemptOf _ _); [| now split].
  destruct (a_spawned _); [now split |].
  destruct (bot _); [| now split].
  match goal with
  | |- context [finish ?a ?s ?r ?m ?x] =>
      destruct (finish_timers a s r m x) as [Ht Hn]; rewrite Ht, Hn
  end.
  now split.
Qed.

Lemma take_timer_rest (id : nat) (l : list Timer) (t : Timer)
    (rest : list Timer) :
  take_timer id l = Some (t, rest) ->
  forall t', List.In t' rest -> List.In t' l.
Proof. intros H. exact (proj2 (take_timer_In _ _ _ _ H)). Qed.

(** Every step keeps the ids of the pending timers below the next id. *)
Lemma step_timersFresh (now : Z) (e : Event) (w w' : World) :
  timersFresh w -> step now e w = Some w' -> timersFresh w'.
Proof.
  intros Hf Hstep. unfold step in Hstep.
  destruct (now <? clock w); [discriminate |].
  assert (H0 : timersFresh (set_clock now w)) by exact Hf.
  destruct e; cbn [guard] in Hstep;
    try (unfold guard in Hstep; destruct (live b (set_clock now w));
         [| discriminate]);
    try (inversion Hstep; subst w'; clear Hstep).
  - exact (timersFresh_grow _ _ H0 (connect_grow _ _ _ _ _)).
  - unfold disconnect. destruct (bot _); exact Hf.
  - destruct (take_timer id (timers (set_clock now w)))
      as [[t rest] |] eqn:Htake; [| discriminate].
    destruct (t_due t <=? now); [| discriminate].
    inversion Hstep; subst w'; clear Hstep.
    assert (H1 : timersFresh (with_timers rest (set_clock now w)))
      by (intros t' Hin; exact (Hf t' (take_timer_rest _ _ _ _ Htake t' Hin))).
    destruct (t_kind t) as [args isRec | a |]; cbn [run_timer].
    + exact (timersFresh_grow _ _ H1 (executor_grow _ _ _ _)).
    + destruct (on_timeout_timers a (with_timers rest (set_clock now w)))
        as [Ht Hn].
      intros t' Hin. rewrite Ht in Hin. rewrite Hn. exact (H1 t' Hin).
    + unfold on_reconnect_timer. destruct (connectArgs _); [| exact H1].
      exact (timersFresh_grow _ _ H1 (connect_grow _ _ _ _ _)).
  - exact Hf.
  - destruct (on_spawn_timers b botUsername botVersion (set_clock now w))
      as [Ht Hn].
    intros t' Hin. rewrite Ht in Hin. rewrite Hn. exact (Hf t' Hin).
  - exact Hf.
  - unfold on_message_event. destruct (attemptOf _ _); exact Hf.
  - unfold on_error.
    match goal with
    | |- context [finish ?a ?s ?r ?m ?x] =>
        destruct (finish_timers a s r m x) as [Ht Hn]
    end.
    intros t' Hin. rewrite Ht in Hin. rewrite Hn. exact (Hf t' Hin).
  - exact Hf.
  - unfold on_end. cbv zeta.
    set (w1 := with_session _ (with_attempt b set_ended (set_clock now w))).
    set (w2 := if resolvedOf b w1 then w1 else _).
    assert (H2 : timersFresh w2)
      by (subst w2; destruct (resolvedOf b w1); exact Hf).
    destruct (_ && _); [| exact H2].
    exact (timersFresh_grow _ _ H2 (scheduleReconnect_grow _ _)).
Qed.

Lemma last_cons_default {A} (l : list A) (a d d' : A) :
  List.last (a :: l) d = List.last (a :: l) d'.
Proof.
  revert a. induction l as [| b l IH]; intros a; [reflexivity |].
  change (List.last (b :: l) d = List.last (b :: l) d'). apply IH.
Qed.

Lemma last_cons {A} (l : list A) (a d : A) :
  List.last (a :: l) d = List.last l a.
Proof.
  destruct l as [| b l]; [reflexivity |].
  change (List.last (b :: l) d = List.last (b :: l) a).
  apply last_cons_default.
Qed.

(** What every step keeps holds in the world a run ends in. *)
Lemma run_last (P : World -> Prop) :
  (forall now e w w', P w -> step now e w = Some w' -> P w') ->
  forall evs w0 ws, P w0 -> run evs w0 = Some ws -> P (List.last ws w0).
Proof.
  intros Hstep. induction evs as [| [now e] evs IH]; intros w0 ws H0 Hrun;
    cbn in Hrun.
  - inversion Hrun; subst. exact H0.
  - destruct (step now e w0) as [w1 |] eqn:Hs; [| discriminate].
    destruct (run evs w1) as [ws1 |] eqn:Hrun1; [| discriminate].
    inversion Hrun; subst ws. rewrite last_cons.
    exact (IH w1 ws1 (Hstep _ _ _ _ H0 Hs) Hrun1).
Qed.

(** *** C2: how [connecting] and [connected] are entered *)

Lemma finish_connecting (a : nat) (success : bool) (r : ToolResult)
    (m : jsstring) (w : World) :
  stateOf (finish a success r m w) = connecting -> stateOf w = connecting.
Proof.
  destruct (finish_state a success r m w) as [-> | ->];
    [tauto | discriminate].
Qed.

Lemma executor_connecting (now : Z) (args : ConnectArgs)
    (createErr : option jsstring) (w : World) :
  stateOf (executor now args createErr w) = connecting ->
  stateOf w = connecting.
Proof.
  destruct (executor_state now args createErr w) as [-> | ->];
    [tauto | discriminate].
Qed.

(** The automatic retry never sets [connecting]. *)
Lemma retry_never_sets_connecting (now : Z) (args : ConnectArgs)
    (createErr : option jsstring) (w : World) :
  stateOf (connect now args true createErr w) = connecting ->
  stateOf w = connecting.
Proof.
  unfold connect. cbv zeta.
  destruct (busy (connectionState (session w))); [tauto |].
  set (w2 := with_session (set_connectionState reconnecting) w).
  destruct (bot (session w2)); [discriminate |].
  intros H. apply executor_connecting in H. discriminate H.
Qed.

Lemma step_enters_connecting (now : Z) (e : Event) (w w' : World) :
  step now e w = Some w' ->
  stateOf w <> connecting -> stateOf w' = connecting ->
  exists args createErr, e = CallConnect args createErr.
Proof.
  intros Hstep Hout Hin. unfold step in Hstep.
  destruct (now <? clock w); [discriminate |].
  assert (Hs0 : stateOf (set_clock now w) = stateOf w) by reflexivity.
  destruct e; cbn [guard] in Hstep;
    try (unfold guard in Hstep; destruct (live b (set_clock now w));
         [| discriminate]);
    try (inversion Hstep; subst w'; clear Hstep).
  - now exists args, createErr.
  - exfalso. unfold disconnect in Hin.
    destruct (bot (session _)) in Hin; discriminate Hin.
  - destruct (take_timer id (timers (set_clock now w)))
      as [[t rest] |]; [| discriminate].
    destruct (t_due t <=? now); [| discriminate].
    inversion Hstep; subst w'; clear Hstep. exfalso. apply Hout.
    destruct (t_kind t) as [args isRec | a |]; cbn [run_timer] in Hin.
    + exact (executor_connecting _ _ _ _ Hin).
    + unfold on_timeout in Hin. destruct (_ && _) in Hin; [| exact Hin].
      apply finish_connecting in Hin.
      destruct (bot (session _)) in Hin; exact Hin.
    + unfold on_reconnect_timer in Hin.
      destruct (connectArgs (session _)) in Hin; [| exact Hin].
      exact (retry_never_sets_connecting _ _ _ _ Hin).
  - exfalso. apply Hout, Hin.
  - exfalso. apply Hout. unfold on_spawn in Hin.
    destruct (attemptOf _ _) in Hin; [| exact Hin].
    destruct (a_spawned _) in Hin; [exact Hin |].
    destruct (bot (session _)) in Hin; [| exact Hin].
    apply finish_connecting in Hin. discriminate Hin.
  - exfalso. apply Hout, Hin.
  - exfalso. apply Hout. unfold on_message_event in Hin.
    destruct (attemptOf _ _) in Hin; exact Hin.
  - exfalso. apply Hout. unfold on_error in Hin.
    exact (finish_connecting _ _ _ _ _ Hin).
  - exfalso. apply Hout, Hin.
  - exfalso. apply Hout. unfold on_end in Hin. cbv zeta in Hin.
    destruct (_ && _) in Hin.
    + unfold scheduleReconnect in Hin.
      destruct (_ <=? _) in Hin; discriminate Hin.
    + destruct (resolvedOf _ _) in Hin; [exact Hin | discriminate Hin].
Qed.

Lemma run_connectingByCall (evs : list (Z * Event)) :
  forall (w0 : World) (ws : list World),
    run evs w0 = Some ws -> connectingByCall w0 evs ws.
Proof.
  induction evs as [| [now e] evs IH]; intros w0 ws Hrun; cbn in Hrun.
  - inversion Hrun; subst. exact I.
  - destruct (step now e w0) as [w1 |] eqn:Hstep; [| discriminate].
    destruct (run evs w1) as [ws1 |] eqn:Hrun1; [| discriminate].
    inversion Hrun; subst ws. cbn. split.
    + exact (step_enters_connecting now e w0 w1 Hstep).
    + exact (IH w1 ws1 Hrun1).
Qed.

(** C2, amended: along every run from the constructor's state the session
    is at each moment in exactly one of the four states; every step that
    enters [connected] is the [spawn] of a bot that was created and has not
    ended; and every step that enters [connecting] is an explicit [connect]
    call, so that no retry passes through [connecting].  The state from
    which [connected] is entered is not always [connecting]: on [raceTrace]
    it is [connecting] for the explicit call and [reconnecting] for the
    retry, and on [noisyTrace], where the bot reports an error before it
    spawns, it is [disconnected]. *)
Theorem C2_state_machine (evs : list (Z * Event)) (ws : list World)
    (Hrun : run evs initial = Some ws) :
  (forall w, List.In w (initial :: ws) -> exactlyOne (stateOf w))
  /\ entersBySpawn initial evs ws
  /\ connectingByCall initial evs ws
  /\ entriesOf raceTrace = [connecting; reconnecting]
  /\ entriesOf noisyTrace = [disconnected].
Proof.
  split; [intros w _; apply exactlyOne_always |].
  split; [exact (run_enters_connected_by_spawn evs initial ws Hrun) |].
  split; [exact (run_connectingByCall evs initial ws Hrun) |].
  split; vm_compute; reflexivity.
Qed.

Lemma C2_state_machine_witness :
  (forall w,
      List.In w (initial :: match run raceTrace initial with
                            | Some l => l | None => [] end) ->
      exactlyOne (stateOf w))
  /\ entersBySpawn initial raceTrace
       (match run raceTrace initial with Some l => l | None => [] end)
  /\ connectingByCall initial raceTrace
       (match run raceTrace initial with Some l => l | None => [] end)
  /\ entriesOf raceTrace = [connecting; reconnecting]
  /\ entriesOf noisyTrace = [disconnected].
Proof.
  apply (C2_state_machine raceTrace). vm_compute. reflexivity.
Defined.

(** *** C1: the delays of the retries a run schedules *)







(** *** C5: the retry loop as the session runs it *)

Lemma step_stalled (now : Z) (e : Event) (w w' : World) :
  stalled w -> isCallDisconnect e = false -> step now e w = Some w' ->
  stalled w'
  /\ attempts w' = attempts w
  /\ reconnectAttempt (session w') = reconnectAttempt (session w)
  /\ (forall t, List.In t (timers w') -> List.In t (timers w))
  /\ forall o, List.In o (outputs w') ->
               List.In o (outputs w) \/ o = busyReconnecting.
Proof.
  intros (Hst & Hlive & Ht) He Hstep.
  destruct w as [s ats tms nt outs clk].
  destruct s as [bt md log st creds reason cnt mx base].
  unfold stateOf in Hst. cbn in Hst. subst st.
  unfold step in Hstep. cbn [clock] in Hstep.
  destruct (now <? clk); [discriminate |].
  assert (Hlive' : forall b,
             live b (set_clock now
                       (mkWorld (mkSession bt md log reconnecting creds reason
                                   cnt mx base) ats tms nt outs clk))
             = false) by exact Hlive.
  destruct e; cbn [isCallDisconnect] in He; try discriminate He;
    cbn [guard] in Hstep;
    try (unfold guard in Hstep; rewrite Hlive' in Hstep; discriminate Hstep).
  - inversion Hstep; subst w'; clear Hstep.
    unfold connect. cbn.
    split; [split; [reflexivity | split; [exact Hlive | exact Ht]] |].
    split; [reflexivity |]. split; [reflexivity |]. split; [tauto |].
    intros o Hin. apply List.in_app_or in Hin as [Hin | [<- | []]];
      [now left | right; reflexivity].
  - cbn [timers set_clock] in Hstep.
    destruct (take_timer id tms) as [[t rest] |] eqn:Htake;
      [| discriminate].
    destruct (t_due t <=? now); [| discriminate].
    inversion Hstep; subst w'; clear Hstep.
    destruct (take_timer_In _ _ _ _ Htake) as [Hin Hrest].
    assert (Ht' : forall t', List.In t' rest ->
               t_kind t' = TReconnect
               \/ exists a, t_kind t' = TTimeout a
                            /\ resolvedOf a
                                 (mkWorld (mkSession bt md log reconnecting
                                             creds reason cnt mx base)
                                    ats tms nt outs clk) = true)
      by (intros t' Hin'; exact (Ht t' (Hrest t' Hin'))).
    destruct (Ht t Hin) as [Hk | (a & Hk & Hres)]; rewrite Hk;
      cbn [run_timer].
    + unfold on_reconnect_timer. cbn.
      destruct creds as [args |].
      * unfold connect. cbn.
        split; [split; [reflexivity | split; [exact Hlive | exact Ht']] |].
        split; [reflexivity |]. split; [reflexivity |].
        split; [exact Hrest |].
        intros o Ho. apply List.in_app_or in Ho as [Ho | [<- | []]];
          [now left | right; reflexivity].
      * split; [split; [reflexivity | split; [exact Hlive | exact Ht']] |].
        split; [reflexivity |]. split; [reflexivity |].
        split; [exact Hrest |].
        intros o Ho. now left.
    + unfold on_timeout.
      change (resolvedOf a
                (with_timers rest
                   (set_clock now
                      (mkWorld (mkSession bt md log reconnecting creds reason
                                  cnt mx base) ats tms nt outs clk))))
        with (resolvedOf a
                (mkWorld (mkSession bt md log reconnecting creds reason cnt
                            mx base) ats tms nt outs clk)).
      rewrite Hres. cbn [negb andb].
      split; [split; [reflexivity | split; [exact Hlive | exact Ht']] |].
      split; [reflexivity |]. split; [reflexivity |].
      split; [exact Hrest |].
      intros o Ho. now left.
Qed.

Lemma lostWorld_stalled : stalled lostWorld.
Proof.
  split; [vm_compute; reflexivity |]. split.
  - intros b. unfold live, attemptOf.
    remember (attempts lostWorld) as l eqn:E. vm_compute in E. subst l.
    destruct b as [| [| b]]; reflexivity.
  - intros t Hin.
    remember (timers lostWorld) as l eqn:E. vm_compute in E. subst l.
    destruct Hin as [<- | [<- | []]]; [right | left; reflexivity].
    exists O. split; [reflexivity | vm_compute; reflexivity].
Qed.

(** C5, as the code runs it: once a lost connection has left the session
    waiting for its retry, nothing short of [disconnect] moves it.  The
    retry timer calls [connect] while the state is still [reconnecting] and
    is answered with the busy text, as is every explicit [connect]; no bot
    is created and no timer is set, the counter stays where it is, and the
    state stays [reconnecting]: there is no second attempt, the budget is
    never used up, and the session does not become [disconnected]. *)
Theorem C5_retry_loop_stalls (w : World) (evs : list (Z * Event))
    (ws : list World)
    (Hstalled : stalled w)
    (Hevs : List.forallb (fun p => negb (isCallDisconnect (snd p))) evs
            = true)
    (Hrun : run evs w = Some ws) :
  forall w', List.In w' ws ->
    stateOf w' = reconnecting
    /\ attempts w' = attempts w
    /\ reconnectAttempt (session w') = reconnectAttempt (session w)
    /\ (forall b, live b w' = false)
    /\ (forall t, List.In t (timers w') -> List.In t (timers w))
    /\ forall o, List.In o (outputs w') ->
                 List.In o (outputs w) \/ o = busyReconnecting.
Proof.
  revert w ws Hstalled Hevs Hrun.
  induction evs as [| [now e] evs IH]; intros w ws Hs Hevs Hrun;
    cbn in Hrun, Hevs.
  - inversion Hrun; subst. intros w' [].
  - apply andb_true_iff in Hevs as [He Hevs]. apply negb_true_iff in He.
    destruct (step now e w) as [w1 |] eqn:Hstep; [| discriminate].
    destruct (run evs w1) as [ws1 |] eqn:Hrun1; [| discriminate].
    inversion Hrun; subst ws.
    destruct (step_stalled _ _ _ _ Hs He Hstep)
      as (Hs1 & Ha1 & Hc1 & Ht1 & Ho1).
    intros w' [<- | Hin].
    + destruct Hs1 as (Hst1 & Hl1 & _). repeat split; assumption.
    + destruct (IH w1 ws1 Hs1 Hevs Hrun1 w' Hin)
        as (Hst' & Ha' & Hc' & Hl' & Ht' & Ho').
      split; [exact Hst' |]. split; [congruence |]. split; [congruence |].
      split; [exact Hl' |]. split; [intros t Hin'; exact (Ht1 t (Ht' t Hin')) |].
      intros o Ho. destruct (Ho' o Ho) as [Hold | ->]; [| now right].
      exact (Ho1 o Hold).
Qed.

Lemma C5_retry_loop_stalls_witness :
  List.Forall
    (fun w' =>
       stateOf w' = reconnecting
       /\ attempts w' = attempts lostWorld
       /\ reconnectAttempt (session w') = reconnectAttempt (session lostWorld)
       /\ (forall b, live b w' = false)
       /\ (forall t, List.In t (timers w') -> List.In t (timers lostWorld))
       /\ forall o, List.In o (outputs w') ->
                    List.In o (outputs lostWorld) \/ o = busyReconnecting)
    (match run afterLoss lostWorld with Some l => l | None => [] end).
Proof.
  apply List.Forall_forall.
  apply (C5_retry_loop_stalls lostWorld afterLoss).
  - exact lostWorld_stalled.
  - vm_compute. reflexivity.
  - vm_compute. reflexivity.
Defined.

(** *** C10: a [connect] while connected *)

Lemma take_timer_last (id : nat) (l : list Timer) (due : Z) (k : TimerKind) :
  (forall t, List.In t l -> (t_id t < id)%nat) ->
  take_timer id (l ++ [mkTimer id due k]) = Some (mkTimer id due k, l).
Proof.
  induction l as [| x l IH]; intros H; cbn.
  - rewrite Nat.eqb_refl. reflexivity.
  - pose proof (H x (or_introl eq_refl)) as Hx.
    destruct (Nat.eqb_spec (t_id x) id) as [E | _]; [lia |].
    rewrite IH by (intros t Ht; apply H; now right). reflexivity.
Qed.

Lemma nth_error_last {A} (l : list A) (x : A) :
  List.nth_error (l ++ [x]) (List.length l) = Some x.
Proof.
  rewrite List.nth_error_app2, Nat.sub_diag by lia. reflexivity.
Qed.

Lemma update_nth_last {A} (f : A -> A) (l : list A) (x : A) :
  update_nth (List.length l) f (l ++ [x]) = l ++ [f x].
Proof. induction l as [| y l IH]; cbn; [reflexivity | now rewrite IH]. Qed.

Lemma executor_established (st : ConnState) (at_ : Z) (args : ConnectArgs)
    (createErr : option jsstring) (w1 w : World) :
  stateOf w = st -> bot (session w) = None ->
  attempts w = attempts w1 -> outputs w = outputs w1 ->
  nextTimer w = nextTimer w1 ->
  established st at_ args createErr (timers w) w1
    (executor at_ args createErr w).
Proof.
  intros Hst Hbot Ha Ho Hn. unfold stateOf in Hst.
  unfold established, executor. cbv zeta. rewrite <- Ha, <- Ho, <- Hn.
  destruct createErr as [err |].
  - unfold finish, resolvedOf, with_attempt, with_attempts, emit,
      with_session, stateOf. cbn.
    rewrite nth_error_last. cbn. rewrite update_nth_last.
    repeat split. exact Hbot.
  - unfold live, attemptOf, setTimeout, emit, with_session, with_attempts,
      stateOf. cbn. rewrite nth_error_last.
    repeat split. exact Hst.
Qed.

Lemma executor_connectArgs (now : Z) (args : ConnectArgs)
    (createErr : option jsstring) (w : World) :
  connectArgs (session (executor now args createErr w))
  = connectArgs (session w).
Proof.
  unfold executor. destruct createErr as [err |]; [| reflexivity].
  unfold finish. destruct (resolvedOf _ _); reflexivity.
Qed.

Lemma executor_returns_nothing (now : Z) (args : ConnectArgs)
    (createErr : option jsstring) (w : World) (r : ToolResult) :
  List.In (OReturn r) (outputs (executor now args createErr w)) ->
  List.In (OReturn r) (outputs w).
Proof.
  unfold executor. destruct createErr as [err |].
  - unfold finish. destruct (resolvedOf _ _); [tauto |]. cbn.
    intros Hin. apply List.in_app_or in Hin as [Hin | [Hin | []]];
      [exact Hin | discriminate Hin].
  - cbn. intros Hin. apply List.in_app_or in Hin as [Hin | [Hin | []]];
      [exact Hin | discriminate Hin].
Qed.

Lemma finish_waiting (a : nat) (success : bool) (r : ToolResult)
    (m : jsstring) (w0 w : World) :
  waiting w0 w -> success = false -> waiting w0 (finish a success r m w).
Proof.
  intros Hw ->. unfold finish. destruct (resolvedOf a w); [exact Hw |].
  destruct Hw as (Hb & Hs & Ht & Hn & Hc).
  repeat split; try assumption. discriminate.
Qed.

Lemma step_waiting (now : Z) (e : Event) (w0 w w' : World) :
  isBotEvent e = true -> waiting w0 w -> step now e w = Some w' ->
  waiting w0 w'.
Proof.
  intros He Hw Hstep. unfold step in Hstep.
  destruct (now <? clock w); [discriminate |].
  assert (H0 : waiting w0 (set_clock now w)) by exact Hw.
  destruct e; cbn [isBotEvent] in He; try discriminate He;
    cbn [guard] in Hstep;
    (unfold guard in Hstep; destruct (live b (set_clock now w));
     [| discriminate]);
    inversion Hstep; subst w'; clear Hstep.
  - exact H0.
  - unfold on_spawn. destruct (attemptOf _ _); [| exact H0].
    destruct (a_spawned _); [exact H0 |].
    destruct H0 as (Hb & H0).
    cbn [bot session with_attempt with_attempts]. rewrite Hb.
    split; [exact Hb | exact H0].
  - exact H0.
  - unfold on_message_event. destruct (attemptOf _ _); exact H0.
  - unfold on_error. apply finish_waiting; [exact H0 | reflexivity].
  - exact H0.
  - unfold on_end. cbv zeta.
    destruct H0 as (Hb & Hs & Ht & Hn & Hc).
    destruct (ConnState_eqb (connectionState (session (set_clock now w)))
                connected) eqn:Hwas.
    + exfalso. apply Hs. unfold stateOf.
      destruct (connectionState (session (set_clock now w)));
        try discriminate Hwas; reflexivity.
    + cbn [andb]. destruct (resolvedOf b _);
        repeat split; try assumption; discriminate.
Qed.

Lemma run_waiting (evs : list (Z * Event)) :
  forall (w0 w : World) (ws : list World),
    List.forallb (fun p => isBotEvent (snd p)) evs = true ->
    waiting w0 w -> run evs w = Some ws -> waiting w0 (List.last ws w).
Proof.
  induction evs as [| [now e] evs IH]; intros w0 w ws Hevs Hw Hrun;
    cbn in Hrun, Hevs.
  - inversion Hrun; subst. exact Hw.
  - apply andb_true_iff in Hevs as [He Hevs].
    destruct (step now e w) as [w1 |] eqn:Hs; [| discriminate].
    destruct (run evs w1) as [ws1 |] eqn:Hrun1; [| discriminate].
    inversion Hrun; subst ws. rewrite last_cons.
    exact (IH w0 w1 ws1 Hevs (step_waiting _ _ _ _ _ He Hw Hs) Hrun1).
Qed.

(** The attempts and the outputs of the wait are whatever the bots made of
    them; the executor only adds to them. *)
Lemma fire_cleanup (later : Z) (args : ConnectArgs) (isReconnect : bool)
    (createErr : option jsstring) (id : nat) (due : Z) (pending : list Timer)
    (w : World) :
  timers w = pending ++ [mkTimer id due (TCleanup args isReconnect)] ->
  (forall t, List.In t pending -> (t_id t < id)%nat) ->
  clock w <= later -> due <= later ->
  step later (Fire id createErr) w
  = Some (executor later args createErr
            (with_timers pending (set_clock later w))).
Proof.
  intros Ht Hfresh Hclock Hdue. unfold step.
  destruct (Z.ltb_spec later (clock w)) as [Hlt | _]; [lia |].
  cbn [timers set_clock]. rewrite Ht, (take_timer_last id pending _ _ Hfresh).
  cbn [t_due t_kind].
  destruct (Z.leb_spec due later) as [_ | Hgt]; [| lia].
  reflexivity.
Qed.

(** C10: in every run from the constructor's state that ends [connected],
    a [connect] is a step that is not answered with the busy text.  It
    stores its arguments as the credentials; with a bot in the session it
    sets [connecting], quits the bot, forgets it and waits 500 ms, and
    whatever the bots emit during the wait, its expiry is a step that
    creates a fresh bot with the options of the new arguments and sets its
    30 s timeout (or, when [createBot] throws, rejects and leaves the
    session [disconnected]); with no bot in the session the same is done at
    once. *)
Theorem C10_connect_while_connected (evs : list (Z * Event))
    (ws : list World) (now later : Z) (args : ConnectArgs)
    (createErr : option jsstring)
    (Hrun : run evs initial = Some ws)
    (Hstate : stateOf (List.last ws initial) = connected)
    (Hnow : clock (List.last ws initial) <= now)
    (Hlater : now + 500 <= later) :
  reconnectsAfresh now later args createErr (List.last ws initial).
Proof.
  assert (Hfresh : timersFresh (List.last ws initial)).
  { apply (run_last timersFresh step_timersFresh evs initial ws);
      [intros t [] | exact Hrun]. }
  destruct (List.last ws initial) as [s ats tms nt outs clk].
  destruct s as [bt md log st creds reason cnt mx base].
  unfold stateOf in Hstate. cbn in Hstate, Hnow. subst st.
  unfold timersFresh in Hfresh. cbn in Hfresh.
  unfold reconnectsAfresh, step. cbn [clock].
  destruct (Z.ltb_spec now clk) as [Hlt | _]; [lia |].
  eexists. split; [reflexivity |].
  destruct bt as [b |].
  - set (w1 := mkWorld (mkSession None md log connecting
                          (Some (withDefaults args)) reason cnt mx base)
                 ats
                 (tms ++ [mkTimer nt (now + 500)
                            (TCleanup (withDefaults args) false)])
                 (S nt) (outs ++ [OQuit b]) now).
    match goal with
    | |- context [connect now args false createErr ?W] =>
        change (connect now args false createErr W) with w1
    end.
    cbn [bot session timers nextTimer outputs attempts].
    split; [reflexivity |]. split.
    { intros r Hin. apply List.in_app_or in Hin as [Hin | [Hin | []]];
        [exact Hin | discriminate Hin]. }
    split; [reflexivity |]. split; [reflexivity |]. split; [reflexivity |].
    split; [reflexivity |]. split; [reflexivity |].
    intros meantime ws1 Hbots Hrun1 Hclock.
    assert (Hw : waiting w1 w1)
      by (repeat split; discriminate).
    pose proof (run_waiting meantime w1 w1 ws1 Hbots Hw Hrun1)
      as (Hb' & Hs' & Ht' & Hn' & Hc').
    set (w' := List.last ws1 w1) in *.
    exists (executor later (withDefaults args) createErr
              (with_timers tms (set_clock later w'))).
    split.
    { apply (fire_cleanup later (withDefaults args) false createErr nt
               (now + 500) tms w');
        [exact Ht' | exact Hfresh | exact Hclock | exact Hlater]. }
    split; [rewrite executor_connectArgs; exact Hc' |].
    exact (executor_established (stateOf w') later (withDefaults args)
             createErr w' (with_timers tms (set_clock later w'))
             eq_refl Hb' eq_refl eq_refl eq_refl).
  - set (wm := mkWorld (mkSession None md log connecting
                          (Some (withDefaults args)) reason cnt mx base)
                 ats tms nt outs now).
    match goal with
    | |- context [connect now args false createErr ?W] =>
        change (connect now args false createErr W)
          with (executor now (withDefaults args) createErr wm)
    end.
    split; [rewrite executor_connectArgs; reflexivity |].
    split; [intros r; apply executor_returns_nothing |].
    cbn [bot session].
    match goal with
    | |- established _ _ _ _ _ ?w1 _ =>
        exact (executor_established connecting now (withDefaults args)
                 createErr w1 wm eq_refl eq_refl eq_refl eq_refl eq_refl)
    end.
Qed.

Lemma C10_connect_while_connected_witness :
  reconnectsAfresh 5000 5500 otherArgs None
    (List.last (match run spawnedTrace initial with
                | Some l => l | None => [] end) initial).
Proof.
  apply (C10_connect_while_connected spawnedTrace _ 5000 5500 otherArgs None).
  - vm_compute. reflexivity.
  - vm_compute. reflexivity.
  - vm_compute. discriminate.
  - lia.
Defined.

End SessionManager.

(* ===================================================================== *)
(** ** Properties of the message classifier *)
(* ===================================================================== *)

Section MessageClassifier.

(** C6: with a capture window open, the message "You don't have permission
    to build in Bob's claim" adds exactly one entry, the message itself, to
    the captured denial messages, whatever its channel tag, the chat log and
    the time of the last sign placement. *)
Theorem C6_denial_always_captured (now : Z) (position : Position)
    (chatLog : list LogEntry) (signPlacementTime : Z)
    (denialMessages : list jsstring) :
  snd (emit_message now denialText position
         (chatLog, signPlacementTime, denialMessages))
  = denialMessages ++ [denialText].
Proof.
  unfold emit_message, Actions.onMessage. cbn [snd].
  replace (isDenial denialText) with true by (vm_compute; reflexivity).
  reflexivity.
Qed.

(** C7: the notice "Bob placed a sign @ world: x1, z2" on an informational
    channel, followed less than 500 ms later by "  Hello", adds nothing to
    the chat log and nothing to the captured denial messages. *)
Theorem C7_sign_placement_suppressed (t1 t2 : Z) (p1 p2 : Position)
    (chatLog : list LogEntry) (signPlacementTime : Z)
    (denialMessages : list jsstring)
    (Hp1 : p1 = pos_system \/ p1 = pos_game_info)
    (Hwithin : t2 - t1 < 500) :
  emit_message t1 signNotice p1 (chatLog, signPlacementTime, denialMessages)
  = (chatLog, t1, denialMessages)
  /\ emit_message t2 signLine p2 (chatLog, t1, denialMessages)
     = (chatLog, t1, denialMessages).
Proof.
  assert (Hd1 : isDenial signNotice = false) by (vm_compute; reflexivity).
  assert (Hd2 : isDenial signLine = false) by (vm_compute; reflexivity).
  assert (Hs1 : re_sign_placement signNotice = true)
    by (vm_compute; reflexivity).
  assert (Ht1 : nonEmpty (trim signNotice) = true) by (vm_compute; reflexivity).
  assert (Ht2 : nonEmpty (trim signLine) = true) by (vm_compute; reflexivity).
  assert (Hs2 : re_sign_placement signLine = false)
    by (vm_compute; reflexivity).
  assert (Hc2 : re_sign_content signLine && (len signLine <? 50) = true)
    by (vm_compute; reflexivity).
  assert (Hlt : (t2 - t1 <? 500) = true) by (apply Z.ltb_lt; exact Hwithin).
  unfold emit_message, Actions.onMessage, on_message. cbn [fst snd].
  rewrite Hd1, Hd2, Hs1, Hs2, Ht1, Ht2, Hlt. cbn [negb].
  apply andb_true_iff in Hc2 as [Hc2 Hl2]. rewrite Hc2, Hl2. cbn [andb].
  split.
  - destruct Hp1 as [-> | ->]; reflexivity.
  - destruct p2; reflexivity.
Qed.

Lemma C7_sign_placement_suppressed_witness :
  emit_message 1000 signNotice pos_system
    ([LogChat (js "Alice") (js "hi") 900], 0, [])
  = ([LogChat (js "Alice") (js "hi") 900], 1000, [])
  /\ emit_message 1499 signLine pos_game_info
       ([LogChat (js "Alice") (js "hi") 900], 1000, [])
     = ([LogChat (js "Alice") (js "hi") 900], 1000, []).
Proof.
  apply (C7_sign_placement_suppressed 1000 1499 pos_system pos_game_info).
  - left. reflexivity.
  - lia.
Defined.

(** The rewritten line that repeats a chat event less than a second old is
    not dropped: it falls through to the system entry. *)
Lemma duplicate_falls_through (now : Z) (msgText user message : jsstring)
    (chatLog : list LogEntry) (signPlacementTime : Z) :
  nonEmpty (trim msgText) = true ->
  re_sign_placement msgText = false ->
  ((now - signPlacementTime <? 500) && re_sign_content msgText
   && (len msgText <? 50)) = false ->
  (re_arrow msgText || re_whisper msgText || re_bracket_arrow msgText) = false ->
  match_chat msgText = Some (user, message) ->
  isDuplicate now user message chatLog = true ->
  on_message now msgText pos_system chatLog signPlacementTime
  = (push_log chatLog (LogSystem msgText pos_system now), signPlacementTime).
Proof.
  intros Ht Hs Hc Hw Hm Hd. unfold on_message.
  rewrite Ht, Hs, Hc, Hw, Hm. cbn. rewrite Hd. reflexivity.
Qed.

(** C3, on the code: the chat event (Alice, "hi") followed 10 ms later by
    the system-channel line "Alice: hi" leaves two entries in the chat log,
    the chat entry and a system entry for the rewritten line. *)
Theorem C3_duplicate_logged_as_system :
  let log1 := on_chat 0 (js "Alice") (js "hi") [] in
  log1 = [LogChat (js "Alice") (js "hi") 0]
  /\ match_chat (js "Alice: hi") = Some (js "Alice", js "hi")
  /\ isDuplicate 10 (js "Alice") (js "hi") log1 = true
  /\ on_message 10 (js "Alice: hi") pos_system log1 0
     = ([LogChat (js "Alice") (js "hi") 0;
         LogSystem (js "Alice: hi") pos_system 10], 0).
Proof.
  cbv zeta. repeat split; vm_compute; reflexivity.
Qed.

End MessageClassifier.

(* ===================================================================== *)
(** ** Properties of the protected actions *)
(* ===================================================================== *)

Section ProtectedActions.

Lemma eqb_refl (s : jsstring) : Js.eqb s s = true.
Proof. induction s; cbn; [reflexivity | now rewrite N.eqb_refl]. Qed.

Lemma eqb_eq (a b : jsstring) : Js.eqb a b = true -> a = b.
Proof.
  revert b. induction a as [| x a IH]; destruct b as [| y b]; cbn;
    try discriminate; [reflexivity |].
  intros H. apply andb_true_iff in H as [Hx Hab].
  apply N.eqb_eq in Hx. f_equal; [exact Hx | apply IH, Hab].
Qed.




End ProtectedActions.

(* ===================================================================== *)
(** ** Properties of the claim lookup *)
(* ===================================================================== *)

Section ClaimLookup.

Import Claims.

Ltac branches :=
  repeat match goal with
         | |- context [if ?b then _ else _] => destruct b eqn:?
         end.

Lemma onMessage_core_congr (c c' : ClaimInfo) (text : jsstring) :
  core c = core c' -> core (onMessage c text) = core (onMessage c' text).
Proof.
  unfold core. intros H. inversion H as [[H1 H2 H3 H4 H5 H6]].
  unfold onMessage. branches; cbn; rewrite ?H1, ?H2, ?H3, ?H4, ?H5, ?H6;
    reflexivity.
Qed.

Lemma onMessage_unrelated (c : ClaimInfo) (text : jsstring) :
  related text = false -> core (onMessage c text) = core c.
Proof.
  unfold related, noClaim, claimLine. intros H.
  repeat match goal with
         | Hx : (_ || _) = false |- _ =>
             apply orb_false_iff in Hx; destruct Hx
         end.
  unfold onMessage.
  repeat match goal with
         | Hx : includes _ text = false |- _ => rewrite Hx; clear Hx
         end.
  cbn. branches; reflexivity.
Qed.

Lemma fold_core (window : list jsstring) :
  forall c c', core c = core c' ->
    core (List.fold_left onMessage window c)
    = core (List.fold_left onMessage (List.filter related window) c').
Proof.
  induction window as [| text window IH]; intros c c' H; cbn.
  - exact H.
  - destruct (related text) eqn:Hr; cbn.
    + apply IH, onMessage_core_congr, H.
    + apply IH. rewrite onMessage_unrelated by exact Hr. exact H.
Qed.

Lemma onMessage_keeps_unclaimed (c : ClaimInfo) (text : jsstring) :
  claimed c = false -> noClaim text = true \/ claimLine text = false ->
  claimed (onMessage c text) = false.
Proof.
  intros Hc [Hn | Hl]; unfold onMessage.
  - unfold noClaim in Hn. rewrite Hn. reflexivity.
  - unfold claimLine in Hl.
    repeat match goal with
           | Hx : (_ || _) = false |- _ =>
               apply orb_false_iff in Hx; destruct Hx
           end.
    repeat match goal with
           | Hx : includes _ text = false |- _ => rewrite Hx; clear Hx
           end.
    cbn. branches; cbn; first [reflexivity | assumption].
Qed.

Lemma onMessage_claimed (c : ClaimInfo) (text : jsstring) :
  claimed (onMessage c text)
  = if related text then negb (noClaim text) else claimed c.
Proof.
  unfold related. destruct (noClaim text) eqn:Hn; cbn [orb negb].
  - unfold onMessage. unfold noClaim in Hn. rewrite Hn. reflexivity.
  - destruct (claimLine text) eqn:Hl.
    + unfold onMessage. unfold noClaim in Hn. rewrite Hn.
      unfold claimLine in Hl. branches; cbn; try reflexivity;
        repeat match goal with
               | Hx : _ = false |- _ => rewrite Hx in Hl
               end;
        discriminate Hl.
    + unfold onMessage. unfold noClaim in Hn. rewrite Hn.
      unfold claimLine in Hl.
      repeat match goal with
             | Hx : (_ || _) = false |- _ =>
                 apply orb_false_iff in Hx; destruct Hx
             end.
      repeat match goal with
             | Hx : includes _ text = false |- _ => rewrite Hx; clear Hx
             end.
      cbn. branches; reflexivity.
Qed.

Lemma fold_claimed (window : list jsstring) :
  forall c,
    claimed (List.fold_left onMessage window c)
    = match lastRelated window with
      | Some text => negb (noClaim text)
      | None => claimed c
      end.
Proof.
  induction window as [| text window IH]; intros c; cbn [List.fold_left
                                                          lastRelated].
  - reflexivity.
  - rewrite IH. destruct (lastRelated window); [reflexivity |].
    rewrite onMessage_claimed. destruct (related text); reflexivity.
Qed.

Lemma lastRelated_none (window : list jsstring) :
  (forall text, List.In text window -> related text = false) ->
  lastRelated window = None.
Proof.
  induction window as [| text window IH]; intros H; cbn [lastRelated];
    [reflexivity |].
  rewrite IH by (intros t Ht; apply H; now right).
  rewrite (H text (or_introl eq_refl)). reflexivity.
Qed.

(** C9, as the specification words it, fails.  A window that contains the
    lines "Owner: Alice" and "Builders: Bob, Carol" yields claimed = false
    when a later message, here a chat line, contains "Wilderness"; and a
    window that contains an explicit no-claim phrase yields claimed = true
    when a later message names the managers. *)
Lemma C9_later_message_decides :
  (List.In ownerLine chattedWindow /\ List.In buildersLine chattedWindow
   /\ claimed (checkClaimStatus chattedWindow) = false)
  /\ (List.In (js "No claim exists here.") mixedWindow
      /\ claimed (checkClaimStatus mixedWindow) = true).
Proof.
  repeat split; vm_compute; auto.
Qed.

(** C9, amended.  The listener reads a message by the phrases it contains:
    "No claim exists" and "Wilderness" say that there is no claim, and
    "owner:", "Owner:", "Managers:", "Builders:", "Containers:" and
    "Accessors:" say that there is one.  The result has claimed = true
    exactly when the last message of the window that contains any of these
    phrases contains none of the first two; the messages that contain none
    of the phrases change neither [claimed] nor the owner nor the lists of
    names, and a window of such messages only yields claimed = false; and a
    window whose messages with such phrases are "Owner: Alice" and
    "Builders: Bob, Carol", in either order, yields claimed = true,
    owner = "Alice" and builders = ["Bob", "Carol"]. *)
Theorem C9_claim_lookup_by_phrases (window : list jsstring) :
  claimed (checkClaimStatus window)
  = match lastRelated window with
    | Some text => negb (noClaim text)
    | None => false
    end
  /\ core (checkClaimStatus window)
     = core (checkClaimStatus (List.filter related window))
  /\ ((forall text, List.In text window -> related text = false) ->
      claimed (checkClaimStatus window) = false)
  /\ (List.filter related window = [ownerLine; buildersLine]
      \/ List.filter related window = [buildersLine; ownerLine] ->
      claimed (checkClaimStatus window) = true
      /\ owner (checkClaimStatus window) = Some (js "Alice")
      /\ builders (checkClaimStatus window) = [js "Bob"; js "Carol"]).
Proof.
  pose proof (fold_claimed window emptyClaimInfo) as Hlast.
  split; [exact Hlast |].
  assert (Hcore : core (checkClaimStatus window)
                  = core (checkClaimStatus (List.filter related window)))
    by exact (fold_core window emptyClaimInfo emptyClaimInfo eq_refl).
  split; [exact Hcore |].
  split.
  { intros Hnone. unfold checkClaimStatus. rewrite Hlast.
    rewrite (lastRelated_none window Hnone). reflexivity. }
  intros Hlines.
  assert (H : core (checkClaimStatus window)
              = (true, Some (js "Alice"), [js "Bob"; js "Carol"], [], [], [])).
  { rewrite Hcore. destruct Hlines as [-> | ->]; vm_compute; reflexivity. }
  unfold core in H. inversion H. repeat split; reflexivity.
Qed.

Lemma C9_claim_lookup_by_phrases_witness :
  let window := [js "Steve joined the game"; ownerLine;
                 js "That command is not recognized"; buildersLine] in
  lastRelated window = Some buildersLine
  /\ claimed (checkClaimStatus window) = true
  /\ owner (checkClaimStatus window) = Some (js "Alice")
  /\ builders (checkClaimStatus window) = [js "Bob"; js "Carol"].
Proof.
  cbv zeta. split; [vm_compute; reflexivity |].
  apply C9_claim_lookup_by_phrases. left. vm_compute. reflexivity.
Defined.

End ClaimLookup.

(* ===================================================================== *)
(** ** Further properties: strings and patterns *)
(* ===================================================================== *)

Section Strings.

Lemma startsWith_app (p rest : jsstring) : startsWith p (p ++ rest) = true.
Proof.
  induction p as [| c p IH]; cbn; [reflexivity |].
  rewrite N.eqb_refl. exact IH.
Qed.

Lemma startsWith_inv (p s : jsstring) :
  startsWith p s = true -> s = p ++ List.skipn (List.length p) s.
Proof.
  revert s. induction p as [| c p IH]; intros s H; cbn in *.
  - reflexivity.
  - destruct s as [| d s]; [discriminate |].
    apply andb_true_iff in H as [Hc Hp]. apply N.eqb_eq in Hc. subst d.
    cbn. f_equal. apply IH, Hp.
Qed.

Lemma includes_intro (needle pre post : jsstring) :
  includes needle (pre ++ needle ++ post) = true.
Proof.
  induction pre as [| c pre IH]; cbn.
  - destruct (needle ++ post) eqn:E; cbn.
    + destruct needle; [reflexivity | discriminate].
    + rewrite <- E, startsWith_app. reflexivity.
  - rewrite IH. apply orb_true_r.
Qed.

Lemma includes_inv (needle s : jsstring) :
  includes needle s = true -> exists pre post, s = pre ++ needle ++ post.
Proof.
  induction s as [| c s IH]; cbn; intros H.
  - rewrite orb_false_r in H. apply startsWith_inv in H.
    exists [], (List.skipn (List.length needle) []). exact H.
  - apply orb_true_iff in H as [H | H].
    + apply startsWith_inv in H.
      exists [], (List.skipn (List.length needle) (c :: s)). exact H.
    + destruct (IH H) as (pre & post & ->). now exists (c :: pre), post.
Qed.

(** A needle found in a text is found in every text around it. *)
Lemma includes_around (needle s pre post : jsstring) :
  includes needle s = true -> includes needle (pre ++ s ++ post) = true.
Proof.
  intros H. destruct (includes_inv _ _ H) as (a & b & ->).
  replace (pre ++ (a ++ needle ++ b) ++ post)
    with ((pre ++ a) ++ needle ++ (b ++ post))
    by (repeat rewrite <- List.app_assoc; reflexivity).
  apply includes_intro.
Qed.

(** A needle with a prefix cut off is found wherever the needle is. *)
Lemma includes_suffix (a b s : jsstring) :
  includes (a ++ b) s = true -> includes b s = true.
Proof.
  intros H. destruct (includes_inv _ _ H) as (pre & post & ->).
  replace (pre ++ (a ++ b) ++ post) with ((pre ++ a) ++ b ++ post)
    by (repeat rewrite <- List.app_assoc; reflexivity).
  apply includes_intro.
Qed.

(** *** The matcher combinators *)

Lemma uptoCap_complete {A} (cls : N -> bool) (u : jsstring) :
  forall (n : nat) (acc rest : jsstring)
         (k : jsstring -> jsstring -> option A) (x : A),
    List.forallb cls u = true -> (List.length u <= n)%nat ->
    match rest with c :: _ => cls c = false | [] => True end ->
    k (List.rev acc ++ u) rest = Some x ->
    uptoCap cls n acc k (u ++ rest) = Some x.
Proof.
  induction u as [| c u IH]; intros n acc rest k x Hu Hn Hrest Hk.
  - rewrite List.app_nil_r in Hk. cbn.
    destruct n; cbn; [exact Hk |].
    destruct rest as [| d rest]; [exact Hk |]. rewrite Hrest. exact Hk.
  - cbn in Hu. apply andb_true_iff in Hu as [Hc Hu].
    destruct n as [| n]; [cbn in Hn; lia |]. cbn. rewrite Hc.
    rewrite (IH n (c :: acc) rest k x Hu); [reflexivity | cbn in Hn; lia
                                           | exact Hrest |].
    cbn. rewrite <- List.app_assoc. exact Hk.
Qed.

Lemma uptoCap_sound {A} (cls : N -> bool) (n : nat) :
  forall (acc s : jsstring) (k : jsstring -> jsstring -> option A) (x : A),
    uptoCap cls n acc k s = Some x ->
    exists u rest, s = u ++ rest /\ List.forallb cls u = true
                   /\ (List.length u <= n)%nat
                   /\ k (List.rev acc ++ u) rest = Some x.
Proof.
  induction n as [| n IH]; intros acc s k x H; cbn in H.
  - exists [], s. rewrite List.app_nil_r. repeat split; auto.
  - assert (Hstop : k (List.rev acc) s = Some x ->
                    exists u rest, s = u ++ rest /\ List.forallb cls u = true
                                   /\ (List.length u <= S n)%nat
                                   /\ k (List.rev acc ++ u) rest = Some x).
    { intros Hk. exists [], s. rewrite List.app_nil_r.
      repeat split; auto. cbn. lia. }
    destruct s as [| c s]; [auto |].
    destruct (cls c) eqn:Hc; [| auto].
    destruct (uptoCap cls n (c :: acc) k s) as [y |] eqn:Hrec; cbn in H.
    + inversion H; subst y.
      destruct (IH _ _ _ _ Hrec) as (u & rest & -> & Hu & Hn & Hk).
      exists (c :: u), rest. cbn. rewrite Hc, Hu. repeat split; [lia |].
      cbn in Hk. rewrite <- List.app_assoc in Hk. exact Hk.
    + auto.
Qed.

Lemma starCap_complete {A} (cls : N -> bool) (m : jsstring) :
  forall (acc : jsstring) (k : jsstring -> jsstring -> option A) (x : A),
    List.forallb cls m = true ->
    k (List.rev acc ++ m) [] = Some x ->
    starCap cls acc k m = Some x.
Proof.
  induction m as [| c m IH]; intros acc k x Hm Hk.
  - rewrite List.app_nil_r in Hk. exact Hk.
  - cbn in Hm. apply andb_true_iff in Hm as [Hc Hm]. cbn. rewrite Hc.
    rewrite (IH (c :: acc) k x Hm); [reflexivity |].
    cbn. rewrite <- List.app_assoc. exact Hk.
Qed.

Lemma starCap_sound {A} (cls : N -> bool) (s : jsstring) :
  forall (acc : jsstring) (k : jsstring -> jsstring -> option A) (x : A),
    starCap cls acc k s = Some x ->
    exists m rest, s = m ++ rest /\ List.forallb cls m = true
                   /\ k (List.rev acc ++ m) rest = Some x.
Proof.
  induction s as [| c s IH]; intros acc k x H; cbn in H.
  - exists [], []. repeat split. rewrite List.app_nil_r. exact H.
  - assert (Hstop : k (List.rev acc) (c :: s) = Some x ->
                    exists m rest, c :: s = m ++ rest
                                   /\ List.forallb cls m = true
                                   /\ k (List.rev acc ++ m) rest = Some x).
    { intros Hk. exists [], (c :: s). rewrite List.app_nil_r.
      repeat split; auto. }
    destruct (cls c) eqn:Hc; [| auto].
    destruct (starCap cls (c :: acc) k s) as [y |] eqn:Hrec; cbn in H.
    + inversion H; subst y.
      destruct (IH _ _ _ Hrec) as (m & rest & -> & Hm & Hk).
      exists (c :: m), rest. cbn. rewrite Hc, Hm. repeat split.
      cbn in Hk. rewrite <- List.app_assoc in Hk. exact Hk.
    + auto.
Qed.

Lemma match_chat_iff (msgText user message : jsstring) :
  match_chat msgText = Some (user, message)
  <-> (msgText = user ++ js ": " ++ message
       /\ List.forallb isWord user = true
       /\ (3 <= List.length user <= 16)%nat
       /\ message <> []
       /\ List.forallb notLT message = true).
Proof.
  unfold match_chat. split.
  - intros H. apply uptoCap_sound in H
      as (u & rest & -> & Hu & Hn & Hk). cbn [List.rev List.app] in Hk.
    destruct (3 <=? List.length u)%nat eqn:H3; [| discriminate].
    apply Nat.leb_le in H3. unfold lit in Hk.
    destruct (startsWith (js ": ") rest) eqn:Hs; [| discriminate].
    apply startsWith_inv in Hs.
    apply starCap_sound in Hk as (m & rest' & Hm & Hcls & Hk).
    cbn [List.rev List.app] in Hk.
    destruct (nonEmpty m) eqn:Hne; [| discriminate].
    destruct rest' as [| ? ?]; [| discriminate]. cbn in Hk.
    inversion Hk; subst. rewrite List.app_nil_r in Hm.
    rewrite Hm in Hs. repeat split; try lia; try assumption.
    + rewrite Hs. reflexivity.
    + intros ->. discriminate.
  - intros (-> & Hu & [H3 H16] & Hne & Hm).
    apply uptoCap_complete; [exact Hu | exact H16 | reflexivity |].
    cbn [List.rev List.app].
    apply Nat.leb_le in H3. rewrite H3. unfold lit.
    rewrite startsWith_app. rewrite List.skipn_app, List.skipn_all,
      Nat.sub_diag. cbn [List.skipn List.app].
    apply starCap_complete; [exact Hm |]. cbn [List.rev List.app].
    destruct message; [contradiction | reflexivity].
Qed.

(** X3: the line [user: message] is read back as its two parts exactly when
    the user is 3 to 16 characters of [[A-Za-z0-9_]] and the message is not
    empty and holds no line terminator; nothing else matches. *)
Theorem match_chat_spec (msgText user message : jsstring) :
  match_chat msgText = Some (user, message)
  <-> (msgText = user ++ js ": " ++ message
       /\ List.forallb isWord user = true
       /\ (3 <= List.length user <= 16)%nat
       /\ message <> []
       /\ List.forallb notLT message = true).
Proof. exact (match_chat_iff msgText user message). Qed.

End Strings.

(* ===================================================================== *)
(** ** Further properties: the chat log *)
(* ===================================================================== *)

Section ChatLog.

Lemma push_log_bound (chatLog : list LogEntry) (e : LogEntry) :
  (List.length chatLog <= 100)%nat ->
  (List.length (push_log chatLog e) <= 100)%nat.
Proof.
  intros H. unfold push_log.
  destruct (100 <? Z.of_nat (List.length (chatLog ++ [e]))) eqn:E.
  - destruct chatLog as [| x l]; cbn in *; [lia |].
    rewrite List.length_app. cbn. rewrite List.length_app in E. cbn in E. lia.
  - apply Z.ltb_ge in E. lia.
Qed.

Lemma on_message_bound (now : Z) (msgText : jsstring) (position : Position)
    (chatLog : list LogEntry) (signPlacementTime : Z) :
  (List.length chatLog <= 100)%nat ->
  (List.length (fst (on_message now msgText position chatLog
                       signPlacementTime)) <= 100)%nat.
Proof.
  intros H. unfold on_message.
  repeat match goal with
         | |- context [match ?x with _ => _ end] => destruct x
         end; cbn [fst]; try exact H; apply push_log_bound, H.
Qed.

Ltac frame :=
  repeat match goal with
         | |- context [match ?x with _ => _ end] => destruct x
         end; try reflexivity.

Lemma finish_log (a : nat) (success : bool) (r : ToolResult) (m : jsstring)
    (w : World) :
  chatLog (session (finish a success r m w)) = chatLog (session w).
Proof. unfold finish. frame. Qed.

Lemma executor_log (now : Z) (args : ConnectArgs)
    (createErr : option jsstring) (w : World) :
  chatLog (session (executor now args createErr w)) = chatLog (session w).
Proof.
  unfold executor. destruct createErr; [| reflexivity].
  rewrite finish_log. reflexivity.
Qed.

Lemma connect_log (now : Z) (args : ConnectArgs) (isReconnect : bool)
    (createErr : option jsstring) (w : World) :
  chatLog (session (connect now args isReconnect createErr w))
  = chatLog (session w).
Proof.
  unfold connect.
  destruct (busy _); [destruct isReconnect; reflexivity |].
  destruct (bot _); [destruct isReconnect; reflexivity |].
  rewrite executor_log. destruct isReconnect; reflexivity.
Qed.

Lemma scheduleReconnect_log (now : Z) (w : World) :
  chatLog (session (scheduleReconnect now w)) = chatLog (session w).
Proof. unfold scheduleReconnect. frame. Qed.

Lemma step_log (now : Z) (e : Event) (w w' : World) :
  step now e w = Some w' ->
  chatLog (session w') = chatLog (session w)
  \/ (exists b user message,
         e = BotChat b user message
         /\ chatLog (session w') = on_chat now user message (chatLog (session w)))
  \/ (exists b msgText position spt,
         e = BotMessage b msgText position
         /\ chatLog (session w')
            = fst (on_message now msgText position (chatLog (session w)) spt)).
Proof.
  intros Hstep. unfold step in Hstep.
  destruct (now <? clock w); [discriminate |].
  destruct e; cbn [guard] in Hstep;
    try (unfold guard in Hstep; destruct (live b (set_clock now w));
         [| discriminate]);
    try (inversion Hstep; subst w'; clear Hstep).
  - left. rewrite connect_log. reflexivity.
  - left. unfold disconnect. frame.
  - destruct (take_timer id (timers (set_clock now w)))
      as [[t rest] |]; [| discriminate].
    destruct (t_due t <=? now); [| discriminate].
    inversion Hstep; subst w'; clear Hstep. left.
    destruct (t_kind t) as [args isRec | a |]; cbn [run_timer].
    + rewrite executor_log. reflexivity.
    + unfold on_timeout. destruct (_ && _); [| reflexivity].
      rewrite finish_log. destruct (bot _); reflexivity.
    + unfold on_reconnect_timer. destruct (connectArgs _); [| reflexivity].
      rewrite connect_log. reflexivity.
  - left. reflexivity.
  - left. unfold on_spawn. destruct (attemptOf _ _); [| reflexivity].
    destruct (a_spawned _); [reflexivity |].
    destruct (bot _); [| reflexivity]. rewrite finish_log. reflexivity.
  - right. left. exists b, user, message. split; reflexivity.
  - unfold on_message_event.
    destruct (attemptOf b (set_clock now w)) as [x |]; [| now left].
    right. right. eexists _, _, _, (a_signPlacementTime x).
    split; reflexivity.
  - left. unfold on_error. rewrite finish_log. reflexivity.
  - left. reflexivity.
  - left. unfold on_end.
    destruct (_ && _); [rewrite scheduleReconnect_log |];
      destruct (resolvedOf _ _); reflexivity.
Qed.

(** X4: the chat log never holds more than 100 entries, whatever the bots and
    the callers do. *)
Theorem chatLog_bounded (evs : list (Z * Event)) (ws : list World) :
  run evs initial = Some ws ->
  forall w, List.In w ws -> (List.length (chatLog (session w)) <= 100)%nat.
Proof.
  assert (G : forall evs w0 ws,
             (List.length (chatLog (session w0)) <= 100)%nat ->
             run evs w0 = Some ws ->
             forall w, List.In w ws ->
                       (List.length (chatLog (session w)) <= 100)%nat).
  { clear evs ws. induction evs as [| [now e] evs IH]; intros w0 ws H0 Hrun;
      cbn in Hrun.
    - inversion Hrun; subst. intros w [].
    - destruct (step now e w0) as [w1 |] eqn:Hstep; [| discriminate].
      destruct (run evs w1) as [ws1 |] eqn:Hrun1; [| discriminate].
      inversion Hrun; subst ws.
      assert (H1 : (List.length (chatLog (session w1)) <= 100)%nat).
      { destruct (step_log _ _ _ _ Hstep)
          as [-> | [(b & u & m & _ & ->) | (b & t & p & spt & _ & ->)]].
        - exact H0.
        - apply push_log_bound, H0.
        - apply on_message_bound, H0. }
      intros w [<- | Hin]; [exact H1 | exact (IH w1 ws1 H1 Hrun1 w Hin)]. }
  intros Hrun. apply (G evs initial ws); [cbn; lia | exact Hrun].
Qed.

Lemma chatLog_bounded_witness :
  List.Forall (fun w => (List.length (chatLog (session w)) <= 100)%nat)
    (match run chattyTrace initial with Some l => l | None => [] end).
Proof.
  apply List.Forall_forall.
  apply (chatLog_bounded chattyTrace). vm_compute. reflexivity.
Defined.

(** X5: what a [message] event can add to the chat log: nothing; or the whole
    text as one system entry; or, on the system channel only, one chat entry
    for a line [user: message] that repeats no chat entry of the last second.
    A blank text, a sign-placement notice and a private message add nothing. *)
Theorem on_message_logs (now : Z) (msgText : jsstring) (position : Position)
    (chatLog : list LogEntry) (signPlacementTime : Z) :
  let after := fst (on_message now msgText position chatLog
                      signPlacementTime) in
  (nonEmpty (trim msgText) = false \/ re_sign_placement msgText = true
   \/ re_arrow msgText = true \/ re_whisper msgText = true
   \/ re_bracket_arrow msgText = true -> after = chatLog)
  /\ (after = chatLog
      \/ after = push_log chatLog (LogSystem msgText position now)
      \/ exists user message,
           after = push_log chatLog (LogChat user message now)
           /\ position = pos_system
           /\ msgText = user ++ js ": " ++ message
           /\ isDuplicate now user message chatLog = false).
Proof.
  cbv zeta. unfold on_message. split.
  - intros H. destruct position; [reflexivity | |];
      (destruct (nonEmpty (trim msgText)); cbn [negb]; [| reflexivity];
       destruct (re_sign_placement msgText); [reflexivity |];
       destruct (_ && _ && _); [reflexivity |];
       destruct (re_arrow msgText); [reflexivity |];
       destruct (re_whisper msgText); [reflexivity |];
       destruct (re_bracket_arrow msgText); [reflexivity |];
       destruct H as [H | [H | [H | [H | H]]]]; discriminate H).
  - destruct position; [now left | |];
      (destruct (negb _); [now left |];
       destruct (re_sign_placement msgText); [now left |];
       destruct (_ && _ && _); [now left |];
       destruct (_ || _ || _); [now left |]).
    + destruct (match_chat msgText) as [[user message] |] eqn:Hm;
        [| right; now left].
      cbn [Position_eqb].
      destruct (isDuplicate now user message chatLog) eqn:Hd; cbn [negb fst];
        [right; now left |].
      right. right. exists user, message.
      apply match_chat_iff in Hm as (Hm & _). now repeat split.
    + destruct (match_chat msgText) as [[user message] |];
        right; now left.
Qed.

End ChatLog.

(* ===================================================================== *)
(** ** Further properties: denial messages and the claim lookup *)
(* ===================================================================== *)

Section Denials.

Lemma capture_from (window acc : list jsstring) :
  List.fold_left Actions.onMessage window acc
  = acc ++ List.filter Actions.isDenial window.
Proof.
  revert acc. induction window as [| m window IH]; intros acc; cbn.
  - now rewrite List.app_nil_r.
  - rewrite IH. unfold Actions.onMessage.
    destruct (Actions.isDenial m); [| reflexivity].
    now rewrite <- List.app_assoc.
Qed.

(** X6: the listener of a capture window keeps exactly the messages that pass
    the denial test, each once, in the order of arrival. *)
Theorem capture_is_filter (window : list jsstring) :
  capture window = List.filter Actions.isDenial window.
Proof. unfold capture. apply capture_from. Qed.

Lemma toLowerCase_app (a b : jsstring) :
  toLowerCase (a ++ b) = toLowerCase a ++ toLowerCase b.
Proof. unfold toLowerCase. apply List.map_app. Qed.

(** X7: text before or after a denial never hides it: a message that contains
    a denial is a denial. *)
Theorem isDenial_around (raw pre post : jsstring) :
  Actions.isDenial raw = true -> Actions.isDenial (pre ++ raw ++ post) = true.
Proof.
  unfold Actions.isDenial. cbv zeta. rewrite !toLowerCase_app.
  set (t := toLowerCase raw). set (a := toLowerCase pre).
  set (b := toLowerCase post). intros H.
  assert (M : forall n, includes n t = true -> includes n (a ++ t ++ b) = true)
    by (intros n; apply includes_around).
  repeat match type of H with
         | (_ || _) = true => apply orb_true_iff in H; destruct H as [H | H]
         end;
    repeat match type of H with
           | (_ && _) = true => apply andb_true_iff in H; destruct H as [H H']
           end.
  - rewrite (M _ H), (M _ H'). reflexivity.
  - rewrite (M _ H). now rewrite !orb_true_r.
  - rewrite (M _ H). now rewrite !orb_true_r.
  - rewrite (M _ H). apply orb_true_iff in H' as [H' | H'];
      rewrite (M _ H'); now rewrite !orb_true_r.
  - rewrite (M _ H). now rewrite !orb_true_r.
  - rewrite (M _ H). now rewrite !orb_true_r.
Qed.

Lemma isDenial_around_witness :
  Actions.isDenial
    (js "[GriefPrevention] " ++ js "That belongs to Alice." ++ js " Sorry!")
  = true.
Proof.
  apply (isDenial_around (js "That belongs to Alice.")
           (js "[GriefPrevention] ") (js " Sorry!")).
  vm_compute. reflexivity.
Defined.

(** X8: the listeners of [interactEntity] and [mountEntity] test five phrases,
    those of [placeBlock] and [breakBlock] a sixth, "that belongs to"; the two
    tests accept the same messages. *)
Theorem denial_tests_agree (raw : jsstring) :
  Entities.isDenial raw = Actions.isDenial raw.
Proof.
  unfold Entities.isDenial, Actions.isDenial. cbv zeta.
  set (t := toLowerCase raw).
  destruct (includes (js "that belongs to") t) eqn:H.
  - assert (Hb : includes (js "belongs to") t = true)
      by (apply (includes_suffix (js "that ") (js "belongs to")); exact H).
    rewrite Hb. now rewrite !orb_true_r.
  - now rewrite orb_false_r.
Qed.

End Denials.

Section ClaimLookupMore.

Import Claims.

Lemma onMessage_raw (c : ClaimInfo) (text : jsstring) :
  raw_messages (onMessage c text) = raw_messages c ++ [text].
Proof.
  unfold onMessage.
  repeat match goal with
         | |- context [if ?b then _ else _] => destruct b
         end; reflexivity.
Qed.

(** X9: the result of a lookup lists every message of its window, in order,
    whether the message was understood or not. *)
Theorem lookup_keeps_every_message (window : list jsstring) :
  raw_messages (checkClaimStatus window) = window.
Proof.
  unfold checkClaimStatus.
  assert (G : forall l c, raw_messages (List.fold_left onMessage l c)
                          = raw_messages c ++ l).
  { induction l as [| t l IH]; intros c; cbn.
    - now rewrite List.app_nil_r.
    - rewrite IH, onMessage_raw, <- List.app_assoc. reflexivity. }
  apply G.
Qed.

Lemma trimStart_head (s : jsstring) :
  match trimStart s with c :: _ => isSpace c = false | [] => True end.
Proof.
  induction s as [| c s IH]; cbn; [exact I |].
  destruct (isSpace c) eqn:E; [exact IH | exact E].
Qed.

Lemma trimStart_suffix (s : jsstring) :
  exists pre, s = pre ++ trimStart s.
Proof.
  induction s as [| c s IH]; cbn; [now exists [] |].
  destruct (isSpace c); [| now exists []].
  destruct IH as [pre H]. exists (c :: pre). cbn. now f_equal.
Qed.

Lemma trimStart_fixed (s : jsstring) :
  match s with c :: _ => isSpace c = false | [] => True end ->
  trimStart s = s.
Proof. destruct s as [| c s]; cbn; [reflexivity | intros ->; reflexivity]. Qed.

(** [trim] leaves neither a leading nor a trailing white space. *)
Lemma trim_ends (s : jsstring) :
  match trim s with c :: _ => isSpace c = false | [] => True end
  /\ match List.rev (trim s) with c :: _ => isSpace c = false | [] => True end.
Proof.
  unfold trim. set (t := trimStart s).
  pose proof (trimStart_head s) as Ht. fold t in Ht.
  set (q := trimStart (List.rev t)).
  pose proof (trimStart_head (List.rev t)) as Hq. fold q in Hq.
  destruct (trimStart_suffix (List.rev t)) as [pre Hpre]. fold q in Hpre.
  split; [| rewrite List.rev_involutive; exact Hq].
  destruct q as [| c q'] eqn:Eq; [exact I |].
  assert (Hrev : t = List.rev (c :: q') ++ List.rev pre)
    by (rewrite <- List.rev_app_distr, <- Hpre, List.rev_involutive;
        reflexivity).
  destruct (List.rev (c :: q')) as [| d r] eqn:Er.
  - apply (f_equal (@List.length N)) in Er. rewrite List.length_rev in Er.
    discriminate Er.
  - rewrite Hrev in Ht. exact Ht.
Qed.

Lemma trim_idempotent (s : jsstring) : trim (trim s) = trim s.
Proof.
  destruct (trim_ends s) as [Hh Hl]. unfold trim at 1.
  rewrite (trimStart_fixed _ Hh), (trimStart_fixed _ Hl).
  apply List.rev_involutive.
Qed.

Lemma trimStart_forall (P : N -> bool) (s : jsstring) :
  List.forallb P s = true -> List.forallb P (trimStart s) = true.
Proof.
  induction s as [| c s IH]; cbn; [reflexivity |].
  intros H. apply andb_true_iff in H as [Hc Hs].
  destruct (isSpace c); [apply IH, Hs | cbn; now rewrite Hc, Hs].
Qed.

Lemma forallb_rev (P : N -> bool) (s : jsstring) :
  List.forallb P (List.rev s) = List.forallb P s.
Proof.
  induction s as [| c s IH]; cbn; [reflexivity |].
  rewrite List.forallb_app, IH. cbn. rewrite andb_true_r. apply andb_comm.
Qed.

Lemma trim_forall (P : N -> bool) (s : jsstring) :
  List.forallb P s = true -> List.forallb P (trim s) = true.
Proof.
  intros H. unfold trim. rewrite forallb_rev. apply trimStart_forall.
  rewrite forallb_rev. apply trimStart_forall, H.
Qed.

Lemma split_comma_aux_pieces (s : jsstring) :
  forall cur, List.forallb notComma cur = true ->
    List.Forall (fun piece => List.forallb notComma piece = true)
      (split_comma_aux cur s).
Proof.
  induction s as [| c s IH]; intros cur Hcur; cbn.
  - constructor; [| constructor]. now rewrite forallb_rev.
  - destruct (N.eqb c 44) eqn:E.
    + constructor; [now rewrite forallb_rev | now apply IH].
    + apply IH. cbn. unfold notComma at 1. now rewrite E, Hcur.
Qed.

(** X10: the names read from a list line are never empty, carry no white space
    at either end and hold no comma. *)
Theorem names_are_clean (group name : jsstring) :
  List.In name (names group) ->
  name <> [] /\ trim name = name /\ List.forallb notComma name = true.
Proof.
  unfold names. intros H. apply List.filter_In in H as [Hin Hne].
  apply List.in_map_iff in Hin as (piece & <- & Hpiece).
  repeat split.
  - intros E. rewrite E in Hne. discriminate.
  - apply trim_idempotent.
  - apply trim_forall.
    pose proof (split_comma_aux_pieces group [] eq_refl) as F.
    rewrite List.Forall_forall in F. exact (F piece Hpiece).
Qed.

Lemma names_are_clean_witness :
  js "Carol" <> [] /\ trim (js "Carol") = js "Carol"
  /\ List.forallb notComma (js "Carol") = true.
Proof.
  apply (names_are_clean (js " Bob ,, Carol  , ") (js "Carol")).
  vm_compute. right. left. reflexivity.
Defined.

End ClaimLookupMore.

(* ===================================================================== *)
(** ** Further properties: building and signs *)
(* ===================================================================== *)

Section Building.

Lemma rankOf_past (ranks : list jsstring) (nm : jsstring) :
  forall i b, (b <= i)%nat -> rankOf ranks i (Some b) nm = None.
Proof.
  induction ranks as [| r ranks IH]; intros i b Hb; cbn [rankOf belowRank];
    [reflexivity |].
  assert (E : (i <? b)%nat = false) by (apply Nat.ltb_ge; exact Hb).
  rewrite E, andb_false_r. apply IH. lia.
Qed.

Lemma rankOf_below (ranks : list jsstring) (nm : jsstring) :
  forall i b,
    rankOf ranks i (Some b) nm =
    match rankOf ranks i None nm with
    | Some j => if (j <? b)%nat then Some j else None
    | None => None
    end.
Proof.
  induction ranks as [| r ranks IH]; intros i b; cbn [rankOf belowRank];
    [reflexivity |].
  destruct (includes r nm); cbn [andb].
  - destruct (i <? b)%nat eqn:E; [reflexivity |].
    apply rankOf_past. apply Nat.ltb_ge in E. lia.
  - apply IH.
Qed.

Lemma pickStep_best (toolType : jsstring) (seen : list Item)
    (acc : option Item * option nat) (item : Item) :
  bestSoFar toolType seen acc ->
  bestSoFar toolType (seen ++ [item]) (pickStep toolType acc item).
Proof.
  intros H. unfold pickStep.
  assert (Hold : forall t', List.In t' seen -> List.In t' (seen ++ [item]))
    by (intros; apply List.in_or_app; now left).
  assert (Hnew : List.In item (seen ++ [item]))
    by (apply List.in_or_app; right; now left).
  destruct (includes toolType (itemName item)) eqn:Hinc; cbn [negb].
  - destruct acc as [[t |] [r |]]; cbn [snd]; unfold bestSoFar in *;
      try contradiction.
    + rewrite rankOf_below. fold (materialOf (itemName item)).
      destruct H as (Hin & Ht & Hr & Hmin).
      destruct (materialOf (itemName item)) as [j |] eqn:Hj.
      * destruct (j <? r)%nat eqn:Hlt.
        -- apply Nat.ltb_lt in Hlt. repeat split; auto.
           intros t' r' Hin' Ht' Hr'.
           apply List.in_app_or in Hin' as [Hin' | [<- | []]].
           ++ specialize (Hmin t' r' Hin' Ht' Hr'). lia.
           ++ rewrite Hj in Hr'. inversion Hr'. lia.
        -- apply Nat.ltb_ge in Hlt. repeat split; auto.
           intros t' r' Hin' Ht' Hr'.
           apply List.in_app_or in Hin' as [Hin' | [<- | []]].
           ++ exact (Hmin t' r' Hin' Ht' Hr').
           ++ rewrite Hj in Hr'. inversion Hr'. lia.
      * repeat split; auto.
        intros t' r' Hin' Ht' Hr'.
        apply List.in_app_or in Hin' as [Hin' | [<- | []]].
        -- exact (Hmin t' r' Hin' Ht' Hr').
        -- rewrite Hj in Hr'. discriminate.
    + fold (materialOf (itemName item)).
      destruct (materialOf (itemName item)) as [j |] eqn:Hj.
      * repeat split; auto.
        intros t' r' Hin' Ht' Hr'.
        apply List.in_app_or in Hin' as [Hin' | [<- | []]].
        -- exfalso. exact (H t' r' Hin' Ht' Hr').
        -- rewrite Hj in Hr'. inversion Hr'. lia.
      * intros t' r' Hin' Ht' Hr'.
        apply List.in_app_or in Hin' as [Hin' | [<- | []]].
        -- exact (H t' r' Hin' Ht' Hr').
        -- rewrite Hj in Hr'. discriminate.
  - destruct acc as [[t |] [r |]]; unfold bestSoFar in *; try contradiction.
    + destruct H as (Hin & Ht & Hr & Hmin). repeat split; auto.
      intros t' r' Hin' Ht' Hr'.
      apply List.in_app_or in Hin' as [Hin' | [<- | []]].
      * exact (Hmin t' r' Hin' Ht' Hr').
      * rewrite Hinc in Ht'. discriminate.
    + intros t' r' Hin' Ht' Hr'.
      apply List.in_app_or in Hin' as [Hin' | [<- | []]].
      * exact (H t' r' Hin' Ht' Hr').
      * rewrite Hinc in Ht'. discriminate.
Qed.

Lemma pickTool_best (toolType : jsstring) (items : list Item) :
  forall seen acc,
    bestSoFar toolType seen acc ->
    bestSoFar toolType (seen ++ items) (pickTool toolType items acc).
Proof.
  induction items as [| item items IH]; intros seen acc H.
  - rewrite List.app_nil_r. exact H.
  - replace (seen ++ item :: items) with ((seen ++ [item]) ++ items)
      by (rewrite <- List.app_assoc; reflexivity).
    change (pickTool toolType (item :: items) acc)
      with (pickTool toolType items (pickStep toolType acc item)).
    apply IH, pickStep_best, H.
Qed.

(** X11: the tool [findBestTool] returns is an inventory item whose name
    contains the tool type chosen for the block, and no inventory item of that
    tool type is of a better material. *)
Theorem findBestTool_is_best (items : list Item) (block : Block)
    (tool : Item) :
  findBestTool items block = Some tool ->
  exists toolType rank,
    toolTypeFor block = Some toolType
    /\ List.In tool items
    /\ includes toolType (itemName tool) = true
    /\ materialOf (itemName tool) = Some rank
    /\ forall other rank', List.In other items ->
         includes toolType (itemName other) = true ->
         materialOf (itemName other) = Some rank' -> (rank <= rank')%nat.
Proof.
  unfold findBestTool, toolTypeFor. intros H.
  destruct items as [| i0 items0] eqn:Ei; [discriminate |]. rewrite <- Ei in *.
  destruct (List.find _ toolTypes) as [[toolType patterns] |];
    [| discriminate].
  assert (B : bestSoFar toolType ([] ++ items)
                (pickTool toolType items (None, None)))
    by (apply pickTool_best; intros ? ? []).
  change (fst (pickTool toolType items (None, None)) = Some tool) in H.
  cbn [List.app] in B.
  destruct (pickTool toolType items (None, None)) as [[t |] [r |]];
    unfold bestSoFar in B; cbn [fst] in H; try contradiction;
    try discriminate.
  inversion H; subst t. destruct B as (Hin & Ht & Hr & Hmin).
  exists toolType, r. repeat split; auto.
Qed.

Lemma findBestTool_is_best_witness :
  exists toolType rank,
    toolTypeFor (mkBlock (js "stone") (js "block") (mkVec3 0 0 0) None)
    = Some toolType
    /\ List.In (mkItem (js "iron_pickaxe") 1 3)
         [mkItem (js "stone_pickaxe") 1 1; mkItem (js "diamond_sword") 1 2;
          mkItem (js "iron_pickaxe") 1 3]
    /\ includes toolType (js "iron_pickaxe") = true
    /\ materialOf (js "iron_pickaxe") = Some rank
    /\ forall other rank',
         List.In other
           [mkItem (js "stone_pickaxe") 1 1; mkItem (js "diamond_sword") 1 2;
            mkItem (js "iron_pickaxe") 1 3] ->
         includes toolType (itemName other) = true ->
         materialOf (itemName other) = Some rank' -> (rank <= rank')%nat.
Proof.
  apply (findBestTool_is_best
           [mkItem (js "stone_pickaxe") 1 1; mkItem (js "diamond_sword") 1 2;
            mkItem (js "iron_pickaxe") 1 3]
           (mkBlock (js "stone") (js "block") (mkVec3 0 0 0) None)
           (mkItem (js "iron_pickaxe") 1 3)).
  vm_compute. reflexivity.
Defined.

(** *** place_block *)

Lemma faceMap_inv (face : jsstring) (offset faceVec : Vec3) :
  faceMap face = Some (offset, faceVec) ->
  offset = neg faceVec /\ unitVector faceVec.
Proof.
  unfold faceMap.
  repeat match goal with
         | |- context [if ?b then _ else _] => destruct b
         end; intros H; inversion H; split; reflexivity.
Qed.

Lemma findReference_inv (blockAt : Vec3 -> option Block) (targetPos : Vec3)
    (dirs : list jsstring) (blk : Block) (faceVec : Vec3) :
  findReference blockAt targetPos dirs = Some (blk, faceVec) ->
  blockAt (plus targetPos (neg faceVec)) = Some blk
  /\ Js.eqb (boundingBox blk) (js "block") = true
  /\ unitVector faceVec.
Proof.
  induction dirs as [| dir dirs IH]; cbn [findReference]; [discriminate |].
  destruct (faceMap dir) as [[offset fv] |] eqn:Hf; [| exact IH].
  destruct (blockAt (plus targetPos offset)) as [b |] eqn:Hb; [| exact IH].
  destruct (Js.eqb (boundingBox b) (js "block")) eqn:Hs; [| exact IH].
  intros H. inversion H; subst.
  destruct (faceMap_inv _ _ _ Hf) as [-> Hu]. now repeat split.
Qed.

Lemma referenceOf_inv (blockAt : Vec3 -> option Block) (targetPos : Vec3)
    (face : jsstring) (blk : Block) (faceVec : Vec3) :
  referenceOf blockAt targetPos face = inl (blk, faceVec) ->
  blockAt (plus targetPos (neg faceVec)) = Some blk
  /\ Js.eqb (boundingBox blk) (js "block") = true
  /\ unitVector faceVec.
Proof.
  unfold referenceOf. destruct (Js.eqb face (js "auto")).
  - destruct (findReference _ _ _) as [[b fv] |] eqn:Hf; [| discriminate].
    intros H. inversion H; subst. exact (findReference_inv _ _ _ _ _ Hf).
  - destruct (faceMap face) as [[offset fv] |] eqn:Hf; [| discriminate].
    destruct (blockAt (plus targetPos offset)) as [b |] eqn:Hb;
      [| discriminate].
    destruct (Js.eqb (boundingBox b) (js "block")) eqn:Hs; [| discriminate].
    intros H. inversion H; subst.
    destruct (faceMap_inv _ _ _ Hf) as [-> Hu]. now repeat split.
Qed.

(** X12: [placeBlock] asks the bot to place a block only against a solid block
    next to the target, on the face that looks at the target, and only when
    the target itself is not solid and the item is in the inventory. *)
Theorem placeBlock_places_against_solid (s : Session) (env : PlaceEnv)
    (block_name : jsstring) (targetPos : Vec3) (face : jsstring)
    (reference faceVector : Vec3) :
  List.In (EPlaceBlock reference faceVector)
    (snd (placeBlock s env block_name targetPos face)) ->
  isSolid (pe_blockAt env targetPos) = false
  /\ unitVector faceVector
  /\ (exists blk,
        pe_blockAt env (plus targetPos (neg faceVector)) = Some blk
        /\ Js.eqb (boundingBox blk) (js "block") = true
        /\ reference = position blk)
  /\ exists item, List.In item (pe_items env) /\ itemName item = block_name.
Proof.
  unfold placeBlock.
  destruct (requireBot s); [intros [] |].
  destruct (List.find _ (pe_items env)) as [item |] eqn:Hitem; [| intros []].
  assert (Hitem' : List.In item (pe_items env) /\ itemName item = block_name).
  { apply List.find_some in Hitem as [Hin Heq]. split; [exact Hin |].
    apply eqb_eq, Heq. }
  destruct (pe_equip env); [intros [H | []]; discriminate H |].
  destruct (isSolid (pe_blockAt env targetPos)) eqn:Hsolid;
    [intros [H | []]; discriminate H |].
  destruct (referenceOf _ _ _) as [[blk fv] | msg] eqn:Href;
    [| intros [H | []]; discriminate H].
  apply referenceOf_inv in Href as (Hb & Hs & Hu).
  assert (G : List.In (EPlaceBlock reference faceVector)
                [EEquip (itemName item) (js "hand");
                 EPlaceBlock (position blk) fv;
                 EChat Claims.trustlist] ->
              isSolid (pe_blockAt env targetPos) = false
              /\ unitVector faceVector
              /\ (exists blk0,
                    pe_blockAt env (plus targetPos (neg faceVector)) = Some blk0
                    /\ Js.eqb (boundingBox blk0) (js "block") = true
                    /\ reference = position blk0)
              /\ exists item, List.In item (pe_items env)
                              /\ itemName item = block_name).
  { intros [H | [H | [H | []]]]; try discriminate H.
    inversion H; subst. repeat split; auto.
    - exists blk. now repeat split.
    - now exists item. }
  rewrite Hsolid in G.
  destruct (pe_place env);
    [intros H; apply G; cbn in *; tauto |].
  destruct (placeUnchanged _);
    [destruct (capture _) |]; intros H; apply G; cbn in *; tauto.
Qed.

Lemma placeBlock_places_against_solid_witness :
  isSolid (pe_blockAt refusedPlace (mkVec3 10 64 (-3))) = false
  /\ unitVector (mkVec3 0 1 0)
  /\ (exists blk,
        pe_blockAt refusedPlace (plus (mkVec3 10 64 (-3)) (neg (mkVec3 0 1 0)))
        = Some blk
        /\ Js.eqb (boundingBox blk) (js "block") = true
        /\ mkVec3 10 63 (-3) = position blk)
  /\ exists item, List.In item (pe_items refusedPlace)
                  /\ itemName item = js "cobblestone".
Proof.
  apply (placeBlock_places_against_solid connectedSession refusedPlace
           (js "cobblestone") (mkVec3 10 64 (-3)) (js "auto")
           (mkVec3 10 63 (-3)) (mkVec3 0 1 0)).
  vm_compute. right. left. reflexivity.
Defined.

(** X13: [placeBlock] reports success only when a block other than air stands
    at the target afterwards, and [breakBlock] only when the target afterwards
    holds no block, air, or a block of another name; neither sends the claim
    lookup command on success. *)
Theorem success_means_changed (s : Session) (penv : PlaceEnv)
    (block_name : jsstring) (targetPos : Vec3) (face : jsstring)
    (benv : BreakEnv) (breakPos : Vec3) (equip_best_tool : bool) :
  (isError (fst (placeBlock s penv block_name targetPos face)) = false ->
   (exists placed, pe_after penv = Some placed
                   /\ Js.eqb (name placed) (js "air") = false)
   /\ ~ List.In (EChat Claims.trustlist)
          (snd (placeBlock s penv block_name targetPos face)))
  /\ (isError (fst (breakBlock s benv breakPos equip_best_tool)) = false ->
      (exists block, be_block benv = Some block
                     /\ breakSuccess block (be_after benv) = true)
      /\ ~ List.In (EChat Claims.trustlist)
             (snd (breakBlock s benv breakPos equip_best_tool))).
Proof.
  split.
  - unfold placeBlock.
    destruct (requireBot s); [discriminate |].
    destruct (List.find _ _); [| discriminate].
    destruct (pe_equip penv); [discriminate |].
    destruct (isSolid _); [discriminate |].
    destruct (referenceOf _ _ _) as [[blk fv] | msg]; [| discriminate].
    destruct (pe_place penv); [discriminate |].
    unfold placeUnchanged.
    destruct (pe_after penv) as [placed |];
      [| destruct (capture _); discriminate].
    destruct (Js.eqb (name placed) (js "air")) eqn:Hair;
      [destruct (capture _); discriminate |].
    intros _. split; [now exists placed |].
    intros [H | [H | []]]; discriminate H.
  - unfold breakBlock.
    destruct (requireBot s); [discriminate |].
    destruct (be_block benv) as [block |]; [| discriminate].
    destruct (isAirName _); [discriminate |].
    destruct (negb (be_canDig benv)); [discriminate |].
    destruct (be_dig benv); [discriminate |].
    destruct (breakSuccess block (be_after benv)) eqn:Hs; cbn [negb];
      [| destruct (capture _); discriminate].
    intros _. split; [now exists block |].
    intros H. apply List.in_app_or in H as [H | [H | []]];
      [| discriminate H].
    destruct (if equip_best_tool then _ else _);
      [destruct H as [H | []]; discriminate H | exact H].
Qed.

(** *** edit_sign *)

Lemma pad4_length (lines : list jsstring) : List.length (pad4 lines) = 4%nat.
Proof.
  unfold pad4. rewrite List.length_firstn, List.length_app.
  apply Nat.min_l. cbn [List.length]. lia.
Qed.

Lemma pad4_nth (lines : list jsstring) (i : nat) :
  (i < 4)%nat -> List.nth i (pad4 lines) [] = List.nth i lines [].
Proof.
  intros Hi. unfold pad4.
  destruct lines as [| a [| b [| c [| d rest]]]];
    destruct i as [| [| [| [| i]]]]; try lia; reflexivity.
Qed.

(** X14: every [update_sign] packet [editSign] writes is for the sign's own
    position and carries exactly four lines: the lines given, in order, filled
    up with empty lines, anything after the fourth line dropped. *)
Theorem editSign_writes_four_lines (s : Session) (env : EditEnv) (pos : Vec3)
    (lines back_lines : list jsstring) (side : jsstring)
    (location : Vec3) (isFrontText : bool) (sent : list jsstring) :
  List.In (EUpdateSign location isFrontText sent)
    (snd (editSign s env pos lines back_lines side)) ->
  location = pos
  /\ List.length sent = 4%nat
  /\ forall i, (i < 4)%nat ->
       List.nth i sent []
       = List.nth i (if isFrontText then lines else back_lines) [].
Proof.
  unfold editSign.
  destruct (requireBot s); [intros [] |].
  destruct (ee_block env) as [block |]; [| intros []].
  destruct (negb _); [intros [] |].
  destruct (ee_write env); [intros [] |].
  cbv zeta.
  match goal with
  | |- context [(if ?a then [EUpdateSign pos true (pad4 lines)] else [])
                ++ (if ?b then [EUpdateSign pos false (pad4 back_lines)]
                    else [])] =>
      set (e1 := (if a then [EUpdateSign pos true (pad4 lines)] else [])
                 ++ (if b then [EUpdateSign pos false (pad4 back_lines)]
                     else []))
  end.
  assert (G : List.In (EUpdateSign location isFrontText sent)
                (e1 ++ [EChat Claims.trustlist]) ->
              location = pos /\ List.length sent = 4%nat
              /\ forall i, (i < 4)%nat ->
                   List.nth i sent []
                   = List.nth i (if isFrontText then lines else back_lines) []).
  { intros H. apply List.in_app_or in H as [H | [H | []]];
      [| discriminate H].
    subst e1. apply List.in_app_or in H as [H | H].
    - destruct (_ || _) in H; [| destruct H].
      destruct H as [H | []]. inversion H; subst.
      repeat split; [apply pad4_length | apply pad4_nth].
    - destruct (_ || _) in H; [| destruct H].
      destruct H as [H | []]. inversion H; subst.
      repeat split; [apply pad4_length | apply pad4_nth]. }
  assert (G' : List.In (EUpdateSign location isFrontText sent) e1 ->
               List.In (EUpdateSign location isFrontText sent)
                 (e1 ++ [EChat Claims.trustlist]))
    by (intros H; apply List.in_or_app; now left).
  destruct (_ && _).
  - destruct (capture _); [| intros H; exact (G H)].
    destruct (_ && _); intros H; exact (G H).
  - intros H. exact (G (G' H)).
Qed.

Lemma editSign_writes_four_lines_witness :
  signPos = signPos
  /\ List.length [js "Open"; []; []; []] = 4%nat
  /\ forall i, (i < 4)%nat ->
       List.nth i [js "Open"; []; []; []] [] = List.nth i [js "Open"] [].
Proof.
  apply (editSign_writes_four_lines connectedSession ignoredEdit signPos
           [js "Open"] [] (js "front") signPos true [js "Open"; []; []; []]).
  vm_compute. left. reflexivity.
Defined.

End Building.

(* ===================================================================== *)
(** ** Further properties: the promise of [connect] *)
(* ===================================================================== *)

Section Promises.

Lemma settledInv_emit (o : Output) (w : World) :
  (forall a, settles a o = false) ->
  settledInv w -> settledInv (emit o w).
Proof.
  intros Ho H a. unfold settled. cbn [outputs emit].
  rewrite List.filter_app. cbn [List.filter]. rewrite Ho, List.app_nil_r.
  exact (H a).
Qed.

Lemma settledInv_with_attempt (b : nat) (f : Attempt -> Attempt) (w : World) :
  (forall x, a_resolved x = true -> a_resolved (f x) = true) ->
  settledInv w -> settledInv (with_attempt b f w).
Proof.
  intros Hf H a. destruct (H a) as [H0 | [H1 Hr]]; [left; exact H0 |].
  right. split; [exact H1 |].
  unfold isResolved, with_attempt, with_attempts in *. cbn [attempts].
  rewrite nth_error_update_nth. destruct (Nat.eqb b a); [| exact Hr].
  destruct (List.nth_error (attempts w) a); cbn; [apply Hf, Hr | discriminate].
Qed.

Lemma settledInv_new_attempt (x : Attempt) (w : World) :
  settledInv w -> settledInv (with_attempts (attempts w ++ [x]) w).
Proof.
  intros H a. destruct (H a) as [H0 | [H1 Hr]]; [left; exact H0 |].
  right. split; [exact H1 |].
  unfold isResolved, with_attempts in *. cbn [attempts].
  destruct (List.nth_error (attempts w) a) as [y |] eqn:Hy; [| discriminate].
  rewrite List.nth_error_app1
    by (apply List.nth_error_Some; rewrite Hy; discriminate).
  rewrite Hy. exact Hr.
Qed.

Lemma settledInv_finish (a : nat) (success : bool) (r : ToolResult)
    (m : jsstring) (w : World) :
  settledInv w -> settledInv (finish a success r m w).
Proof.
  intros H. unfold finish. destruct (resolvedOf a w) eqn:Hres; [exact H |].
  assert (Hopen : isResolved a w = false).
  { unfold resolvedOf in Hres. unfold isResolved.
    destruct (List.nth_error (attempts w) a); [exact Hres | reflexivity]. }
  assert (G : forall o, settles a o = true ->
                (forall b, Nat.eqb b a = false -> settles b o = false) ->
                settledInv (emit o (with_attempt a set_resolved w))).
  { intros o Ha Hb b. unfold settled. cbn [outputs emit with_attempt
                                           with_attempts].
    rewrite List.filter_app, List.length_app. cbn [List.filter].
    destruct (Nat.eqb b a) eqn:Hba.
    - apply Nat.eqb_eq in Hba; subst b. rewrite Ha. right. split.
      + destruct (H a) as [H0 | [_ Hr]]; [| congruence].
        unfold settled in H0. rewrite H0. reflexivity.
      + unfold isResolved, emit, with_attempt, with_attempts. cbn [attempts].
        rewrite nth_error_update_nth, Nat.eqb_refl.
        unfold resolvedOf in Hres.
        destruct (List.nth_error (attempts w) a); [reflexivity | discriminate].
    - rewrite (Hb b Hba). cbn [List.length]. rewrite Nat.add_0_r.
      destruct (H b) as [H0 | [H1 Hr]]; [left; exact H0 |].
      right. split; [exact H1 |].
      unfold isResolved, emit, with_attempt, with_attempts in *.
      cbn [attempts].
      rewrite nth_error_update_nth.
      rewrite Nat.eqb_sym in Hba. rewrite Hba. exact Hr. }
  destruct success.
  - apply G; [apply Nat.eqb_refl |].
    intros b Hb. exact Hb.
  - exact (G (OReject a m) (Nat.eqb_refl a) (fun b Hb => Hb)).
Qed.

Lemma settledInv_executor (now : Z) (args : ConnectArgs)
    (createErr : option jsstring) (w : World) :
  settledInv w -> settledInv (executor now args createErr w).
Proof.
  intros H. unfold executor. destruct createErr as [err |].
  - apply settledInv_finish, settledInv_new_attempt, H.
  - exact (settledInv_emit (OCreateBot _ (optsOf args)) _ (fun _ => eq_refl)
             (settledInv_new_attempt _ w H)).
Qed.

Lemma settledInv_connect (now : Z) (args : ConnectArgs) (isReconnect : bool)
    (createErr : option jsstring) (w : World) :
  settledInv w -> settledInv (connect now args isReconnect createErr w).
Proof.
  intros H. unfold connect.
  set (w1 := if isReconnect then w else _).
  assert (H1 : settledInv w1) by (subst w1; destruct isReconnect; exact H).
  clearbody w1. destruct (busy _).
  - apply settledInv_emit; [reflexivity | exact H1].
  - cbv zeta. destruct (bot _) as [old |].
    + exact (settledInv_emit (OQuit old) _ (fun _ => eq_refl) H1).
    + apply settledInv_executor. exact H1.
Qed.

Lemma settledInv_scheduleReconnect (now : Z) (w : World) :
  settledInv w -> settledInv (scheduleReconnect now w).
Proof.
  intros H. unfold scheduleReconnect. destruct (_ <=? _); exact H.
Qed.

Lemma settledInv_step (now : Z) (e : Event) (w w' : World) :
  settledInv w -> step now e w = Some w' -> settledInv w'.
Proof.
  intros H Hstep. unfold step in Hstep.
  destruct (now <? clock w); [discriminate |].
  assert (H0 : settledInv (set_clock now w)) by exact H.
  destruct e; cbn [guard] in Hstep;
    try (unfold guard in Hstep; destruct (live b (set_clock now w));
         [| discriminate]);
    try (inversion Hstep; subst w'; clear Hstep).
  - apply settledInv_connect, H0.
  - unfold disconnect. cbv zeta. destruct (bot _) as [b |].
    + apply settledInv_emit; [reflexivity |].
      exact (settledInv_emit (OQuit b) _ (fun _ => eq_refl) H0).
    + apply settledInv_emit; [reflexivity | exact H0].
  - destruct (take_timer id (timers (set_clock now w)))
      as [[t rest] |]; [| discriminate].
    destruct (t_due t <=? now); [| discriminate].
    inversion Hstep; subst w'; clear Hstep.
    assert (H1 : settledInv (with_timers rest (set_clock now w))) by exact H.
    destruct (t_kind t) as [args isRec | a |]; cbn [run_timer].
    + apply settledInv_executor, H1.
    + unfold on_timeout. destruct (_ && _); [| exact H1].
      apply settledInv_finish. destruct (bot _) as [cur |]; [| exact H1].
      apply settledInv_emit; [reflexivity | exact H1].
    + unfold on_reconnect_timer. destruct (connectArgs _); [| exact H1].
      apply settledInv_connect, H1.
  - apply settledInv_with_attempt; [intros x Hx; exact Hx | exact H0].
  - unfold on_spawn. destruct (attemptOf _ _); [| exact H0].
    destruct (a_spawned _); [exact H0 |]. cbv zeta.
    assert (H1 : settledInv (with_attempt b set_spawned (set_clock now w)))
      by (apply settledInv_with_attempt; [intros x Hx; exact Hx | exact H0]).
    destruct (bot _); [| exact H1].
    apply settledInv_finish. exact H1.
  - exact H0.
  - unfold on_message_event. destruct (attemptOf _ _); [| exact H0].
    cbv zeta.
    apply settledInv_with_attempt; [intros x Hx; exact Hx | exact H0].
  - apply settledInv_finish, H0.
  - exact H0.
  - unfold on_end. cbv zeta.
    assert (H1 : settledInv (with_attempt b set_ended (set_clock now w)))
      by (apply settledInv_with_attempt; [intros x Hx; exact Hx | exact H0]).
    destruct (_ && _); [apply settledInv_scheduleReconnect |];
      destruct (resolvedOf _ _); exact H1.
Qed.

(** X15: the promise a call of [connect] returns is settled at most once in
    every run: of the [spawn], [error] and [end] listeners, the 30 s timeout
    and a failing [createBot], only the first to call [finish] resolves or
    rejects it. *)
Theorem promise_settled_once (evs : list (Z * Event)) (ws : list World) :
  run evs initial = Some ws ->
  forall w a, List.In w ws -> (settled a w <= 1)%nat.
Proof.
  assert (G : forall evs w0 ws, settledInv w0 -> run evs w0 = Some ws ->
                forall w, List.In w ws -> settledInv w).
  { clear evs ws. induction evs as [| [now e] evs IH]; intros w0 ws H0 Hrun;
      cbn in Hrun.
    - inversion Hrun; subst. intros w [].
    - destruct (step now e w0) as [w1 |] eqn:Hstep; [| discriminate].
      destruct (run evs w1) as [ws1 |] eqn:Hrun1; [| discriminate].
      inversion Hrun; subst ws.
      pose proof (settledInv_step _ _ _ _ H0 Hstep) as H1.
      intros w [<- | Hin]; [exact H1 | exact (IH w1 ws1 H1 Hrun1 w Hin)]. }
  intros Hrun w a Hin.
  assert (Hi : settledInv initial) by (intros b; now left).
  destruct (G evs initial ws Hi Hrun w Hin a) as [-> | [-> _]]; lia.
Qed.

Lemma promise_settled_once_witness :
  List.Forall (fun w => forall a, (settled a w <= 1)%nat)
    (match run noisyTrace initial with Some l => l | None => [] end).
Proof.
  apply List.Forall_forall. intros w Hin a. revert w a Hin.
  apply (promise_settled_once noisyTrace). vm_compute. reflexivity.
Defined.

End Promises.

(* ===================================================================== *)
(** ** Further properties: [disconnect] and the retry loop *)
(* ===================================================================== *)

Section Disconnect.






(** *** Witnesses of the retry loop *)

Lemma retry_rejected_as_busy_witness :
  on_reconnect_timer 7000 None (scheduleReconnect 5000 connectedWorld)
  = emit (OReturn (text (js "Already reconnecting. Please wait.")))
      (scheduleReconnect 5000 connectedWorld).
Proof.
  apply (retry_rejected_as_busy 5000 7000 None (withDefaults someArgs)
           connectedWorld).
  - reflexivity.
  - vm_compute. reflexivity.
Defined.

Lemma attempt_counter_at_most_one_witness :
  List.Forall (fun w => 0 <= reconnectAttempt (session w) <= 1)
    (match run raceTrace initial with Some l => l | None => [] end).
Proof.
  apply List.Forall_forall.
  apply (attempt_counter_at_most_one raceTrace). vm_compute. reflexivity.
Defined.

End Disconnect.

(* ===================================================================== *)
(** ** Further properties: get_chat_history *)
(* ===================================================================== *)

Section ChatHistoryProperties.

Variable toLocaleTimeString : Z -> jsstring.

Lemma joinLines_formatEntry_head (m : LogEntry) (rest : list LogEntry) :
  exists tail,
    Communication.joinLines
      (List.map (Communication.formatEntry toLocaleTimeString) (m :: rest))
    = 91%N :: tail.
Proof.
  cbn [List.map Communication.joinLines].
  assert (H : exists t,
             Communication.formatEntry toLocaleTimeString m = 91%N :: t)
    by (destruct m; eexists; reflexivity).
  destruct H as [t ->].
  destruct (List.map (Communication.formatEntry toLocaleTimeString) rest);
    eexists; reflexivity.
Qed.

Lemma recent_suffix (limit : Z) (chatLog : list LogEntry) :
  0 <= limit ->
  exists older,
    chatLog = older ++ Communication.recent (Some limit) chatLog
    /\ List.length (Communication.recent (Some limit) chatLog)
       = shownCount limit (List.length chatLog).
Proof.
  intros Hl. unfold Communication.recent, Communication.slice, shownCount.
  cbv zeta.
  match goal with
  | |- context [List.skipn ?k chatLog] =>
      exists (List.firstn k chatLog); set (n := k)
  end.
  split; [symmetry; apply List.firstn_skipn |].
  rewrite List.length_skipn. subst n.
  destruct (limit =? 0) eqn:E0.
  - apply Z.eqb_eq in E0; subst limit. cbn [Z.opp].
    rewrite Z.ltb_irrefl. rewrite Z.min_l by lia. cbn. lia.
  - apply Z.eqb_neq in E0.
    destruct (- limit <? 0) eqn:E; [| apply Z.ltb_ge in E; lia].
    lia.
Qed.

(** X17: for a limit that is not negative, [getChatHistory] answers "No chat
    messages yet" exactly when the log is empty; otherwise its text is the
    lines of the newest entries in the order of the log, [limit] of them or
    all there are if fewer, and all of them for the limit 0. *)
Theorem getChatHistory_shows_newest (limit : Z) (chatLog : list LogEntry) :
  0 <= limit ->
  (Communication.getChatHistory toLocaleTimeString (Some limit) chatLog
   = text (js "No chat messages yet")
   <-> chatLog = [])
  /\ exists older shown,
       chatLog = older ++ shown
       /\ List.length shown = shownCount limit (List.length chatLog)
       /\ (chatLog <> [] ->
           Communication.getChatHistory toLocaleTimeString (Some limit)
             chatLog
           = text (Communication.joinLines
                     (List.map (Communication.formatEntry toLocaleTimeString)
                        shown))).
Proof.
  intros Hl.
  destruct (recent_suffix limit chatLog Hl) as (older & Hsplit & Hlen).
  assert (Hne : chatLog <> [] ->
                Communication.recent (Some limit) chatLog <> []).
  { intros Hc Hr. rewrite Hr in Hlen. cbn in Hlen.
    unfold shownCount in Hlen.
    destruct chatLog as [| m l]; [now apply Hc |]. cbn [List.length] in Hlen.
    destruct (limit =? 0) eqn:E0; [discriminate |].
    apply Z.eqb_neq in E0. lia. }
  split; [split |].
  - intros H. destruct chatLog as [| m l]; [reflexivity |]. exfalso.
    assert (Hr := Hne ltac:(discriminate)).
    unfold Communication.getChatHistory in H.
    destruct (Communication.recent (Some limit) (m :: l)) as [| e es];
      [now apply Hr |].
    destruct (joinLines_formatEntry_head e es) as [tail Ht].
    rewrite Ht in H. discriminate H.
  - intros ->. unfold Communication.getChatHistory.
    destruct (Communication.recent (Some limit) []) as [| e es];
      [reflexivity |].
    exfalso. cbn [List.length] in Hlen. unfold shownCount in Hlen.
    destruct (limit =? 0); [discriminate |].
    rewrite Nat.min_0_r in Hlen. discriminate.
  - exists older, (Communication.recent (Some limit) chatLog).
    split; [exact Hsplit | split; [exact Hlen |]].
    intros Hc. specialize (Hne Hc).
    unfold Communication.getChatHistory.
    destruct (Communication.recent (Some limit) chatLog);
      [now contradiction Hne | reflexivity].
Qed.

End ChatHistoryProperties.

Lemma getChatHistory_shows_newest_witness :
  (Communication.getChatHistory showZ (Some 2) threeEntries
   = text (js "No chat messages yet")
   <-> threeEntries = [])
  /\ exists older shown,
       threeEntries = older ++ shown
       /\ List.length shown = shownCount 2 (List.length threeEntries)
       /\ (threeEntries <> [] ->
           Communication.getChatHistory showZ (Some 2) threeEntries
           = text (Communication.joinLines
                     (List.map (Communication.formatEntry showZ) shown))).
Proof.
  apply (getChatHistory_shows_newest showZ 2 threeEntries). lia.
Defined.

(* ===================================================================== *)
(** ** Further properties: matchesEntityType *)
(* ===================================================================== *)

Section EntityTypes.

Lemma includes_nil (s : jsstring) : includes [] s = true.
Proof. destruct s; reflexivity. Qed.

(** X18: an entity without a name, or with an empty one, matches every target
    type, and a target type that is empty or made of underscores matches every
    entity: the empty string is included in every string. *)
Theorem matchesEntityType_blank (entity : Entities.Entity)
    (targetType : jsstring) :
  Entities.normalize (Entities.name entity) = []
  \/ Entities.stripUnderscores (toLowerCase targetType) = [] ->
  Entities.matchesEntityType entity targetType = true.
Proof.
  intros [H | H]; unfold Entities.matchesEntityType; cbv zeta; rewrite H.
  - rewrite includes_nil. rewrite orb_true_r. reflexivity.
  - rewrite includes_nil, orb_true_r. reflexivity.
Qed.

Lemma matchesEntityType_blank_witness :
  Entities.matchesEntityType
    (Entities.mkEntity None (Some (js "Cow"))) (js "zombie") = true.
Proof.
  apply (matchesEntityType_blank
           (Entities.mkEntity None (Some (js "Cow"))) (js "zombie")).
  left. reflexivity.
Defined.

End EntityTypes.

(* ===================================================================== *)
(** ** Further properties: getMaxCraftable *)
(* ===================================================================== *)

Section MaxCraftable.

Import Crafting.

Lemma lookup_bump (k' n k : Z) (m : Counts) :
  lookup k (bump k' n m) = lookup k m + (if k' =? k then n else 0).
Proof.
  induction m as [| [k0 v] m IH]; cbn [bump lookup].
  - destruct (k' =? k); lia.
  - destruct (k0 =? k') eqn:E; cbn [lookup].
    + apply Z.eqb_eq in E; subst k0. destruct (k' =? k); lia.
    + destruct (k0 =? k) eqn:E1.
      * apply Z.eqb_eq in E1; subst k0. rewrite Z.eqb_sym, E. lia.
      * exact IH.
Qed.

Lemma bump_keys (k n k' : Z) (m : Counts) :
  List.In k' (List.map fst (bump k n m))
  <-> k' = k \/ List.In k' (List.map fst m).
Proof.
  induction m as [| [k0 v] m IH]; cbn [bump].
  - cbn. intuition.
  - destruct (k0 =? k) eqn:E; cbn [List.map fst List.In].
    + apply Z.eqb_eq in E; subst k0. intuition.
    + rewrite IH. intuition.
Qed.

Lemma bump_NoDup (k n : Z) (m : Counts) :
  List.NoDup (List.map fst m) -> List.NoDup (List.map fst (bump k n m)).
Proof.
  induction m as [| [k0 v] m IH]; cbn [bump]; intros H.
  - cbn. constructor; [intros [] | constructor].
  - inversion H as [| ? ? Hnotin Hnd]; subst.
    destruct (k0 =? k) eqn:E; cbn [List.map fst].
    + constructor; assumption.
    + constructor; [| apply IH, Hnd].
      rewrite bump_keys. intros [-> | Hin]; [| exact (Hnotin Hin)].
      rewrite Z.eqb_refl in E. discriminate.
Qed.

Lemma lookup_In (k v : Z) (m : Counts) :
  List.NoDup (List.map fst m) -> List.In (k, v) m -> lookup k m = v.
Proof.
  induction m as [| [k0 v0] m IH]; intros Hnd Hin; [destruct Hin |].
  inversion Hnd as [| ? ? Hnotin Hnd']; subst. cbn [lookup].
  destruct Hin as [Heq | Hin].
  - inversion Heq; subst. rewrite Z.eqb_refl. reflexivity.
  - destruct (k0 =? k) eqn:E; [| exact (IH Hnd' Hin)].
    apply Z.eqb_eq in E; subst k0. exfalso. apply Hnotin.
    apply (List.in_map fst) in Hin. exact Hin.
Qed.

Lemma itemCounts_lookup (inventory : list Stack) (id : Z) :
  lookup id (itemCounts inventory) = have inventory id.
Proof.
  unfold itemCounts, have.
  assert (G : forall m,
             lookup id (List.fold_left
                          (fun m item => bump (stackType item)
                                           (stackCount item) m)
                          inventory m)
             = lookup id m
               + List.fold_right Z.add 0
                   (List.map stackCount
                      (List.filter (fun item => stackType item =? id)
                         inventory))).
  { induction inventory as [| item inventory IH]; intros m;
      cbn [List.fold_left List.filter].
    - cbn. lia.
    - rewrite IH, lookup_bump.
      destruct (stackType item =? id); cbn [List.map List.fold_right]; lia. }
  rewrite G. reflexivity.
Qed.

Lemma counted_lookup (ids : list Z) (id : Z) :
  forall m,
    lookup id (List.fold_left (fun m id => bump id 1 m) ids m)
    = lookup id m + Z.of_nat (List.count_occ Z.eq_dec ids id).
Proof.
  induction ids as [| x ids IH]; intros m;
    cbn [List.fold_left List.count_occ].
  - cbn. lia.
  - rewrite IH, lookup_bump.
    destruct (Z.eq_dec x id) as [-> | Hne].
    + rewrite Z.eqb_refl. lia.
    + apply Z.eqb_neq in Hne. rewrite Hne. lia.
Qed.

Lemma counted_keys (ids : list Z) (id : Z) :
  forall m,
    List.In id (List.map fst
                  (List.fold_left (fun m id => bump id 1 m) ids m))
    <-> List.In id ids \/ List.In id (List.map fst m).
Proof.
  induction ids as [| x ids IH]; intros m; cbn [List.fold_left List.In].
  - intuition.
  - rewrite IH, bump_keys. intuition.
Qed.

Lemma counted_NoDup (ids : list Z) :
  forall m,
    List.NoDup (List.map fst m) ->
    List.NoDup (List.map fst
                  (List.fold_left (fun m id => bump id 1 m) ids m)).
Proof.
  induction ids as [| x ids IH]; intros m H; cbn [List.fold_left];
    [exact H |].
  apply IH, bump_NoDup, H.
Qed.

(** What the loop [Math.min(maxCrafts, ...)] computes. *)
Lemma fold_minInf {A} (f : A -> Z) (l : list A) :
  forall acc,
    match List.fold_left (fun maxCrafts e => minInf maxCrafts (f e)) l acc with
    | None => acc = None /\ l = []
    | Some m =>
        (forall e, List.In e l -> m <= f e)
        /\ (forall a, acc = Some a -> m <= a)
        /\ (acc = Some m \/ exists e, List.In e l /\ m = f e)
    end.
Proof.
  induction l as [| x l IH]; intros acc; cbn [List.fold_left].
  - destruct acc as [a |]; [| now split].
    split; [intros e [] |]. split; [| now left].
    intros a' H; inversion H; lia.
  - specialize (IH (minInf acc (f x))).
    destruct (List.fold_left _ l (minInf acc (f x))) as [m |].
    + destruct IH as (Hall & Hacc & Hex).
      assert (Hx : m <= f x).
      { destruct acc as [a |]; cbn [minInf] in Hacc.
        - specialize (Hacc _ eq_refl). lia.
        - exact (Hacc _ eq_refl). }
      split; [intros e [<- | Hin]; [exact Hx | exact (Hall e Hin)] |].
      split.
      * intros a ->. cbn [minInf] in Hacc. specialize (Hacc _ eq_refl). lia.
      * destruct Hex as [Hm | (e & Hin & He)].
        -- destruct acc as [a |]; cbn [minInf] in Hm; inversion Hm.
           ++ destruct (Z.min_spec a (f x)) as [[_ Hmin] | [_ Hmin]].
              ** left. f_equal. lia.
              ** right. exists x. split; [now left | lia].
           ++ right. exists x. split; [now left | reflexivity].
        -- right. exists e. split; [now right | exact He].
    + destruct IH as [Hacc _]. destruct acc; discriminate Hacc.
Qed.

(** X19: with at least one ingredient, [getMaxCraftable] is the number of
    times the inventory covers the recipe: that many craftings take no more of
    any ingredient than the inventory holds, and one more would take more of
    some ingredient than it holds. *)
Theorem getMaxCraftable_is_maximal (inventory : list Stack)
    (recipe : Recipe) :
  requiredIds recipe <> [] ->
  let n := getMaxCraftable inventory recipe in
  (forall id, List.In id (requiredIds recipe) ->
              n * need recipe id <= have inventory id)
  /\ exists id, List.In id (requiredIds recipe)
                /\ have inventory id < (n + 1) * need recipe id.
Proof.
  intros Hne n. subst n. unfold getMaxCraftable. cbv zeta.
  set (R := required recipe).
  assert (Hnd : List.NoDup (List.map fst R))
    by (apply counted_NoDup; constructor).
  assert (Hkeys : forall id, List.In id (List.map fst R)
                             <-> List.In id (requiredIds recipe)).
  { intros id. subst R. unfold required. rewrite counted_keys.
    cbn. intuition. }
  assert (Hval : forall k v, List.In (k, v) R ->
                   v = need recipe k /\ 0 < v
                   /\ List.In k (requiredIds recipe)).
  { intros k v Hin.
    assert (Hk : List.In k (requiredIds recipe))
      by (apply Hkeys; apply (List.in_map fst) in Hin; exact Hin).
    pose proof (lookup_In k v R Hnd Hin) as Hl.
    subst R. unfold required in Hl. rewrite counted_lookup in Hl.
    cbn [lookup] in Hl. unfold need.
    pose proof (proj1 (List.count_occ_In Z.eq_dec _ _) Hk) as Hc.
    split; [lia | split; [lia | exact Hk]]. }
  pose proof (fold_minInf
                (fun entry : Z * Z =>
                   lookup (fst entry) (itemCounts inventory) / snd entry)
                R None) as Hfold.
  destruct (List.fold_left _ R None) as [m |].
  - destruct Hfold as (Hall & _ & Hex). split.
    + intros id Hid. apply Hkeys in Hid. apply List.in_map_iff in Hid.
      destruct Hid as ([k v] & Hfst & Hin). cbn [fst] in Hfst. subst k.
      destruct (Hval id v Hin) as (Hv & Hpos & _).
      specialize (Hall (id, v) Hin). cbn [fst snd] in Hall.
      rewrite itemCounts_lookup in Hall. rewrite <- Hv.
      pose proof (Z.mul_div_le (have inventory id) v Hpos). nia.
    + destruct Hex as [Hm | ([k v] & Hin & Hm)]; [discriminate Hm |].
      cbn [fst snd] in Hm. rewrite itemCounts_lookup in Hm.
      destruct (Hval k v Hin) as (Hv & Hpos & Hk).
      exists k. split; [exact Hk |]. rewrite <- Hv, Hm.
      pose proof (Z.mul_succ_div_gt (have inventory k) v Hpos). lia.
  - destruct Hfold as [_ HR]. exfalso.
    destruct (requiredIds recipe) as [| id ids] eqn:Hids; [now apply Hne |].
    assert (Hin : List.In id (List.map fst R))
      by (apply Hkeys; now left).
    rewrite HR in Hin. exact Hin.
Qed.

Lemma getMaxCraftable_is_maximal_witness :
  let n := getMaxCraftable planksAndSticks pickaxeRecipe in
  (forall id, List.In id (requiredIds pickaxeRecipe) ->
              n * need pickaxeRecipe id <= have planksAndSticks id)
  /\ exists id, List.In id (requiredIds pickaxeRecipe)
                /\ have planksAndSticks id < (n + 1) * need pickaxeRecipe id.
Proof.
  apply (getMaxCraftable_is_maximal planksAndSticks pickaxeRecipe).
  vm_compute. discriminate.
Defined.

(** X20: a recipe that names no ingredient is reported as not craftable at
    all; an empty [ingredients] array hides the [inShape] of the recipe. *)
Theorem getMaxCraftable_nothing_required (inventory : list Stack)
    (recipe : Recipe) :
  requiredIds recipe = [] -> getMaxCraftable inventory recipe = 0.
Proof.
  intros H. unfold getMaxCraftable, required. rewrite H. reflexivity.
Qed.

Lemma getMaxCraftable_nothing_required_witness :
  getMaxCraftable planksAndSticks
    (mkRecipe (Some []) (inShape pickaxeRecipe)) = 0.
Proof.
  apply (getMaxCraftable_nothing_required planksAndSticks
           (mkRecipe (Some []) (inShape pickaxeRecipe))).
  reflexivity.
Defined.

End MaxCraftable.

(* ===================================================================== *)
(** ** Further properties: the owner line of the claim lookup *)
(* ===================================================================== *)

Section OwnerLine.

Import Claims.

Lemma star_complete {A} (cls : N -> bool) (m : jsstring) :
  forall (rest : jsstring) (k : jsstring -> option A) (x : A),
    List.forallb cls m = true ->
    match rest with c :: _ => cls c = false | [] => True end ->
    k rest = Some x ->
    star cls k (m ++ rest) = Some x.
Proof.
  induction m as [| c m IH]; intros rest k x Hm Hrest Hk.
  - destruct rest as [| r rest]; cbn; [exact Hk |]. rewrite Hrest. exact Hk.
  - cbn in Hm. apply andb_true_iff in Hm as [Hc Hm]. cbn. rewrite Hc.
    rewrite (IH rest k x Hm Hrest Hk). reflexivity.
Qed.

Lemma star_sound {A} (cls : N -> bool) (s : jsstring) :
  forall (k : jsstring -> option A) (x : A),
    star cls k s = Some x ->
    exists m rest, s = m ++ rest /\ List.forallb cls m = true
                   /\ k rest = Some x.
Proof.
  induction s as [| c s IH]; intros k x H; cbn in H.
  - exists [], []. now repeat split.
  - assert (Hstop : k (c :: s) = Some x ->
                    exists m rest, c :: s = m ++ rest
                                   /\ List.forallb cls m = true
                                   /\ k rest = Some x)
      by (intros Hk; exists [], (c :: s); now repeat split).
    destruct (cls c) eqn:Hc; [| auto].
    destruct (star cls k s) as [y |] eqn:Hrec; cbn in H; [| auto].
    inversion H; subst y.
    destruct (IH _ _ Hrec) as (m & rest & -> & Hm & Hk).
    exists (c :: m), rest. cbn. rewrite Hc, Hm. now repeat split.
Qed.

Lemma starCap_greedy {A} (cls : N -> bool) (m : jsstring) :
  forall (acc rest : jsstring) (k : jsstring -> jsstring -> option A) (x : A),
    List.forallb cls m = true ->
    match rest with c :: _ => cls c = false | [] => True end ->
    k (List.rev acc ++ m) rest = Some x ->
    starCap cls acc k (m ++ rest) = Some x.
Proof.
  induction m as [| c m IH]; intros acc rest k x Hm Hrest Hk.
  - rewrite List.app_nil_r in Hk.
    destruct rest as [| r rest]; cbn; [exact Hk |]. rewrite Hrest. exact Hk.
  - cbn in Hm. apply andb_true_iff in Hm as [Hc Hm]. cbn. rewrite Hc.
    rewrite (IH (c :: acc) rest k x Hm Hrest); [reflexivity |].
    cbn [List.rev]. rewrite <- List.app_assoc. exact Hk.
Qed.

Lemma search_sound {A} (m : jsstring -> option A) (s : jsstring) (x : A) :
  search m s = Some x -> exists pre post, s = pre ++ post /\ m post = Some x.
Proof.
  induction s as [| c s IH]; cbn; intros H.
  - destruct (m []) eqn:E; cbn in H; [| discriminate].
    inversion H; subst. exists [], []. now split.
  - destruct (m (c :: s)) eqn:E; cbn in H.
    + inversion H; subst. exists [], (c :: s). now split.
    + destruct (IH H) as (pre & post & -> & Hm).
      exists (c :: pre), post. now split.
Qed.

(** X21: a line that starts with "Owner:" or "owner:" is read as naming the
    owner: the first run of characters other than white space after the colon,
    white space in between skipped, whatever follows. *)
Theorem owner_line_read (o : N) (spaces owner rest : jsstring) :
  isOo o = true ->
  List.forallb isSpace spaces = true ->
  owner <> [] ->
  List.forallb notSpace owner = true ->
  match rest with c :: _ => isSpace c = true | [] => True end ->
  match_owner (o :: js "wner:" ++ spaces ++ owner ++ rest) = Some owner.
Proof.
  intros Ho Hsp Hne Hname Hrest. unfold match_owner. cbn [search].
  match goal with
  | |- orElse ?a _ = _ => assert (E : a = Some owner); [| now rewrite E]
  end.
  unfold one. rewrite Ho. unfold lit. rewrite startsWith_app.
  rewrite List.skipn_app, List.skipn_all, Nat.sub_diag.
  cbn [List.skipn List.app].
  apply star_complete; [exact Hsp | |].
  - destruct owner as [| c owner]; [contradiction |]. cbn in Hname.
    apply andb_true_iff in Hname as [Hc _]. unfold notSpace in Hc.
    apply negb_true_iff in Hc. exact Hc.
  - apply starCap_greedy; [exact Hname | |].
    + destruct rest as [| r rest]; [exact I |]. unfold notSpace.
      rewrite Hrest. reflexivity.
    + cbn [List.rev List.app]. unfold capNonEmpty.
      destruct owner; [contradiction | reflexivity].
Qed.

Lemma owner_line_read_witness :
  match_owner (79%N :: js "wner:" ++ js "  " ++ js "Alice_99" ++ js " (you)")
  = Some (js "Alice_99").
Proof.
  apply (owner_line_read 79%N (js "  ") (js "Alice_99") (js " (you)")).
  - reflexivity.
  - reflexivity.
  - discriminate.
  - reflexivity.
  - reflexivity.
Defined.

(** X22: whatever the text, an owner that is read is not empty, holds no white
    space, and stands in the text after "Owner:" or "owner:" and white space
    only. *)
Theorem owner_read_from_text (text owner : jsstring) :
  match_owner text = Some owner ->
  owner <> []
  /\ List.forallb notSpace owner = true
  /\ exists pre o spaces rest,
       text = pre ++ o :: js "wner:" ++ spaces ++ owner ++ rest
       /\ isOo o = true
       /\ List.forallb isSpace spaces = true.
Proof.
  unfold match_owner. intros H.
  apply search_sound in H as (pre & post & -> & H).
  unfold one in H. destruct post as [| o post]; [discriminate |].
  destruct (isOo o) eqn:Ho; [| discriminate].
  unfold lit in H. destruct (startsWith (js "wner:") post) eqn:Hs;
    [| discriminate].
  apply startsWith_inv in Hs.
  apply star_sound in H as (spaces & rest1 & Hsplit & Hsp & H).
  apply starCap_sound in H as (g & rest & -> & Hg & H).
  cbn [List.rev List.app] in H. unfold capNonEmpty in H.
  destruct (nonEmpty g) eqn:Hne; [| discriminate]. inversion H; subst g.
  split; [intros ->; discriminate |]. split; [exact Hg |].
  exists pre, o, spaces, rest. split; [| now split].
  rewrite Hs, Hsplit. reflexivity.
Qed.

Lemma owner_read_from_text_witness :
  js "Alice" <> []
  /\ List.forallb notSpace (js "Alice") = true
  /\ exists pre o spaces rest,
       js "Claim owner: Alice (you)"
       = pre ++ o :: js "wner:" ++ spaces ++ js "Alice" ++ rest
       /\ isOo o = true
       /\ List.forallb isSpace spaces = true.
Proof.
  apply (owner_read_from_text (js "Claim owner: Alice (you)") (js "Alice")).
  vm_compute. reflexivity.
Defined.

End OwnerLine.

(* ===================================================================== *)
(** ** Further properties: extractItemName *)
(* ===================================================================== *)

Section ItemNames.

(** X23: whatever the item data, the name extracted is a non-empty word of
    letters, digits and underscores: the id found after "minecraft:", or
    "unknown". *)
Theorem extractItemName_is_a_word (itemYaml : jsstring) :
  Economy.extractItemName itemYaml <> []
  /\ List.forallb isWord (Economy.extractItemName itemYaml) = true.
Proof.
  unfold Economy.extractItemName.
  destruct (Economy.match_item itemYaml) as [g |] eqn:H.
  - unfold Economy.match_item in H.
    apply search_sound in H as (pre & post & _ & H).
    unfold lit in H at 1.
    destruct (startsWith (js "id:") post); [| discriminate].
    apply star_sound in H as (spaces & rest1 & _ & _ & H).
    unfold lit in H.
    destruct (startsWith (js "minecraft:") rest1); [| discriminate].
    apply starCap_sound in H as (m & rest & _ & Hm & H).
    cbn [List.rev List.app] in H.
    destruct (nonEmpty m) eqn:Hne; [| discriminate]. inversion H; subst m.
    split; [intros ->; discriminate | exact Hm].
  - split; [discriminate | reflexivity].
Qed.

(** X24: item data that starts with the id line gives the id: the word after
    "minecraft:", up to the first character that is not of a word. *)
Theorem extractItemName_reads_id (spaces item rest : jsstring) :
  List.forallb isSpace spaces = true ->
  item <> [] ->
  List.forallb isWord item = true ->
  match rest with c :: _ => isWord c = false | [] => True end ->
  Economy.extractItemName
    (js "id:" ++ spaces ++ js "minecraft:" ++ item ++ rest) = item.
Proof.
  intros Hsp Hne Hitem Hrest. unfold Economy.extractItemName.
  assert (E : Economy.match_item
                (js "id:" ++ spaces ++ js "minecraft:" ++ item ++ rest)
              = Some item); [| now rewrite E].
  unfold Economy.match_item.
  set (m := lit (js "id:") _).
  assert (Hm : m (js "id:" ++ spaces ++ js "minecraft:" ++ item ++ rest)
               = Some item).
  { subst m. unfold lit at 1. rewrite startsWith_app.
    rewrite List.skipn_app, List.skipn_all, Nat.sub_diag.
    cbn [List.skipn List.app].
    apply star_complete; [exact Hsp | reflexivity |].
    unfold lit. rewrite startsWith_app.
    rewrite List.skipn_app, List.skipn_all, Nat.sub_diag.
    cbn [List.skipn List.app].
    apply starCap_greedy; [exact Hitem | exact Hrest |].
    cbn [List.rev List.app]. destruct item; [contradiction | reflexivity]. }
  change (js "id:" ++ spaces ++ js "minecraft:" ++ item ++ rest)
    with (105%N :: (js "d:" ++ spaces ++ js "minecraft:" ++ item ++ rest))
    in *.
  cbn [search]. rewrite Hm. reflexivity.
Qed.

Lemma extractItemName_reads_id_witness :
  Economy.extractItemName
    (js "id:" ++ js " " ++ js "minecraft:" ++ js "oak_log"
     ++ 10%N :: js "count: 1")
  = js "oak_log".
Proof.
  apply (extractItemName_reads_id (js " ") (js "oak_log")
           (10%N :: js "count: 1")).
  - reflexivity.
  - discriminate.
  - reflexivity.
  - reflexivity.
Defined.

End ItemNames.
